(** * OMAP Pathfinding Processor: heuristics, index helpers, segment
    orchestration, grid reuse and obstacle-cost parsing.

    Shallow embedding of
    - [include/map/PathfindingUtils.hpp]   (namespace [PathfindingUtils]),
    - [src/logic/PathfindingLogic.cpp]     ([app::PathfindingLogic::processAndFindPath]),
    - [src/gui/main_window.cpp]            ([onCalculatePathClicked],
      [onCalculationFinished], [onAlgorithmChanged], [triggerExport],
      [parseObstacleCosts]),
    - [include/logic/BackendInterface.hpp] ([BackendInputParams], [BackendResult]).

    C++ [int] is a 32-bit two's-complement integer carried as [Z] with its
    wrap-around written out; [float] and [double] are IEEE-754 binary32 and
    binary64 values carried as [spec_float] with the rounding of [SpecFloat]. *)

From Stdlib Require Import ZArith List Bool Lia Ascii String.
From Stdlib Require Import Floats.SpecFloat.
From stdpp Require Import gmap strings list.

Local Open Scope Z_scope.

(* ===================================================================== *)
(** ** Machine integers *)
(* ===================================================================== *)

Module Int32.

Definition min_int : Z := - 2 ^ 31.
Definition max_int : Z := 2 ^ 31 - 1.

Definition in_range (z : Z) : Prop := min_int <= z <= max_int.

(** Two's-complement reduction of a mathematical result to 32 bits.
    Signed overflow is undefined in C++; the model takes the wrapped value
    the supported x86-64 targets compute. *)
Definition wrap (z : Z) : Z := (z + 2 ^ 31) mod 2 ^ 32 - 2 ^ 31.

Definition add (a b : Z) : Z := wrap (a + b).
Definition sub (a b : Z) : Z := wrap (a - b).
Definition mul (a b : Z) : Z := wrap (a * b).
(** [/] and [%] truncate toward zero. *)
Definition div (a b : Z) : Z := wrap (Z.quot a b).
Definition rem (a b : Z) : Z := Z.rem a b.
(** [std::abs(int)] *)
Definition abs (a : Z) : Z := wrap (Z.abs a).

End Int32.

(* ===================================================================== *)
(** ** IEEE-754 binary32 ([float]) and binary64 ([double]) *)
(* ===================================================================== *)

Module F32.

Definition prec : Z := 24.
Definition emax : Z := 128.

Definition add : spec_float -> spec_float -> spec_float := SFadd prec emax.
Definition sub : spec_float -> spec_float -> spec_float := SFsub prec emax.
Definition mul : spec_float -> spec_float -> spec_float := SFmul prec emax.
Definition div : spec_float -> spec_float -> spec_float := SFdiv prec emax.
Definition sqrtf : spec_float -> spec_float := SFsqrt prec emax.
Definition fabs : spec_float -> spec_float := SFabs.
Definition ltb : spec_float -> spec_float -> bool := SFltb.
Definition leb : spec_float -> spec_float -> bool := SFleb.

(** [std::min(a, b)] is [(b < a) ? b : a]. *)
Definition min (a b : spec_float) : spec_float := if ltb b a then b else a.

(** [static_cast<float>(int)]: the integer rounded to nearest-even. *)
Definition of_int (z : Z) : spec_float := binary_normalize prec emax z 0 false.

(** A decimal literal [n / d] (for instance [1.41421356f] is
    [141421356 / 10^8]) rounded to the nearest binary32 value. *)
Definition of_ratio (n d : positive) : spec_float :=
  let '(mz, ez, lz) := SFdiv_core_binary prec emax (Zpos n) 0 (Zpos d) 0 in
  binary_round_aux prec emax false mz ez lz.

(** Canonical (normalised) representation in the binary32 format. *)
Definition canonical (x : spec_float) : Prop := valid_binary prec emax x = true.

End F32.

Module F64.

Definition prec : Z := 53.
Definition emax : Z := 1024.

Definition add : spec_float -> spec_float -> spec_float := SFadd prec emax.
Definition sub : spec_float -> spec_float -> spec_float := SFsub prec emax.
Definition mul : spec_float -> spec_float -> spec_float := SFmul prec emax.
Definition div : spec_float -> spec_float -> spec_float := SFdiv prec emax.
Definition ltb : spec_float -> spec_float -> bool := SFltb.
Definition leb : spec_float -> spec_float -> bool := SFleb.

Definition of_int (z : Z) : spec_float := binary_normalize prec emax z 0 false.

Definition of_ratio (n d : positive) : spec_float :=
  let '(mz, ez, lz) := SFdiv_core_binary prec emax (Zpos n) 0 (Zpos d) 0 in
  binary_round_aux prec emax false mz ez lz.

(** Implicit promotion [float -> double] (exact). *)
Definition of_float (x : spec_float) : spec_float :=
  match x with
  | S754_finite s m e => binary_round prec emax s m e
  | _ => x
  end.

(** [static_cast<float>(double)]: rounded to nearest-even. *)
Definition to_float (x : spec_float) : spec_float :=
  match x with
  | S754_finite s m e => binary_round F32.prec F32.emax s m e
  | _ => x
  end.

End F64.

(* ===================================================================== *)
(** ** [PathfindingUtils.hpp] *)
(* ===================================================================== *)

Record GridPoint := mkGridPoint { gp_x : Z; gp_y : Z }.

(** [GridPoint::operator==] *)
Definition GridPoint_eqb (a b : GridPoint) : bool :=
  (gp_x a =? gp_x b) && (gp_y a =? gp_y b).

Module PathfindingUtils.

Definition NUM_DIRECTIONS : Z := 8.

(** [dx[NUM_DIRECTIONS]] and [dy[NUM_DIRECTIONS]]: the offsets of the eight
    neighbours, the four axis moves first. *)
Definition dx (i : nat) : Z :=
  nth i [1; 0; -1; 0; 1; -1; -1; 1] 0.
Definition dy (i : nat) : Z :=
  nth i [0; 1; 0; -1; 1; 1; -1; -1] 0.

(** [costs[NUM_DIRECTIONS]]: base geometric costs, [1.0f] four times and
    [1.41421356f] four times. *)
Definition costs (i : nat) : spec_float :=
  match i with
  | 0%nat | 1%nat | 2%nat | 3%nat => F32.of_int 1
  | _ => F32.of_ratio 141421356 100000000
  end.

Definition HEURISTIC_EUCLIDEAN : Z := 0.
Definition HEURISTIC_DIAGONAL : Z := 1.
Definition HEURISTIC_MANHATTAN : Z := 2.
Definition HEURISTIC_MIN_COST : Z := 3.

Module internal.

Definition euclidean_distance (x1 y1 x2 y2 : Z) : spec_float :=
  let dx_h := F32.of_int (Int32.sub x1 x2) in
  let dy_h := F32.of_int (Int32.sub y1 y2) in
  F32.sqrtf (F32.add (F32.mul dx_h dx_h) (F32.mul dy_h dy_h)).

Definition diagonal_distance (x1 y1 x2 y2 : Z) : spec_float :=
  let dx_h := F32.fabs (F32.of_int (Int32.sub x1 x2)) in
  let dy_h := F32.fabs (F32.of_int (Int32.sub y1 y2)) in
  F32.add (F32.mul (costs 0) (F32.add dx_h dy_h))
          (F32.mul (F32.sub (costs 4) (F32.mul (F32.of_int 2) (costs 0)))
                   (F32.min dx_h dy_h)).

Definition manhattan_distance (x1 y1 x2 y2 : Z) : spec_float :=
  F32.of_int (Int32.add (Int32.abs (Int32.sub x1 x2))
                        (Int32.abs (Int32.sub y1 y2))).

End internal.

(** The [switch] of [calculate_heuristic]; [HEURISTIC_EUCLIDEAN] and
    [default] share one arm. *)
Definition calculate_heuristic (x1 y1 x2 y2 heuristic_type : Z) : spec_float :=
  if heuristic_type =? HEURISTIC_DIAGONAL then
    internal.diagonal_distance x1 y1 x2 y2
  else if heuristic_type =? HEURISTIC_MANHATTAN then
    internal.manhattan_distance x1 y1 x2 y2
  else if heuristic_type =? HEURISTIC_MIN_COST then
    F32.mul (internal.diagonal_distance x1 y1 x2 y2) (F32.of_ratio 8 10)
  else
    internal.euclidean_distance x1 y1 x2 y2.

Definition toIndex (x y width : Z) : Z :=
  Int32.add (Int32.mul y width) x.

(** [toCoords] writes its two reference parameters; the model returns the
    pair [(x, y)]. *)
Definition toCoords (index width : Z) : Z * Z :=
  if width <=? 0 then (-1, -1)
  else
    let y := Int32.div index width in
    let x := Int32.rem index width in
    (x, y).

End PathfindingUtils.

(* ===================================================================== *)
(** ** Collaborator types ([MapProcessor.hpp], [GeoRefScanner.hpp],
       [ElevationFetchingCommon.hpp]) *)
(* ===================================================================== *)

Module mapgeo.

(** Modelled from the spec: [MapProcessingCommon.h] is not part of the
    sources; a cell stores a base cost multiplier that is finite or the
    [IMPASSABLE] sentinel, its origin symbol code and its layer tag. *)
Inductive Multiplier :=
  | IMPASSABLE
  | Finite (m : spec_float).

Record Cell := mkCell {
    cell_m : Multiplier;
    cell_symbol : string;
    cell_layer : string
  }.

(** Modelled from the spec: [Grid_V3] of [MapProcessor.hpp] is not part of
    the sources; [Grid = (W, H, cells[W*H])], row-major. *)
Record Grid_V3 := mkGrid {
    width : Z;
    height : Z;
    cells : list Cell
  }.

(** Modelled from the spec: [in_bounds(x,y)] iff [0 <= x < W] and
    [0 <= y < H]. *)
Definition inBounds (g : Grid_V3) (x y : Z) : bool :=
  (0 <=? x) && (x <? width g) && (0 <=? y) && (y <? height g).

Definition cell_at (g : Grid_V3) (x y : Z) : option Cell :=
  if inBounds g x y then cells g !! Z.to_nat (y * width g + x) else None.

Definition is_impassable (g : Grid_V3) (p : GridPoint) : bool :=
  match cell_at g (gp_x p) (gp_y p) with
  | Some c => match cell_m c with IMPASSABLE => true | Finite _ => false end
  | None => false
  end.

Record NormalizationResult := mkNorm {
    valid : bool;
    min_x : spec_float;
    min_y : spec_float;
    resolution_x : spec_float;
    resolution_y : spec_float
  }.

Record MapProcessorConfig := mkConfig {
    grid_width : Z;
    grid_height : Z;
    layers_to_process : list string
  }.

End mapgeo.

(** [mapgeo::ObstacleConfigMap]: symbol code to cost multiplier. *)
Abbreviation ObstacleConfigMap := (gmap string spec_float).

Module mapscan.

Record PointD := mkPointD { x : spec_float; y : spec_float }.

Record BoundsUM := mkBounds {
    min_x : spec_float;
    min_y : spec_float;
    max_x : spec_float;
    max_y : spec_float;
    initialized : bool
  }.

Record ScanResult := mkScan {
    georeferencingFound : bool;
    refLatLon : option PointD;
    rawBoundsUM : option BoundsUM;
    mapScale : option spec_float
  }.

End mapscan.

Module ElevationFetcher.

Record ElevationData := mkElevationData {
    success : bool;
    values : list spec_float;
    width : Z;
    height : Z;
    resolution_meters : spec_float;
    origin_proj_x : spec_float;
    origin_proj_y : spec_float;
    errorMessage : string
  }.

Record ProjectedPointResult := mkProjected {
    proj_success : bool;
    proj_x : spec_float;
    proj_y : spec_float;
    proj_error : string
  }.

End ElevationFetcher.

(* ===================================================================== *)
(** ** [BackendInterface.hpp] *)
(* ===================================================================== *)

Record BackendInputParams := mkParams {
  mapFilePath : string;
  controlsFilePath : string;
  desiredGridWidth : Z;
  desiredGridHeight : Z;
  obstacleCosts : ObstacleConfigMap;
  numThreads : Z;
  desiredElevationResolution : spec_float;
  pyModuleName : string;
  pyFetchFuncName : string;
  pyConvertFuncName : string;
  algorithmName : string;
  heuristicType : Z;
  gpuDelta : spec_float;
  gpuThreshold : spec_float;
  hadsRadius : Z;
  hadsPruneFactor : spec_float;
  hadsHeuristicWeight : spec_float;
  reuseGridIfPossible : bool;
  existingGrid : option mapgeo.Grid_V3;
  existingNormInfo : option mapgeo.NormalizationResult
}.

(** [BackendResult::errorMessage] is text assembled with [QString::arg]; the
    model keeps the message kind and its arguments. *)
Inductive ErrorMessage :=
| MsgEmpty
| MsgSegmentOutOfBounds (segment : nat) (a b : GridPoint) (w h : Z)
| MsgPathNotFound (segment : nat) (a b : GridPoint)
| MsgIdenticalPointsOnly
| MsgNotEnoughWaypoints
| MsgBackendError (what : string).

Record BackendResult := mkResult {
  success : bool;
  errorMessage : ErrorMessage;
  usedMapFilePath : string;
  currentControlsFilePath : string;
  usedGridWidth : Z;
  usedGridHeight : Z;
  processedGrid : option mapgeo.Grid_V3;
  normalizationInfo : option mapgeo.NormalizationResult;
  elevationDataUsed : option ElevationFetcher.ElevationData;
  usedDummyElevation : bool;
  finalLogicalResolutionMeters : spec_float;
  finalOriginOffsetX : spec_float;
  finalOriginOffsetY : spec_float;
  fullPathIndices : list Z;
  waypointsFound : nat
}.


(* ===================================================================== *)
(** ** [PathfindingLogic.cpp] *)
(* ===================================================================== *)

(** The pathfinder's view of the elevation raster: the eight arguments every
    [find*Path_Tobler_Sampled] call receives besides the grid and the two
    endpoints. *)
Record ElevationField := mkField {
  elevation_values : list spec_float;
  elevation_width : Z;
  elevation_height : Z;
  log_cell_resolution : spec_float;
  elev_cell_resolution : spec_float;
  origin_offset_x : spec_float;
  origin_offset_y : spec_float
}.

(** The collaborators [processAndFindPath] calls and whose code is outside
    the modelled sources: the georeference scanner, the map processor, the
    waypoint extractor, the embedded elevation fetcher and the five CPU
    pathfinders.  A [MapProcessor] object is carried as the abstract state
    [processor]. *)
Record Backend := mkBackend {
  processor : Type;
  scanXmlForGeoRefAndBounds : string -> list string -> mapscan.ScanResult;
  MapProcessor_new : mapgeo.MapProcessorConfig -> processor;
  loadMap : processor -> string -> bool * processor;
  generateGrid : processor -> ObstacleConfigMap -> option mapgeo.Grid_V3 * processor;
  getNormalizationResult : processor -> option mapgeo.NormalizationResult;
  extractWaypointsFromFile :
    string -> spec_float -> spec_float -> spec_float -> spec_float -> Z -> Z ->
    option (list GridPoint);
  ElevationData_default : ElevationFetcher.ElevationData;
  hasData : ElevationFetcher.ElevationData -> bool;
  fetchElevationDataEmbedded :
    string -> string -> spec_float -> spec_float -> spec_float -> spec_float ->
    spec_float -> spec_float -> spec_float -> spec_float -> spec_float -> spec_float ->
    ElevationFetcher.ElevationData;
  convertLatLonToProjectedViaPython :
    string -> string -> spec_float -> spec_float -> ElevationFetcher.ProjectedPointResult;
  findAStarPath_Tobler_Sampled :
    mapgeo.Grid_V3 -> ElevationField -> GridPoint -> GridPoint -> Z -> list Z;
  findDijkstraPath_Tobler_Sampled :
    mapgeo.Grid_V3 -> ElevationField -> GridPoint -> GridPoint -> list Z;
  findBFSPath_Tobler_Sampled :
    mapgeo.Grid_V3 -> ElevationField -> GridPoint -> GridPoint -> list Z;
  findThetaStarPath_Tobler_Sampled :
    mapgeo.Grid_V3 -> ElevationField -> GridPoint -> GridPoint -> Z -> list Z;
  findLazyThetaStarPath_Tobler_Sampled :
    mapgeo.Grid_V3 -> ElevationField -> GridPoint -> GridPoint -> Z -> list Z
}.

(** *** Exceptions

    Every exception raised inside the [try] block derives from
    [std::exception]; [what] is the text of [e.what()]. *)
Inductive outcome (A : Type) :=
| Normal (a : A)
| Raised (what : string).
Arguments Normal {A} a.
Arguments Raised {A} what.

Definition obind {A B : Type} (m : outcome A) (k : A -> outcome B) : outcome B :=
  match m with
  | Normal a => k a
  | Raised w => Raised w
  end.

#[global] Instance outcome_ret : MRet outcome := fun A a => Normal a.
#[global] Instance outcome_bind : MBind outcome := fun A B k m => obind m k.

(** [std::optional::value()] *)
Definition value {A : Type} (o : option A) : outcome A :=
  match o with
  | Some a => Normal a
  | None => Raised "bad optional access"
  end.

(** *** The pathfinding loop (step 4) *)

(** Messages the loop sends to [qDebug], [qWarning] and [qCritical]. *)
Inductive LogEvent :=
| LogCalculatingSegment (segment : nat) (a b : GridPoint)
| LogOutOfBounds (segment : nat)
| LogIdenticalPoints
| LogSegmentTook (segment : nat)
| LogPathNotFound (segment : nat)
| LogStartMismatch (segment : nat).

Record LoopState := mkLoop {
  full_path_indices : list Z;
  path_found_for_all_segments : bool;
  errorMsg : ErrorMessage;
  log : list LogEvent
}.

Definition LoopState_init : LoopState :=
  {| full_path_indices := []; path_found_for_all_segments := true;
     errorMsg := MsgEmpty; log := [] |}.

Definition add_log (ev : LogEvent) (st : LoopState) : LoopState :=
  {| full_path_indices := full_path_indices st;
     path_found_for_all_segments := path_found_for_all_segments st;
     errorMsg := errorMsg st;
     log := log st ++ [ev] |}.

Definition set_path (p : list Z) (st : LoopState) : LoopState :=
  {| full_path_indices := p;
     path_found_for_all_segments := path_found_for_all_segments st;
     errorMsg := errorMsg st;
     log := log st |}.

(** [errorMsg = ...; path_found_for_all_segments = false; break;] *)
Definition fail_with (msg : ErrorMessage) (st : LoopState) : LoopState :=
  {| full_path_indices := full_path_indices st;
     path_found_for_all_segments := false;
     errorMsg := msg;
     log := log st |}.

(** [std::vector::empty()] *)
Definition is_empty {A : Type} (v : list A) : bool :=
  match v with [] => true | _ :: _ => false end.

(** [full_path_indices.back()] on a non-empty vector. *)
Definition back (v : list Z) : Z := List.last v 0.

(** "Concatenate paths": joins the segment just found onto the running
    result; returns the new running result and the warning, if any. *)
Definition concatenate (segment_no : nat) (full segment : list Z)
  : list Z * list LogEvent :=
  match full with
  | [] => (segment, [])
  | _ :: _ =>
    match segment with
    | [] => (full, [])
    | front :: rest =>
      if (1 <? length segment)%nat && (back full =? front) then
        (full ++ rest, [])
      else if (length segment =? 1)%nat && (back full =? front) then
        (full, [])
      else
        (full ++ segment,
         if (1 <? length segment)%nat && negb (back full =? front)
         then [LogStartMismatch segment_no] else [])
    end
  end.

Section Loop.

Context (B : Backend) (params : BackendInputParams)
  (grid : mapgeo.Grid_V3) (field : ElevationField).

(** "Call Selected Pathfinding Function".  The build always defines
  [USE_CUDA] (to [0] or [1]) and the GPU calls are commented out, so the
  five CPU names are the only ones served and any other name throws with
  the messages of the [#ifdef USE_CUDA] arm. *)
Definition call_selected_pathfinder (a b : GridPoint) : outcome (list Z) :=
  let isGpuAlgorithm :=
    if decide (String.index 0 "GPU" (algorithmName params) = None) then false else true in
  if String.eqb (algorithmName params) "Optimized A*" then
    Normal (findAStarPath_Tobler_Sampled B grid field a b (heuristicType params))
  else if String.eqb (algorithmName params) "Dijkstra" then
    Normal (findDijkstraPath_Tobler_Sampled B grid field a b)
  else if String.eqb (algorithmName params) "BFS" then
    Normal (findBFSPath_Tobler_Sampled B grid field a b)
  else if String.eqb (algorithmName params) "Theta*" then
    Normal (findThetaStarPath_Tobler_Sampled B grid field a b (heuristicType params))
  else if String.eqb (algorithmName params) "Lazy Theta*" then
    Normal (findLazyThetaStarPath_Tobler_Sampled B grid field a b (heuristicType params))
  else if isGpuAlgorithm then
    Raised ("Selected GPU algorithm '" +:+ algorithmName params +:+
            "' is not implemented.")
  else
    Raised ("Unsupported CPU algorithm selected: " +:+ algorithmName params).

(** How one iteration of the loop body ends: at its closing brace or a
      [continue], at a [break], or by a [throw]. *)
Inductive Iteration :=
  | Continue (st : LoopState)
  | Break (st : LoopState)
  | Throws (what : string).

(** The body of the loop for segment [i], from [waypoints[i]] to
    [waypoints[i + 1]]. *)
Definition segment_body (i : nat) (segment_start_point segment_end_point : GridPoint)
           (st : LoopState) : Iteration :=
  let st := add_log (LogCalculatingSegment (i + 1) segment_start_point segment_end_point) st in
  if negb (mapgeo.inBounds grid (gp_x segment_start_point) (gp_y segment_start_point))
     || negb (mapgeo.inBounds grid (gp_x segment_end_point) (gp_y segment_end_point))
  then
    Break (add_log (LogOutOfBounds (i + 1))
             (fail_with (MsgSegmentOutOfBounds (i + 1) segment_start_point
                           segment_end_point (mapgeo.width grid) (mapgeo.height grid))
                        st))
  else if GridPoint_eqb segment_start_point segment_end_point then
    let st := add_log LogIdenticalPoints st in
    let pointIndex :=
      PathfindingUtils.toIndex (gp_x segment_start_point) (gp_y segment_start_point)
                               (mapgeo.width grid) in
    Continue
      (if is_empty (full_path_indices st)
          || negb (back (full_path_indices st) =? pointIndex)
       then set_path (full_path_indices st ++ [pointIndex]) st
       else st)
  else
    match call_selected_pathfinder segment_start_point segment_end_point with
    | Raised what => Throws what
    | Normal segment_path_indices =>
      let st := add_log (LogSegmentTook (i + 1)) st in
      if is_empty segment_path_indices then
        Break (add_log (LogPathNotFound (i + 1))
                 (fail_with (MsgPathNotFound (i + 1) segment_start_point segment_end_point)
                            st))
      else
        let '(joined, warnings) :=
          concatenate (i + 1) (full_path_indices st) segment_path_indices in
        Continue (fold_left (fun s ev => add_log ev s) warnings (set_path joined st))
    end.

(** [for (size_t i = 0; i < waypoints.size() - 1; ++i)]: one iteration per
    pair of consecutive waypoints, [i] being the loop counter. *)
Fixpoint segment_loop (i : nat) (waypoints : list GridPoint) (st : LoopState)
  : outcome LoopState :=
  match waypoints with
  | segment_start_point :: rest =>
    match rest with
    | segment_end_point :: _ =>
      match segment_body i segment_start_point segment_end_point st with
      | Continue st' => segment_loop (S i) rest st'
      | Break st' => Normal st'
      | Throws what => Raised what
      end
    | [] => Normal st
    end
  | [] => Normal st
  end.

End Loop.

(** *** Assignments to the fields of [result] *)

Definition set_success (v : bool) (r : BackendResult) : BackendResult :=
  {| success := v; errorMessage := errorMessage r;
     usedMapFilePath := usedMapFilePath r;
     currentControlsFilePath := currentControlsFilePath r;
     usedGridWidth := usedGridWidth r; usedGridHeight := usedGridHeight r;
     processedGrid := processedGrid r; normalizationInfo := normalizationInfo r;
     elevationDataUsed := elevationDataUsed r;
     usedDummyElevation := usedDummyElevation r;
     finalLogicalResolutionMeters := finalLogicalResolutionMeters r;
     finalOriginOffsetX := finalOriginOffsetX r;
     finalOriginOffsetY := finalOriginOffsetY r;
     fullPathIndices := fullPathIndices r; waypointsFound := waypointsFound r |}.

Definition set_errorMessage (v : ErrorMessage) (r : BackendResult) : BackendResult :=
  {| success := success r; errorMessage := v; usedMapFilePath := usedMapFilePath r;
     currentControlsFilePath := currentControlsFilePath r;
     usedGridWidth := usedGridWidth r; usedGridHeight := usedGridHeight r;
     processedGrid := processedGrid r; normalizationInfo := normalizationInfo r;
     elevationDataUsed := elevationDataUsed r;
     usedDummyElevation := usedDummyElevation r;
     finalLogicalResolutionMeters := finalLogicalResolutionMeters r;
     finalOriginOffsetX := finalOriginOffsetX r;
     finalOriginOffsetY := finalOriginOffsetY r;
     fullPathIndices := fullPathIndices r; waypointsFound := waypointsFound r |}.

Definition set_processedGrid (v : option mapgeo.Grid_V3) (r : BackendResult) : BackendResult :=
  {| success := success r; errorMessage := errorMessage r;
     usedMapFilePath := usedMapFilePath r;
     currentControlsFilePath := currentControlsFilePath r;
     usedGridWidth := usedGridWidth r; usedGridHeight := usedGridHeight r;
     processedGrid := v; normalizationInfo := normalizationInfo r;
     elevationDataUsed := elevationDataUsed r;
     usedDummyElevation := usedDummyElevation r;
     finalLogicalResolutionMeters := finalLogicalResolutionMeters r;
     finalOriginOffsetX := finalOriginOffsetX r;
     finalOriginOffsetY := finalOriginOffsetY r;
     fullPathIndices := fullPathIndices r; waypointsFound := waypointsFound r |}.

Definition set_normalizationInfo (v : option mapgeo.NormalizationResult) (r : BackendResult) : BackendResult :=
  {| success := success r; errorMessage := errorMessage r;
     usedMapFilePath := usedMapFilePath r;
     currentControlsFilePath := currentControlsFilePath r;
     usedGridWidth := usedGridWidth r; usedGridHeight := usedGridHeight r;
     processedGrid := processedGrid r; normalizationInfo := v;
     elevationDataUsed := elevationDataUsed r;
     usedDummyElevation := usedDummyElevation r;
     finalLogicalResolutionMeters := finalLogicalResolutionMeters r;
     finalOriginOffsetX := finalOriginOffsetX r;
     finalOriginOffsetY := finalOriginOffsetY r;
     fullPathIndices := fullPathIndices r; waypointsFound := waypointsFound r |}.

Definition set_elevationDataUsed (v : option ElevationFetcher.ElevationData) (r : BackendResult) : BackendResult :=
  {| success := success r; errorMessage := errorMessage r;
     usedMapFilePath := usedMapFilePath r;
     currentControlsFilePath := currentControlsFilePath r;
     usedGridWidth := usedGridWidth r; usedGridHeight := usedGridHeight r;
     processedGrid := processedGrid r; normalizationInfo := normalizationInfo r;
     elevationDataUsed := v; usedDummyElevation := usedDummyElevation r;
     finalLogicalResolutionMeters := finalLogicalResolutionMeters r;
     finalOriginOffsetX := finalOriginOffsetX r;
     finalOriginOffsetY := finalOriginOffsetY r;
     fullPathIndices := fullPathIndices r; waypointsFound := waypointsFound r |}.

Definition set_usedDummyElevation (v : bool) (r : BackendResult) : BackendResult :=
  {| success := success r; errorMessage := errorMessage r;
     usedMapFilePath := usedMapFilePath r;
     currentControlsFilePath := currentControlsFilePath r;
     usedGridWidth := usedGridWidth r; usedGridHeight := usedGridHeight r;
     processedGrid := processedGrid r; normalizationInfo := normalizationInfo r;
     elevationDataUsed := elevationDataUsed r; usedDummyElevation := v;
     finalLogicalResolutionMeters := finalLogicalResolutionMeters r;
     finalOriginOffsetX := finalOriginOffsetX r;
     finalOriginOffsetY := finalOriginOffsetY r;
     fullPathIndices := fullPathIndices r; waypointsFound := waypointsFound r |}.

Definition set_finalLogicalResolutionMeters (v : spec_float) (r : BackendResult) : BackendResult :=
  {| success := success r; errorMessage := errorMessage r;
     usedMapFilePath := usedMapFilePath r;
     currentControlsFilePath := currentControlsFilePath r;
     usedGridWidth := usedGridWidth r; usedGridHeight := usedGridHeight r;
     processedGrid := processedGrid r; normalizationInfo := normalizationInfo r;
     elevationDataUsed := elevationDataUsed r;
     usedDummyElevation := usedDummyElevation r; finalLogicalResolutionMeters := v;
     finalOriginOffsetX := finalOriginOffsetX r;
     finalOriginOffsetY := finalOriginOffsetY r;
     fullPathIndices := fullPathIndices r; waypointsFound := waypointsFound r |}.

Definition set_finalOriginOffsetX (v : spec_float) (r : BackendResult) : BackendResult :=
  {| success := success r; errorMessage := errorMessage r;
     usedMapFilePath := usedMapFilePath r;
     currentControlsFilePath := currentControlsFilePath r;
     usedGridWidth := usedGridWidth r; usedGridHeight := usedGridHeight r;
     processedGrid := processedGrid r; normalizationInfo := normalizationInfo r;
     elevationDataUsed := elevationDataUsed r;
     usedDummyElevation := usedDummyElevation r;
     finalLogicalResolutionMeters := finalLogicalResolutionMeters r;
     finalOriginOffsetX := v; finalOriginOffsetY := finalOriginOffsetY r;
     fullPathIndices := fullPathIndices r; waypointsFound := waypointsFound r |}.

Definition set_finalOriginOffsetY (v : spec_float) (r : BackendResult) : BackendResult :=
  {| success := success r; errorMessage := errorMessage r;
     usedMapFilePath := usedMapFilePath r;
     currentControlsFilePath := currentControlsFilePath r;
     usedGridWidth := usedGridWidth r; usedGridHeight := usedGridHeight r;
     processedGrid := processedGrid r; normalizationInfo := normalizationInfo r;
     elevationDataUsed := elevationDataUsed r;
     usedDummyElevation := usedDummyElevation r;
     finalLogicalResolutionMeters := finalLogicalResolutionMeters r;
     finalOriginOffsetX := finalOriginOffsetX r; finalOriginOffsetY := v;
     fullPathIndices := fullPathIndices r; waypointsFound := waypointsFound r |}.

Definition set_fullPathIndices (v : list Z) (r : BackendResult) : BackendResult :=
  {| success := success r; errorMessage := errorMessage r;
     usedMapFilePath := usedMapFilePath r;
     currentControlsFilePath := currentControlsFilePath r;
     usedGridWidth := usedGridWidth r; usedGridHeight := usedGridHeight r;
     processedGrid := processedGrid r; normalizationInfo := normalizationInfo r;
     elevationDataUsed := elevationDataUsed r;
     usedDummyElevation := usedDummyElevation r;
     finalLogicalResolutionMeters := finalLogicalResolutionMeters r;
     finalOriginOffsetX := finalOriginOffsetX r;
     finalOriginOffsetY := finalOriginOffsetY r; fullPathIndices := v;
     waypointsFound := waypointsFound r |}.

Definition set_waypointsFound (v : nat) (r : BackendResult) : BackendResult :=
  {| success := success r; errorMessage := errorMessage r;
     usedMapFilePath := usedMapFilePath r;
     currentControlsFilePath := currentControlsFilePath r;
     usedGridWidth := usedGridWidth r; usedGridHeight := usedGridHeight r;
     processedGrid := processedGrid r; normalizationInfo := normalizationInfo r;
     elevationDataUsed := elevationDataUsed r;
     usedDummyElevation := usedDummyElevation r;
     finalLogicalResolutionMeters := finalLogicalResolutionMeters r;
     finalOriginOffsetX := finalOriginOffsetX r;
     finalOriginOffsetY := finalOriginOffsetY r;
     fullPathIndices := fullPathIndices r; waypointsFound := v |}.

(** *** The [try] block: assignments to [result] interleaved with code that
    may throw.  A computation takes the current [result] and returns the
    updated one together with its value or the exception that left it. *)

Definition M (A : Type) : Type := BackendResult -> BackendResult * outcome A.

#[global] Instance M_ret : MRet M := fun A a r => (r, Normal a).
#[global] Instance M_bind : MBind M := fun A B k m r =>
  match m r with
  | (r', Normal a) => k a r'
  | (r', Raised w) => (r', Raised w)
  end.

Definition throw {A : Type} (what : string) : M A := fun r => (r, Raised what).
Definition lift {A : Type} (o : outcome A) : M A := fun r => (r, o).
Definition assign (f : BackendResult -> BackendResult) : M unit :=
  fun r => (f r, Normal tt).

(** [std::optional::has_value()] *)
Definition has_value {A : Type} (o : option A) : bool :=
  match o with Some _ => true | None => false end.

(** What steps 1 to 3 hand to the pathfinding loop. *)
Record Prepared := mkPrepared {
  prep_grid : mapgeo.Grid_V3;
  prep_waypoints : list GridPoint;
  prep_field : ElevationField
}.

(** Largest element count [std::vector<float>::assign] accepts before it
    throws [std::length_error] (libstdc++: [PTRDIFF_MAX / sizeof(float)],
    with the text "cannot create std::vector larger than max_size()");
    allocation below it is taken to succeed. *)
Definition vector_float_max_size : Z := 2 ^ 61 - 1.

(** [static_cast<size_t>(w) * h] on a 64-bit target. *)
Definition size_t_mul (w h : Z) : Z := ((w mod 2 ^ 64) * (h mod 2 ^ 64)) mod 2 ^ 64.

Section ProcessAndFindPath.

Context (B : Backend) (params : BackendInputParams).

(** Step 1, first half: scan for georeferencing.  Returns the scan result,
    [canFetchElevation] and [mapScaleFromXml]. *)
Definition scan_map : M (mapscan.ScanResult * bool * spec_float) :=
  let layers_for_scan := ["barrier"; "course"] in
  let scanResult := scanXmlForGeoRefAndBounds B (mapFilePath params) layers_for_scan in
  let bounds_ok :=
    match mapscan.rawBoundsUM scanResult with
    | Some b => mapscan.initialized b
    | None => false
    end in
  if mapscan.georeferencingFound scanResult
     && has_value (mapscan.refLatLon scanResult)
     && bounds_ok
     && has_value (mapscan.mapScale scanResult)
  then
    mapScaleFromXml ← lift (value (mapscan.mapScale scanResult));
    mret (scanResult, true, mapScaleFromXml)
  else if negb bounds_ok then
    throw "Could not determine coordinate bounds from map file."
  else
    mret (scanResult, false, F64.of_int 10000).

(** Step 1, second half, the [else] branch: load the map and rasterise. *)
Definition regenerate_grid
  : M (option mapgeo.Grid_V3 * option mapgeo.NormalizationResult) :=
  let procConfig :=
    {| mapgeo.grid_width := desiredGridWidth params;
       mapgeo.grid_height := desiredGridHeight params;
       mapgeo.layers_to_process := ["barrier"; "course"] |} in
  let processor0 := MapProcessor_new B procConfig in
  let '(loaded, processor1) := loadMap B processor0 (mapFilePath params) in
  if negb loaded then throw ("Map load failed: " +:+ mapFilePath params)
  else
    let '(logical_grid_opt, processor2) :=
      generateGrid B processor1 (obstacleCosts params) in
    if negb (has_value logical_grid_opt) then throw "Grid generation failed"
    else
      let normInfo_opt := getNormalizationResult B processor2 in
      match normInfo_opt with
      | Some n =>
        if mapgeo.valid n then mret (logical_grid_opt, normInfo_opt)
        else throw "Normalization results invalid after grid generation."
      | None => throw "Normalization results invalid after grid generation."
      end.

(** Step 1, second half: "Process Grid (reuse or generate)". *)
Definition process_grid
  : M (option mapgeo.Grid_V3 * option mapgeo.NormalizationResult) :=
  if reuseGridIfPossible params
     && has_value (existingGrid params)
     && has_value (existingNormInfo params)
  then
    mret (existingGrid params, existingNormInfo params)
  else
    regenerate_grid.

(** Step 3: elevation fetching and parameter calculation. *)
Definition prepare_elevation (scan : mapscan.ScanResult * bool * spec_float)
           (finalNormInfo : mapgeo.NormalizationResult)
           (real_world_max_x : spec_float) : M ElevationField :=
  let '(scanResult, canFetchElevation, mapScaleFromXml) := scan in
  let useRealElevation := true in
  let elevationResult := ElevationData_default B in
  fetched ←
    (if canFetchElevation then
       rawBounds ← lift (value (mapscan.rawBoundsUM scanResult));
       anchorLatLon ← lift (value (mapscan.refLatLon scanResult));
       let anchorInternalX := S754_zero false in
       let anchorInternalY := S754_zero false in
       let elevationResult :=
         fetchElevationDataEmbedded B
           (pyModuleName params) (pyFetchFuncName params)
           (mapscan.y anchorLatLon) (mapscan.x anchorLatLon)
           anchorInternalX anchorInternalY
           (mapscan.min_x rawBounds) (mapscan.min_y rawBounds)
           (mapscan.max_x rawBounds) (mapscan.max_y rawBounds)
           mapScaleFromXml (desiredElevationResolution params) in
       if ElevationFetcher.success elevationResult && hasData B elevationResult
       then mret (elevationResult, true)
       else mret (elevationResult, useRealElevation)
     else mret (elevationResult, useRealElevation));
  let '(elevationResult, useRealElevation) :=
    (fetched : ElevationFetcher.ElevationData * bool) in
  _ ← assign (set_elevationDataUsed (Some elevationResult));
  let logical_origin_internal_x_um := mapgeo.min_x finalNormInfo in
  let logical_origin_internal_y_um := mapgeo.min_y finalNormInfo in
  let logical_res_internal_units_um :=
    F64.div (F64.sub real_world_max_x (mapgeo.min_x finalNormInfo))
            (F64.of_int (desiredGridWidth params)) in
  let meters_per_internal_unit := F64.div mapScaleFromXml (F64.of_int 1000000) in
  let log_cell_resolution_meters :=
    F64.to_float (F64.mul logical_res_internal_units_um meters_per_internal_unit) in
  let log_cell_resolution_meters :=
    if F32.leb log_cell_resolution_meters (F32.of_ratio 1 1000000)
    then F32.of_int 1 else log_cell_resolution_meters in
  real ←
    (if useRealElevation then
       anchorLatLon ← lift (value (mapscan.refLatLon scanResult));
       let anchorProj :=
         convertLatLonToProjectedViaPython B
           (pyModuleName params) (pyConvertFuncName params)
           (mapscan.x anchorLatLon) (mapscan.y anchorLatLon) in
       let elevation_origin_final_x := ElevationFetcher.origin_proj_x elevationResult in
       let elevation_origin_final_y := ElevationFetcher.origin_proj_y elevationResult in
       if ElevationFetcher.proj_success anchorProj then
         let origin_offset_x_m :=
           F64.mul (F64.sub logical_origin_internal_x_um (S754_zero false))
                   meters_per_internal_unit in
         let origin_offset_y_m :=
           F64.mul (F64.mul (F64.sub logical_origin_internal_y_um (S754_zero false))
                            meters_per_internal_unit)
                   (F64.of_int (-1)) in
         let logicalOriginProjX := F64.add (ElevationFetcher.proj_x anchorProj) origin_offset_x_m in
         let logicalOriginProjY := F64.add (ElevationFetcher.proj_y anchorProj) origin_offset_y_m in
         mret (true,
               F64.to_float (F64.sub elevation_origin_final_x logicalOriginProjX),
               F64.to_float (F64.sub elevation_origin_final_y logicalOriginProjY))
       else
         mret (false, S754_zero false, S754_zero false)
     else mret (false, S754_zero false, S754_zero false));
  let '(useRealElevation, offset_x, offset_y) :=
    (real : bool * spec_float * spec_float) in
  _ ← assign (set_usedDummyElevation (negb useRealElevation));
  field ←
    (if negb useRealElevation then
       let count := size_t_mul (desiredGridWidth params) (desiredGridHeight params) in
       if vector_float_max_size <? count then throw "cannot create std::vector larger than max_size()"
       else
         let elevation_resolution_final_dbl :=
           if F64.ltb (F64.of_ratio 1 1000000) (F64.of_float log_cell_resolution_meters)
           then F64.of_float log_cell_resolution_meters else F64.of_int 1 in
         mret {| elevation_values := replicate (Z.to_nat count) (F32.of_int 100);
                 elevation_width := desiredGridWidth params;
                 elevation_height := desiredGridHeight params;
                 log_cell_resolution := log_cell_resolution_meters;
                 elev_cell_resolution := F64.to_float elevation_resolution_final_dbl;
                 origin_offset_x := S754_zero false;
                 origin_offset_y := S754_zero false |}
     else
       mret {| elevation_values := ElevationFetcher.values elevationResult;
               elevation_width := ElevationFetcher.width elevationResult;
               elevation_height := ElevationFetcher.height elevationResult;
               log_cell_resolution := log_cell_resolution_meters;
               elev_cell_resolution :=
                 F64.to_float (ElevationFetcher.resolution_meters elevationResult);
               origin_offset_x := offset_x;
               origin_offset_y := offset_y |});
  _ ← assign (set_finalLogicalResolutionMeters (log_cell_resolution field));
  _ ← assign (set_finalOriginOffsetX (origin_offset_x field));
  _ ← assign (set_finalOriginOffsetY (origin_offset_y field));
  mret field.

(** Steps 1 to 3. *)
Definition prepare : M Prepared :=
  scan ← scan_map;
  grids ← process_grid;
  let '(logical_grid_opt, normInfo_opt) := grids in
  _ ← (if negb (has_value logical_grid_opt) || negb (has_value normInfo_opt)
       then throw "Logical grid or normalization info is missing after processing step."
       else mret tt);
  _ ← assign (set_processedGrid logical_grid_opt);
  _ ← assign (set_normalizationInfo normInfo_opt);
  finalNormInfo ← lift (value normInfo_opt);
  let real_world_max_x :=
    F64.add (mapgeo.min_x finalNormInfo)
            (F64.mul (F64.of_int (desiredGridWidth params)) (mapgeo.resolution_x finalNormInfo)) in
  let real_world_max_y :=
    F64.add (mapgeo.min_y finalNormInfo)
            (F64.mul (F64.of_int (desiredGridHeight params)) (mapgeo.resolution_y finalNormInfo)) in
  let waypointsOpt :=
    extractWaypointsFromFile B (controlsFilePath params)
      (mapgeo.min_x finalNormInfo) real_world_max_x
      (mapgeo.min_y finalNormInfo) real_world_max_y
      (desiredGridWidth params) (desiredGridHeight params) in
  waypoints ←
    match waypointsOpt with
    | Some w =>
      if (length w <? 2)%nat
      then throw ("Failed to extract valid Start/Control/End sequence from controls file: "
                  +:+ controlsFilePath params)
      else mret w
    | None =>
      throw ("Failed to extract valid Start/Control/End sequence from controls file: "
             +:+ controlsFilePath params)
    end;
  _ ← assign (set_waypointsFound (length waypoints));
  field ← prepare_elevation scan finalNormInfo real_world_max_x;
  grid ← lift (value logical_grid_opt);
  mret {| prep_grid := grid; prep_waypoints := waypoints; prep_field := field |}.

(** Step 5: "Finalize Result". *)
Definition finalize (waypoints : list GridPoint) (st : LoopState) : M unit :=
  if path_found_for_all_segments st then
    if is_empty (full_path_indices st) && (1 <? length waypoints)%nat then
      _ ← assign (set_success true);
      assign (set_errorMessage MsgIdenticalPointsOnly)
    else if is_empty (full_path_indices st) && (length waypoints <=? 1)%nat then
      _ ← assign (set_success true);
      assign (set_errorMessage MsgNotEnoughWaypoints)
    else
      _ ← assign (set_success true);
      assign (set_fullPathIndices (full_path_indices st))
  else
    _ ← assign (set_success false);
    _ ← assign (set_errorMessage (errorMsg st));
    assign (set_fullPathIndices []).

Definition try_block : M unit :=
  prep ← prepare;
  st ← lift (segment_loop B params (prep_grid prep) (prep_field prep) 0
               (prep_waypoints prep) LoopState_init);
  finalize (prep_waypoints prep) st.

(** The declaration of [result] and the assignments before the [try]. *)
Definition initial_result : BackendResult :=
  {| success := false; errorMessage := MsgEmpty;
     usedMapFilePath := mapFilePath params;
     currentControlsFilePath := controlsFilePath params;
     usedGridWidth := desiredGridWidth params;
     usedGridHeight := desiredGridHeight params;
     processedGrid := None; normalizationInfo := None;
     elevationDataUsed := None; usedDummyElevation := true;
     finalLogicalResolutionMeters := F32.of_int 1;
     finalOriginOffsetX := S754_zero false;
     finalOriginOffsetY := S754_zero false;
     fullPathIndices := []; waypointsFound := 0%nat |}.

(** [catch (const std::exception& e)] *)
Definition catch_exception (what : string) (result : BackendResult) : BackendResult :=
  set_errorMessage (MsgBackendError what) (set_success false result).

(** [BackendResult PathfindingLogic::processAndFindPath(const BackendInputParams&)] *)
Definition processAndFindPath : BackendResult :=
  match try_block initial_result with
  | (result, Normal _) => result
  | (result, Raised what) => catch_exception what result
  end.

End ProcessAndFindPath.

(* ===================================================================== *)
(** ** [main_window.cpp] *)
(* ===================================================================== *)

(** [std::string] members used by [parseObstacleCosts]; a string is its
    list of characters and [std::string::npos] is [None]. *)
Module cxx.

Definition isin (c : ascii) (chars : list ascii) : bool :=
  bool_decide (c ∈ chars).

Fixpoint find_first_not_of (chars s : list ascii) : option nat :=
  match s with
  | [] => None
  | c :: s' =>
    if isin c chars then S <$> find_first_not_of chars s' else Some 0%nat
  end.

Definition find_last_not_of (chars s : list ascii) : option nat :=
  (fun k => (length s - 1 - k)%nat) <$> find_first_not_of chars (rev s).

Fixpoint find (c : ascii) (s : list ascii) : option nat :=
  match s with
  | [] => None
  | d :: s' => if Ascii.eqb d c then Some 0%nat else S <$> find c s'
  end.

(** [s.erase(0, count)] with [count] possibly [npos]. *)
Definition erase_front (count : option nat) (s : list ascii) : list ascii :=
  match count with
  | Some n => drop n s
  | None => []
  end.

(** [s.erase(pos + 1)] where [pos] is a search result: [npos + 1] wraps
    to [0]. *)
Definition erase_after (pos : option nat) (s : list ascii) : list ascii :=
  match pos with
  | Some k => take (S k) s
  | None => []
  end.

(** [std::getline] repeated until it fails: the lines of [s], without
    their terminating newline; a final newline opens no further line. *)
Fixpoint getlines_from (cur s : list ascii) : list (list ascii) :=
  match s with
  | [] => match cur with [] => [] | _ :: _ => [cur] end
  | c :: s' =>
    if Ascii.eqb c "010"%char then cur :: getlines_from [] s'
    else getlines_from (cur ++ [c]) s'
  end.

Definition getlines (s : list ascii) : list (list ascii) := getlines_from [] s.

End cxx.

Definition SPACE : ascii := " "%char.
Definition TAB : ascii := "009"%char.
Definition LF : ascii := "010"%char.
Definition CR : ascii := "013"%char.
Definition HASH : ascii := "#"%char.
Definition COLON : ascii := ":"%char.

(** The character sets [" \t\n\r"] and [" \t"] of the two trimming steps. *)
Definition line_blanks : list ascii := [SPACE; TAB; LF; CR].
Definition field_blanks : list ascii := [SPACE; TAB].

Definition trim (chars s : list ascii) : list ascii :=
  let s := cxx.erase_front (cxx.find_first_not_of chars s) s in
  cxx.erase_after (cxx.find_last_not_of chars s) s.

Inductive ParseError :=
| MissingColon
| EmptyCode
| InvalidFloat.

(** What one iteration of the [while (std::getline(ss, line))] loop does
    with its line: [continue], store an entry, or [return false]. *)
Inductive ParsedLine :=
| Skipped
| Entry (code : string) (value : spec_float)
| Rejected (why : ParseError).

Section ParseObstacleCosts.

(** [std::stof]: the parsed value, or [None] when it throws
    [std::invalid_argument] or [std::out_of_range]. *)
Context (stof : list ascii -> option spec_float).

Definition parse_line (line : list ascii) : ParsedLine :=
  let line := trim line_blanks line in
  match line with
  | [] => Skipped
  | c0 :: _ =>
    if Ascii.eqb c0 HASH then Skipped
    else
      match cxx.find COLON line with
      | None => Rejected MissingColon
      | Some colonPos =>
        let codeStr := take colonPos line in
        let valueStr := drop (colonPos + 1) line in
        let codeStr := trim field_blanks codeStr in
        let valueStr := trim field_blanks valueStr in
        match codeStr with
        | [] => Rejected EmptyCode
        | _ :: _ =>
          match stof valueStr with
          | Some value => Entry (string_of_list_ascii codeStr) value
          | None => Rejected InvalidFloat
          end
        end
      end
  end.

(** The loop over the lines; the map holds the entries stored so far. *)
Fixpoint parse_lines (lines : list (list ascii)) (configMap : ObstacleConfigMap)
  : bool * ObstacleConfigMap :=
  match lines with
  | [] => (true, configMap)
  | line :: rest =>
    match parse_line line with
    | Skipped => parse_lines rest configMap
    | Entry codeStr value => parse_lines rest (<[codeStr := value]> configMap)
    | Rejected _ => (false, configMap)
    end
  end.

(** [parseObstacleCosts] on the text of the obstacle-costs editor
    ([None]: the widget pointer is null).  Returns the [bool] result and
    the final content of the [configMap] reference parameter. *)
Definition parseObstacleCosts (obstacleCostsTextEdit : option string)
  : bool * ObstacleConfigMap :=
  match obstacleCostsTextEdit with
  | None => (false, ∅)
  | Some text => parse_lines (cxx.getlines (list_ascii_of_string text)) ∅
  end.

End ParseObstacleCosts.

(** The widgets [onCalculatePathClicked] reads. *)
Record Widgets := mkWidgets {
  mapLineEdit : string;
  controlsLineEdit : string;
  gridWidthSpinBox : Z;
  gridHeightSpinBox : Z;
  numThreadsSpinBox : Z;
  desiredElevResSpinBox : spec_float;
  algorithmComboBox : string;
  obstacleCostsTextEdit : option string;
  heuristicComboBox_isEnabled : bool;
  heuristicComboBox : Z;
  gpuParamsGroup_isVisible : bool;
  gpuDeltaSpinBox : spec_float;
  gpuThresholdSpinBox : spec_float;
  hadsRadiusSpinBox : Z;
  hadsPruneSpinBox : spec_float;
  hadsWeightSpinBox : spec_float
}.

(** [MainWindow::Impl]: the widgets and the "Stored Backend Data". *)
Record Impl := mkImpl {
  widgets : Widgets;
  isCalculating : bool;
  currentMapFilePath : string;
  impl_currentControlsFilePath : string;
  lastGridWidth : Z;
  lastGridHeight : Z;
  lastProcessedGrid : option mapgeo.Grid_V3;
  lastNormalizationInfo : option mapgeo.NormalizationResult;
  lastElevationDataUsed : option ElevationFetcher.ElevationData;
  lastLogicalResolutionMeters : spec_float;
  lastOriginOffsetX : spec_float;
  lastOriginOffsetY : spec_float;
  lastCalculatedPathIndices : list Z;
  lastUsedObstacleCosts : ObstacleConfigMap
}.

(** A freshly constructed window. *)
Definition Impl_new (w : Widgets) : Impl :=
  {| widgets := w; isCalculating := false;
     currentMapFilePath := ""; impl_currentControlsFilePath := "";
     lastGridWidth := 0; lastGridHeight := 0;
     lastProcessedGrid := None; lastNormalizationInfo := None;
     lastElevationDataUsed := None;
     lastLogicalResolutionMeters := F32.of_int 1;
     lastOriginOffsetX := S754_zero false; lastOriginOffsetY := S754_zero false;
     lastCalculatedPathIndices := []; lastUsedObstacleCosts := ∅ |}.

Section MainWindow.

Context (stof : list ascii -> option spec_float).
(** [QFileInfo::exists() && QFileInfo::isFile()] *)
Context (isFile : string -> bool).

(** Step 3 of [onCalculatePathClicked], "Check for Grid Reuse": the three
    fields of [params] it assigns. *)
Definition check_grid_reuse (m_impl : Impl) (mapFilePath : string)
           (desiredGridWidth desiredGridHeight : Z)
  : bool * option mapgeo.Grid_V3 * option mapgeo.NormalizationResult :=
  if has_value (lastProcessedGrid m_impl)
     && String.eqb (currentMapFilePath m_impl) mapFilePath
     && (lastGridWidth m_impl =? desiredGridWidth)
     && (lastGridHeight m_impl =? desiredGridHeight)
  then (true, lastProcessedGrid m_impl, lastNormalizationInfo m_impl)
  else (false, None, None).

(** [onCalculatePathClicked]: the parameters handed to
    [runBackendProcessingAsync], or [None] when the slot returns early. *)
Definition onCalculatePathClicked (m_impl : Impl) : option BackendInputParams :=
  if isCalculating m_impl then None
  else
    let w := widgets m_impl in
    let '(parsed, costs) := parseObstacleCosts stof (obstacleCostsTextEdit w) in
    if negb parsed then None
    else
      let heuristic :=
        if heuristicComboBox_isEnabled w then heuristicComboBox w else -1 in
      let gpu := gpuParamsGroup_isVisible w in
      if String.eqb (mapLineEdit w) "" || String.eqb (controlsLineEdit w) "" then None
      else if negb (isFile (mapLineEdit w)) then None
      else if negb (isFile (controlsLineEdit w)) then None
      else
        let '(reuse, grid, norm) :=
          check_grid_reuse m_impl (mapLineEdit w)
                           (gridWidthSpinBox w) (gridHeightSpinBox w) in
        Some {| mapFilePath := mapLineEdit w;
                controlsFilePath := controlsLineEdit w;
                desiredGridWidth := gridWidthSpinBox w;
                desiredGridHeight := gridHeightSpinBox w;
                obstacleCosts := costs;
                numThreads := numThreadsSpinBox w mod 2 ^ 32;
                desiredElevationResolution := desiredElevResSpinBox w;
                pyModuleName := "elevation_logic";
                pyFetchFuncName := "get_elevation_grid";
                pyConvertFuncName := "convert_latlon_to_projected";
                algorithmName := algorithmComboBox w;
                heuristicType := heuristic;
                gpuDelta :=
                  if gpu then F64.to_float (gpuDeltaSpinBox w) else F32.of_int 50;
                gpuThreshold :=
                  if gpu then F64.to_float (gpuThresholdSpinBox w) else F32.of_int 50;
                hadsRadius := if gpu then hadsRadiusSpinBox w else 1000;
                hadsPruneFactor :=
                  if gpu then F64.to_float (hadsPruneSpinBox w) else F32.of_ratio 105 100;
                hadsHeuristicWeight :=
                  if gpu then F64.to_float (hadsWeightSpinBox w) else F32.of_ratio 95 100;
                reuseGridIfPossible := reuse;
                existingGrid := grid;
                existingNormInfo := norm |}.

(** [setGuiCalculating] as far as the stored data goes. *)
Definition setGuiCalculating (calculating : bool) (m_impl : Impl) : Impl :=
  {| widgets := widgets m_impl; isCalculating := calculating;
     currentMapFilePath := currentMapFilePath m_impl;
     impl_currentControlsFilePath := impl_currentControlsFilePath m_impl;
     lastGridWidth := lastGridWidth m_impl;
     lastGridHeight := lastGridHeight m_impl;
     lastProcessedGrid := lastProcessedGrid m_impl;
     lastNormalizationInfo := lastNormalizationInfo m_impl;
     lastElevationDataUsed := lastElevationDataUsed m_impl;
     lastLogicalResolutionMeters := lastLogicalResolutionMeters m_impl;
     lastOriginOffsetX := lastOriginOffsetX m_impl;
     lastOriginOffsetY := lastOriginOffsetY m_impl;
     lastCalculatedPathIndices := lastCalculatedPathIndices m_impl;
     lastUsedObstacleCosts := lastUsedObstacleCosts m_impl |}.

(** [onCalculationFinished], "Store results". *)
Definition onCalculationFinished (m_impl : Impl) (result : BackendResult) : Impl :=
  {| widgets := widgets m_impl; isCalculating := false;
     currentMapFilePath := usedMapFilePath result;
     impl_currentControlsFilePath := currentControlsFilePath result;
     lastGridWidth := usedGridWidth result;
     lastGridHeight := usedGridHeight result;
     lastProcessedGrid := processedGrid result;
     lastNormalizationInfo := normalizationInfo result;
     lastElevationDataUsed := elevationDataUsed result;
     lastLogicalResolutionMeters := finalLogicalResolutionMeters result;
     lastOriginOffsetX := finalOriginOffsetX result;
     lastOriginOffsetY := finalOriginOffsetY result;
     lastCalculatedPathIndices := fullPathIndices result;
     lastUsedObstacleCosts := lastUsedObstacleCosts m_impl |}.

(** One press of "Calculate": the slot, the asynchronous backend call and
    the completion slot. *)
Definition calculate (B : Backend) (m_impl : Impl) : Impl * option BackendResult :=
  match onCalculatePathClicked m_impl with
  | None => (m_impl, None)
  | Some params =>
    let result := processAndFindPath B params in
    (onCalculationFinished (setGuiCalculating true m_impl) result, Some result)
  end.

End MainWindow.

(* ===================================================================== *)
(** ** A small concrete backend

    Stand-ins for the collaborators, used to run the model on concrete
    inputs.  The map processor rasterises a [W x H] grid whose cells all
    carry the multiplier the obstacle configuration gives to symbol ["201"]
    (open terrain, [1.0], when it gives none; [IMPASSABLE] when negative). *)
(* ===================================================================== *)

Definition demo_multiplier (costs : ObstacleConfigMap) : mapgeo.Multiplier :=
  match costs !! "201" with
  | Some v =>
    if F32.ltb v (S754_zero false) then mapgeo.IMPASSABLE else mapgeo.Finite v
  | None => mapgeo.Finite (F32.of_int 1)
  end.

Definition demo_grid (w h : Z) (costs : ObstacleConfigMap) : mapgeo.Grid_V3 :=
  {| mapgeo.width := w; mapgeo.height := h;
     mapgeo.cells :=
       replicate (Z.to_nat (w * h))
         {| mapgeo.cell_m := demo_multiplier costs;
            mapgeo.cell_symbol := "201"; mapgeo.cell_layer := "barrier" |} |}.

Definition demo_norm : mapgeo.NormalizationResult :=
  {| mapgeo.valid := true;
     mapgeo.min_x := S754_zero false; mapgeo.min_y := S754_zero false;
     mapgeo.resolution_x := F64.of_int 1000; mapgeo.resolution_y := F64.of_int 1000 |}.

Definition demo_elevation_default : ElevationFetcher.ElevationData :=
  {| ElevationFetcher.success := false; ElevationFetcher.values := [];
     ElevationFetcher.width := 0; ElevationFetcher.height := 0;
     ElevationFetcher.resolution_meters := S754_zero false;
     ElevationFetcher.origin_proj_x := S754_zero false;
     ElevationFetcher.origin_proj_y := S754_zero false;
     ElevationFetcher.errorMessage := "" |}.

(** Modelled from the spec: the pathfinders are not part of the sources;
    [find_path] returns [NotFound] (the empty path) when an endpoint is out of
    bounds or [IMPASSABLE] and otherwise a path from [idx(start)] to
    [idx(end)]; this stand-in joins the two endpoints directly. *)
Definition demo_find_path (g : mapgeo.Grid_V3) (a b : GridPoint) : list Z :=
  if negb (mapgeo.inBounds g (gp_x a) (gp_y a))
     || negb (mapgeo.inBounds g (gp_x b) (gp_y b))
     || mapgeo.is_impassable g a || mapgeo.is_impassable g b
  then []
  else if GridPoint_eqb a b
  then [PathfindingUtils.toIndex (gp_x a) (gp_y a) (mapgeo.width g)]
  else [PathfindingUtils.toIndex (gp_x a) (gp_y a) (mapgeo.width g);
        PathfindingUtils.toIndex (gp_x b) (gp_y b) (mapgeo.width g)].

(** The processor state is the configuration it was built with. *)
Definition demo_backend (scan : mapscan.ScanResult) (waypoints : list GridPoint)
           (fetched : ElevationFetcher.ElevationData) (anchor_converts : bool)
  : Backend :=
  {| processor := mapgeo.MapProcessorConfig;
     scanXmlForGeoRefAndBounds := fun _ _ => scan;
     MapProcessor_new := fun cfg => cfg;
     loadMap := fun p _ => (true, p);
     generateGrid := fun p costs =>
       (Some (demo_grid (mapgeo.grid_width p) (mapgeo.grid_height p) costs), p);
     getNormalizationResult := fun _ => Some demo_norm;
     extractWaypointsFromFile := fun _ _ _ _ _ _ _ => Some waypoints;
     ElevationData_default := demo_elevation_default;
     hasData := fun d => negb (is_empty (ElevationFetcher.values d));
     fetchElevationDataEmbedded := fun _ _ _ _ _ _ _ _ _ _ _ _ => fetched;
     convertLatLonToProjectedViaPython := fun _ _ _ _ =>
       {| ElevationFetcher.proj_success := anchor_converts;
          ElevationFetcher.proj_x := S754_zero false;
          ElevationFetcher.proj_y := S754_zero false;
          ElevationFetcher.proj_error := "" |};
     findAStarPath_Tobler_Sampled := fun g _ a b _ => demo_find_path g a b;
     findDijkstraPath_Tobler_Sampled := fun g _ a b => demo_find_path g a b;
     findBFSPath_Tobler_Sampled := fun g _ a b => demo_find_path g a b;
     findThetaStarPath_Tobler_Sampled := fun g _ a b _ => demo_find_path g a b;
     findLazyThetaStarPath_Tobler_Sampled := fun g _ a b _ => demo_find_path g a b |}.

(** A map whose georeferencing is incomplete (no scale) but whose bounds and
    reference point are known. *)
Definition demo_scan_no_scale : mapscan.ScanResult :=
  {| mapscan.georeferencingFound := true;
     mapscan.refLatLon := Some {| mapscan.x := F64.of_int 14; mapscan.y := F64.of_int 50 |};
     mapscan.rawBoundsUM :=
       Some {| mapscan.min_x := S754_zero false; mapscan.min_y := S754_zero false;
               mapscan.max_x := F64.of_int 4000; mapscan.max_y := F64.of_int 4000;
               mapscan.initialized := true |};
     mapscan.mapScale := None |}.

(** A map without any georeferencing; only its bounds are known. *)
Definition demo_scan_bounds_only : mapscan.ScanResult :=
  {| mapscan.georeferencingFound := false;
     mapscan.refLatLon := None;
     mapscan.rawBoundsUM :=
       Some {| mapscan.min_x := S754_zero false; mapscan.min_y := S754_zero false;
               mapscan.max_x := F64.of_int 4000; mapscan.max_y := F64.of_int 4000;
               mapscan.initialized := true |};
     mapscan.mapScale := None |}.

Definition demo_params (costs : ObstacleConfigMap) (algorithm : string) : BackendInputParams :=
  {| mapFilePath := "map.omap"; controlsFilePath := "controls.omap";
     desiredGridWidth := 4; desiredGridHeight := 4;
     obstacleCosts := costs; numThreads := 1;
     desiredElevationResolution := F64.of_int 90;
     pyModuleName := "elevation_logic";
     pyFetchFuncName := "get_elevation_grid";
     pyConvertFuncName := "convert_latlon_to_projected";
     algorithmName := algorithm; heuristicType := 3;
     gpuDelta := F32.of_int 50; gpuThreshold := F32.of_int 50;
     hadsRadius := 1000;
     hadsPruneFactor := F32.of_ratio 105 100;
     hadsHeuristicWeight := F32.of_ratio 95 100;
     reuseGridIfPossible := false; existingGrid := None; existingNormInfo := None |}.


(* ===================================================================== *)
(** ** What the orchestrator expects of the pathfinders *)
(* ===================================================================== *)

#[global] Instance GridPoint_eq_dec : EqDecision GridPoint.
Proof. solve_decision. Defined.

(** Modelled from the spec: the five [find*Path_Tobler_Sampled] functions
    are not part of the sources; "if either endpoint is out of bounds or
    IMPASSABLE, return NotFound", [NotFound] being the empty path. *)
Definition pathfinders_reject_impassable (B : Backend) : Prop :=
  forall (g : mapgeo.Grid_V3) (f : ElevationField) (a b : GridPoint) (h : Z),
    mapgeo.is_impassable g a = true \/ mapgeo.is_impassable g b = true ->
    findAStarPath_Tobler_Sampled B g f a b h = []
    /\ findDijkstraPath_Tobler_Sampled B g f a b = []
    /\ findBFSPath_Tobler_Sampled B g f a b = []
    /\ findThetaStarPath_Tobler_Sampled B g f a b h = []
    /\ findLazyThetaStarPath_Tobler_Sampled B g f a b h = [].


(** A run over a grid whose cells are all [IMPASSABLE], with both waypoints
    on the cell [(1, 1)]. *)
Definition all_impassable_costs : ObstacleConfigMap := {[ "201" := F32.of_int (-1) ]}.

Definition same_cell_backend : Backend :=
  demo_backend demo_scan_no_scale [mkGridPoint 1 1; mkGridPoint 1 1]
               demo_elevation_default false.

(** The same grid with the waypoints [(1,1)], [(1,1)], [(2,2)], [(3,3)]. *)
Definition blocked_backend : Backend :=
  demo_backend demo_scan_no_scale
               [mkGridPoint 1 1; mkGridPoint 1 1; mkGridPoint 2 2; mkGridPoint 3 3]
               demo_elevation_default false.

(** An open grid with the last waypoint outside it. *)
Definition outside_backend : Backend :=
  demo_backend demo_scan_no_scale
               [mkGridPoint 0 0; mkGridPoint 3 3; mkGridPoint 1 4]
               demo_elevation_default false.


(** A stand-in for [std::stof] on the texts used below: an optional minus
    sign followed by decimal digits only. *)
Fixpoint demo_digits (acc : Z) (s : list ascii) : option Z :=
  match s with
  | [] => Some acc
  | c :: s' =>
    let n := Z.of_nat (nat_of_ascii c) in
    if (48 <=? n) && (n <=? 57) then demo_digits (10 * acc + (n - 48)) s' else None
  end.

Definition demo_stof (s : list ascii) : option spec_float :=
  match s with
  | [] => None
  | c :: s' =>
    if Ascii.eqb c "-"%char then
      match s' with
      | [] => None
      | _ :: _ => (fun n => F32.of_int (- n)) <$> demo_digits 0 s'
      end
    else F32.of_int <$> demo_digits 0 s
  end.

Definition demo_widgets (costs_text : string) : Widgets :=
  {| mapLineEdit := "map.omap"; controlsLineEdit := "controls.omap";
     gridWidthSpinBox := 4; gridHeightSpinBox := 4; numThreadsSpinBox := 1;
     desiredElevResSpinBox := F64.of_int 90;
     algorithmComboBox := "Dijkstra";
     obstacleCostsTextEdit := Some costs_text;
     heuristicComboBox_isEnabled := false; heuristicComboBox := 3;
     gpuParamsGroup_isVisible := false;
     gpuDeltaSpinBox := F64.of_int 50; gpuThresholdSpinBox := F64.of_int 50;
     hadsRadiusSpinBox := 1000;
     hadsPruneSpinBox := F64.of_ratio 105 100;
     hadsWeightSpinBox := F64.of_ratio 95 100 |}.

(** The user edits the widgets between two calculations. *)
Definition edit_widgets (w : Widgets) (m_impl : Impl) : Impl :=
  {| widgets := w; isCalculating := isCalculating m_impl;
     currentMapFilePath := currentMapFilePath m_impl;
     impl_currentControlsFilePath := impl_currentControlsFilePath m_impl;
     lastGridWidth := lastGridWidth m_impl;
     lastGridHeight := lastGridHeight m_impl;
     lastProcessedGrid := lastProcessedGrid m_impl;
     lastNormalizationInfo := lastNormalizationInfo m_impl;
     lastElevationDataUsed := lastElevationDataUsed m_impl;
     lastLogicalResolutionMeters := lastLogicalResolutionMeters m_impl;
     lastOriginOffsetX := lastOriginOffsetX m_impl;
     lastOriginOffsetY := lastOriginOffsetY m_impl;
     lastCalculatedPathIndices := lastCalculatedPathIndices m_impl;
     lastUsedObstacleCosts := lastUsedObstacleCosts m_impl |}.

Definition two_point_backend : Backend :=
  demo_backend demo_scan_no_scale [mkGridPoint 0 0; mkGridPoint 3 3]
               demo_elevation_default false.

(** First calculation with the obstacle costs ["201: 5"], then the costs are
    edited to ["201: -1"] and "Calculate" is pressed again. *)
Definition first_run : Impl * option BackendResult :=
  calculate demo_stof (fun _ => true) two_point_backend
            (Impl_new (demo_widgets "201: 5")).

Definition second_click : option BackendInputParams :=
  onCalculatePathClicked demo_stof (fun _ => true)
    (edit_widgets (demo_widgets "201: -1") first_run.1).

Definition second_run : Impl * option BackendResult :=
  calculate demo_stof (fun _ => true) two_point_backend
            (edit_widgets (demo_widgets "201: -1") first_run.1).


(** The map has bounds and a reference point but no scale, so the elevation
    fetch is not attempted; the anchor conversion succeeds. *)
Definition not_fetched_backend : Backend :=
  demo_backend demo_scan_no_scale [mkGridPoint 0 0; mkGridPoint 3 3]
               demo_elevation_default true.

(** The map is fully georeferenced, the elevation fetch is attempted and
    fails; the anchor conversion succeeds. *)
Definition demo_scan_complete : mapscan.ScanResult :=
  {| mapscan.georeferencingFound := true;
     mapscan.refLatLon := Some {| mapscan.x := F64.of_int 14; mapscan.y := F64.of_int 50 |};
     mapscan.rawBoundsUM :=
       Some {| mapscan.min_x := S754_zero false; mapscan.min_y := S754_zero false;
               mapscan.max_x := F64.of_int 4000; mapscan.max_y := F64.of_int 4000;
               mapscan.initialized := true |};
     mapscan.mapScale := Some (F64.of_int 10000) |}.

Definition demo_fetch_failed : ElevationFetcher.ElevationData :=
  {| ElevationFetcher.success := false; ElevationFetcher.values := [];
     ElevationFetcher.width := 0; ElevationFetcher.height := 0;
     ElevationFetcher.resolution_meters := S754_zero false;
     ElevationFetcher.origin_proj_x := S754_zero false;
     ElevationFetcher.origin_proj_y := S754_zero false;
     ElevationFetcher.errorMessage := "no data" |}.

Definition fetch_failed_backend : Backend :=
  demo_backend demo_scan_complete [mkGridPoint 0 0; mkGridPoint 3 3]
               demo_fetch_failed true.

(** The map has bounds only: no reference point, no scale. *)
Definition bounds_only_backend : Backend :=
  demo_backend demo_scan_bounds_only [mkGridPoint 0 0; mkGridPoint 3 3]
               demo_elevation_default true.

(** The field the claim describes for a [w x h] request. *)
Definition uniform_field (w h : Z) (log_cell_m : spec_float) : ElevationField :=
  {| elevation_values := replicate (Z.to_nat (w * h)) (F32.of_int 100);
     elevation_width := w; elevation_height := h;
     log_cell_resolution := log_cell_m;
     elev_cell_resolution := log_cell_m;
     origin_offset_x := S754_zero false;
     origin_offset_y := S754_zero false |}.


(* ===================================================================== *)
(** ** The obstacle-cost text format, in the words of the specification *)
(* ===================================================================== *)

(** All characters of [s] are among [chars]. *)
Definition blank (chars s : list ascii) : Prop := Forall (fun c => c ∈ chars) s.

(** [s] without its leading, respectively trailing, characters among
    [chars]. *)
Fixpoint strip_front (chars s : list ascii) : list ascii :=
  match s with
  | [] => []
  | c :: s' => if cxx.isin c chars then strip_front chars s' else s
  end.

Definition strip_back (chars s : list ascii) : list ascii :=
  rev (strip_front chars (rev s)).








(* ===================================================================== *)
(** ** The heuristics as the specification states them *)
(* ===================================================================== *)

(** The stated distances in grid-cell units, evaluated in binary32:
    [sqrt(dx^2 + dy^2)] and
    [(|dx| + |dy|) + (sqrt(2) - 2) * min(|dx|, |dy|)]. *)
Definition spec_euclidean_cells (x1 y1 x2 y2 : Z) : spec_float :=
  let dx := F32.of_int (x1 - x2) in
  let dy := F32.of_int (y1 - y2) in
  F32.sqrtf (F32.add (F32.mul dx dx) (F32.mul dy dy)).

Definition spec_octile_cells (x1 y1 x2 y2 : Z) : spec_float :=
  let adx := F32.fabs (F32.of_int (x1 - x2)) in
  let ady := F32.fabs (F32.of_int (y1 - y2)) in
  F32.add (F32.add adx ady)
          (F32.mul (F32.sub (F32.sqrtf (F32.of_int 2)) (F32.of_int 2))
                   (F32.min adx ady)).

(** The stated heuristic values: the distance multiplied by [log_cell_m]. *)
Definition spec_euclidean (log_cell_m : spec_float) (x1 y1 x2 y2 : Z) : spec_float :=
  F32.mul (spec_euclidean_cells x1 y1 x2 y2) log_cell_m.

Definition spec_octile (log_cell_m : spec_float) (x1 y1 x2 y2 : Z) : spec_float :=
  F32.mul log_cell_m (spec_octile_cells x1 y1 x2 y2).


(* ===================================================================== *)
(** ** Auxiliary notions used in the statements and proofs *)
(* ===================================================================== *)

(** Computations that leave [result.fullPathIndices] alone. *)
Definition keeps_path {A : Type} (m : M A) : Prop :=
  forall r, fullPathIndices (m r).1 = fullPathIndices r.

(** Postconditions of computations that end normally. *)
Definition ensures {A : Type} (m : M A) (Q : A -> Prop) : Prop :=
  forall r r' a, m r = (r', Normal a) -> Q a.

(** A pair of consecutive waypoints the loop cannot get past. *)
Definition blocking_pair (grid : mapgeo.Grid_V3) (a b : GridPoint) : Prop :=
  mapgeo.inBounds grid (gp_x a) (gp_y a) = false
  \/ mapgeo.inBounds grid (gp_x b) (gp_y b) = false
  \/ (a <> b /\ (mapgeo.is_impassable grid a = true
                 \/ mapgeo.is_impassable grid b = true)).



(** The canonical binary32 representation of a non-zero integer of
    magnitude [z < 2^24]: the mantissa is [z] shifted up to 24 bits. *)
Definition int_mantissa (z : positive) : positive :=
  Z.to_pos (Z.pos z * 2 ^ (24 - Zdigits2 (Z.pos z))).

Definition int_float (s : bool) (z : positive) : spec_float :=
  S754_finite s (int_mantissa z) (Zdigits2 (Z.pos z) - 24).


(* ===================================================================== *)
(** ** [PathfindingUtils.hpp]: [GridPoint::Hash] *)
(* ===================================================================== *)

(** [static_cast<std::size_t>(int)] on a 64-bit target. *)
Definition size_t_of_int (z : Z) : Z := z mod 2 ^ 64.

(** [GridPoint::Hash::operator()]: [*] binds tighter than [^]; the
    products are taken in [std::size_t]. *)
Definition GridPoint_Hash (p : GridPoint) : Z :=
  Z.lxor ((size_t_of_int (gp_x p) * 73856093) mod 2 ^ 64)
         ((size_t_of_int (gp_y p) * 19349663) mod 2 ^ 64).

(* ===================================================================== *)
(** ** [PathfindingLogic.cpp]: what a run leaves in [result] *)
(* ===================================================================== *)

(** Computations that leave a component [f] of [result] alone. *)
Definition keeps {A F : Type} (f : BackendResult -> F) (m : M A) : Prop :=
  forall r, f (m r).1 = f r.

(** The "Input Echoing" fields of [BackendResult]. *)
Definition input_echo (r : BackendResult) : string * string * Z * Z :=
  (usedMapFilePath r, currentControlsFilePath r, usedGridWidth r, usedGridHeight r).

(** The two messages the loop stores in [errorMsg] before a [break]. *)
Definition segment_error (msg : ErrorMessage) : Prop :=
  match msg with
  | MsgSegmentOutOfBounds _ _ _ _ _ | MsgPathNotFound _ _ _ => True
  | _ => False
  end.

(** The names "Call Selected Pathfinding Function" serves. *)
Definition cpu_algorithms : list string :=
  ["Optimized A*"; "Dijkstra"; "BFS"; "Theta*"; "Lazy Theta*"].

(** The text thrown for any other name. *)
Definition unsupported_algorithm (algorithmName : string) : string :=
  if decide (String.index 0 "GPU" algorithmName = None)
  then "Unsupported CPU algorithm selected: " +:+ algorithmName
  else "Selected GPU algorithm '" +:+ algorithmName +:+ "' is not implemented.".

(** Every waypoint lies inside the grid. *)
Definition all_in_bounds (grid : mapgeo.Grid_V3) (wps : list GridPoint) : Prop :=
  Forall (fun p => mapgeo.inBounds grid (gp_x p) (gp_y p) = true) wps.

(** [path] is empty or leads from the index of [a] to the index of [b]. *)
Definition joins (g : mapgeo.Grid_V3) (a b : GridPoint) (path : list Z) : Prop :=
  path = []
  \/ (head path = Some (PathfindingUtils.toIndex (gp_x a) (gp_y a) (mapgeo.width g))
      /\ last path = Some (PathfindingUtils.toIndex (gp_x b) (gp_y b) (mapgeo.width g))).

(** Modelled from the spec: the five [find*Path_Tobler_Sampled] functions
    are not part of the sources; "Path indices satisfy idx_0 = idx(start),
    idx_last = idx(end)", the empty path standing for [NotFound]. *)
Definition pathfinders_join_endpoints (B : Backend) : Prop :=
  forall (g : mapgeo.Grid_V3) (f : ElevationField) (a b : GridPoint) (h : Z),
    joins g a b (findAStarPath_Tobler_Sampled B g f a b h)
    /\ joins g a b (findDijkstraPath_Tobler_Sampled B g f a b)
    /\ joins g a b (findBFSPath_Tobler_Sampled B g f a b)
    /\ joins g a b (findThetaStarPath_Tobler_Sampled B g f a b h)
    /\ joins g a b (findLazyThetaStarPath_Tobler_Sampled B g f a b h).

(** No "start does not match previous end" warning among the messages. *)
Definition no_start_mismatch (evs : list LogEvent) : Prop :=
  forall n, LogStartMismatch n ∉ evs.

(** The scan found initialised coordinate bounds. *)
Definition bounds_found (scanResult : mapscan.ScanResult) : bool :=
  match mapscan.rawBoundsUM scanResult with
  | Some b => mapscan.initialized b
  | None => false
  end.

(** The grid and the normalisation record stored in [result]. *)
Definition stored_grid (r : BackendResult)
  : option mapgeo.Grid_V3 * option mapgeo.NormalizationResult :=
  (processedGrid r, normalizationInfo r).

(** What [result] reports about the elevation data. *)
Definition elevation_report (r : BackendResult)
  : option ElevationFetcher.ElevationData * bool * spec_float * spec_float * spec_float :=
  (elevationDataUsed r, usedDummyElevation r, finalLogicalResolutionMeters r,
   finalOriginOffsetX r, finalOriginOffsetY r).

(** A request for a grid of width [0]. *)
Definition demo_zero_width_params : BackendInputParams :=
  {| mapFilePath := "map.omap"; controlsFilePath := "controls.omap";
     desiredGridWidth := 0; desiredGridHeight := 4;
     obstacleCosts := ∅; numThreads := 1;
     desiredElevationResolution := F64.of_int 90;
     pyModuleName := "elevation_logic";
     pyFetchFuncName := "get_elevation_grid";
     pyConvertFuncName := "convert_latlon_to_projected";
     algorithmName := "Dijkstra"; heuristicType := 3;
     gpuDelta := F32.of_int 50; gpuThreshold := F32.of_int 50;
     hadsRadius := 1000;
     hadsPruneFactor := F32.of_ratio 105 100;
     hadsHeuristicWeight := F32.of_ratio 95 100;
     reuseGridIfPossible := false; existingGrid := None; existingNormInfo := None |}.

(** A request that hands a grid back for reuse. *)
Definition demo_reuse_params (g : mapgeo.Grid_V3) (n : mapgeo.NormalizationResult)
  : BackendInputParams :=
  {| mapFilePath := "map.omap"; controlsFilePath := "controls.omap";
     desiredGridWidth := 4; desiredGridHeight := 4;
     obstacleCosts := ∅; numThreads := 1;
     desiredElevationResolution := F64.of_int 90;
     pyModuleName := "elevation_logic";
     pyFetchFuncName := "get_elevation_grid";
     pyConvertFuncName := "convert_latlon_to_projected";
     algorithmName := "Dijkstra"; heuristicType := 3;
     gpuDelta := F32.of_int 50; gpuThreshold := F32.of_int 50;
     hadsRadius := 1000;
     hadsPruneFactor := F32.of_ratio 105 100;
     hadsHeuristicWeight := F32.of_ratio 95 100;
     reuseGridIfPossible := true; existingGrid := Some g; existingNormInfo := Some n |}.

(** The waypoints [extractWaypointsFromFile] is asked for in step 2. *)
Definition extracted_waypoints (B : Backend) (params : BackendInputParams)
           (finalNormInfo : mapgeo.NormalizationResult) : option (list GridPoint) :=
  let real_world_max_x :=
    F64.add (mapgeo.min_x finalNormInfo)
            (F64.mul (F64.of_int (desiredGridWidth params))
                     (mapgeo.resolution_x finalNormInfo)) in
  let real_world_max_y :=
    F64.add (mapgeo.min_y finalNormInfo)
            (F64.mul (F64.of_int (desiredGridHeight params))
                     (mapgeo.resolution_y finalNormInfo)) in
  extractWaypointsFromFile B (controlsFilePath params)
    (mapgeo.min_x finalNormInfo) real_world_max_x
    (mapgeo.min_y finalNormInfo) real_world_max_y
    (desiredGridWidth params) (desiredGridHeight params).

(** What [result] says about the elevation data agrees with the field the
    pathfinders receive: the logical resolution and the origin offsets are
    those of the field; the resolution is not at or below [1e-6f]; when
    [usedDummyElevation] is set the field is the uniform [100.0f] raster of
    the requested size at zero offset, and otherwise it is the raster of
    [elevationDataUsed]. *)
Definition report_matches (params : BackendInputParams) (r : BackendResult)
           (field : ElevationField) : Prop :=
  finalLogicalResolutionMeters r = log_cell_resolution field
  /\ finalOriginOffsetX r = origin_offset_x field
  /\ finalOriginOffsetY r = origin_offset_y field
  /\ F32.leb (log_cell_resolution field) (F32.of_ratio 1 1000000) = false
  /\ (usedDummyElevation r = true ->
      elevation_values field
      = replicate (Z.to_nat (size_t_mul (desiredGridWidth params) (desiredGridHeight params)))
                  (F32.of_int 100)
      /\ elevation_width field = desiredGridWidth params
      /\ elevation_height field = desiredGridHeight params
      /\ origin_offset_x field = S754_zero false
      /\ origin_offset_y field = S754_zero false)
  /\ (usedDummyElevation r = false ->
      exists d, elevationDataUsed r = Some d
                /\ elevation_values field = ElevationFetcher.values d
                /\ elevation_width field = ElevationFetcher.width d
                /\ elevation_height field = ElevationFetcher.height d
                /\ elev_cell_resolution field
                   = F64.to_float (ElevationFetcher.resolution_meters d)).

(** The backend [B] with its five pathfinders replaced. *)
Definition with_pathfinders (B : Backend)
           (astar : mapgeo.Grid_V3 -> ElevationField -> GridPoint -> GridPoint -> Z -> list Z)
           (dijkstra bfs : mapgeo.Grid_V3 -> ElevationField -> GridPoint -> GridPoint -> list Z)
           (theta lazy : mapgeo.Grid_V3 -> ElevationField -> GridPoint -> GridPoint -> Z -> list Z)
  : Backend :=
  {| processor := processor B;
     scanXmlForGeoRefAndBounds := scanXmlForGeoRefAndBounds B;
     MapProcessor_new := MapProcessor_new B;
     loadMap := loadMap B;
     generateGrid := generateGrid B;
     getNormalizationResult := getNormalizationResult B;
     extractWaypointsFromFile := extractWaypointsFromFile B;
     ElevationData_default := ElevationData_default B;
     hasData := hasData B;
     fetchElevationDataEmbedded := fetchElevationDataEmbedded B;
     convertLatLonToProjectedViaPython := convertLatLonToProjectedViaPython B;
     findAStarPath_Tobler_Sampled := astar;
     findDijkstraPath_Tobler_Sampled := dijkstra;
     findBFSPath_Tobler_Sampled := bfs;
     findThetaStarPath_Tobler_Sampled := theta;
     findLazyThetaStarPath_Tobler_Sampled := lazy |}.

(** Two backends whose pathfinders return the same paths whenever they are
    asked for a segment between two different cells inside the grid. *)
Definition agree_on_segments (B B' : Backend) : Prop :=
  forall (g : mapgeo.Grid_V3) (f : ElevationField) (a b : GridPoint) (h : Z),
    mapgeo.inBounds g (gp_x a) (gp_y a) = true ->
    mapgeo.inBounds g (gp_x b) (gp_y b) = true ->
    a <> b ->
    findAStarPath_Tobler_Sampled B' g f a b h = findAStarPath_Tobler_Sampled B g f a b h
    /\ findDijkstraPath_Tobler_Sampled B' g f a b = findDijkstraPath_Tobler_Sampled B g f a b
    /\ findBFSPath_Tobler_Sampled B' g f a b = findBFSPath_Tobler_Sampled B g f a b
    /\ findThetaStarPath_Tobler_Sampled B' g f a b h
       = findThetaStarPath_Tobler_Sampled B g f a b h
    /\ findLazyThetaStarPath_Tobler_Sampled B' g f a b h
       = findLazyThetaStarPath_Tobler_Sampled B g f a b h.

(** A pathfinder that misbehaves exactly where the orchestrator never asks:
    outside the grid and on segments of identical points. *)
Definition demo_careless_path (g : mapgeo.Grid_V3) (a b : GridPoint) : list Z :=
  if mapgeo.inBounds g (gp_x a) (gp_y a) && mapgeo.inBounds g (gp_x b) (gp_y b)
     && negb (GridPoint_eqb a b)
  then demo_find_path g a b
  else [42].

(* ===================================================================== *)
(** ** [main_window.cpp]: [onCalculationFinished], [triggerExport], [onAlgorithmChanged] *)
(* ===================================================================== *)

(** The state [onCalculationFinished] leaves [exportButton] in: both arms
    of "Process Outcome" call [setEnabled] after [setGuiCalculating(false)]
    has run, the success arm with [!lastCalculatedPathIndices.empty()], the
    failure arm with [false]. *)
Definition onCalculationFinished_exportButton (result : BackendResult) : bool :=
  if success result then negb (is_empty (fullPathIndices result)) else false.

(** How a call of [triggerExport] ends: the early [return]s, in the order
    of the code, and the two reports after [savePathToOmap]. *)
Inductive ExportOutcome :=
| ExportNotStarted
| ExportNoPath
| ExportMissingGrid
| ExportMissingControlsPath
| ExportNoDirectory
| ExportCancelled
| ExportSuccessful (outputOmapPath : string)
| ExportFailed (outputOmapPath : string) (errorMsg : string).

Section TriggerExport.

(** [QFileInfo::completeBaseName] and [QFileInfo::absolutePath] of a path,
    [QDir(dir).filePath(name)], [QFileDialog::getExistingDirectory] started
    in a directory (the empty string when the dialog is cancelled) and
    [pathsaver::savePathToOmap]. *)
Context (completeBaseName absolutePath : string -> string)
        (filePath : string -> string -> string)
        (getExistingDirectory : string -> string)
        (savePathToOmap :
           string -> list Z -> mapgeo.Grid_V3 -> mapgeo.NormalizationResult ->
           string -> string -> outcome bool).

(** "Perform Save Operation" and "Report Result". *)
Definition save_path (outputOmapPath : string) (path : list Z)
           (grid : mapgeo.Grid_V3) (norm : mapgeo.NormalizationResult) : ExportOutcome :=
  match savePathToOmap outputOmapPath path grid norm "704" "course" with
  | Normal true => ExportSuccessful outputOmapPath
  | Normal false =>
    ExportFailed outputOmapPath "PathSaver function returned false. Check logs."
  | Raised what =>
    ExportFailed outputOmapPath ("Standard Exception during export: " +:+ what)
  end.

(** [triggerExport], with the state of [autoExportCheckBox] and the
    ["lastExportDir"] entry of the settings; returns how the slot ended and
    the new value of that entry. *)
Definition triggerExport (autoExport : bool) (lastExportDir : option string)
           (m_impl : Impl) : ExportOutcome * option string :=
  if isCalculating m_impl then (ExportNotStarted, lastExportDir)
  else if is_empty (lastCalculatedPathIndices m_impl) then (ExportNoPath, lastExportDir)
  else
    match lastProcessedGrid m_impl, lastNormalizationInfo m_impl with
    | Some grid, Some norm =>
      if String.eqb (impl_currentControlsFilePath m_impl) ""
      then (ExportMissingControlsPath, lastExportDir)
      else
        let controlsPath := impl_currentControlsFilePath m_impl in
        let baseName := completeBaseName controlsPath in
        let autoFileName := baseName +:+ "_path.omap" in
        if autoExport then
          let dirPath := absolutePath controlsPath in
          if String.eqb dirPath "" then (ExportNoDirectory, lastExportDir)
          else
            (save_path (dirPath +:+ "/" +:+ autoFileName)
                       (lastCalculatedPathIndices m_impl) grid norm,
             lastExportDir)
        else
          let lastDir := default (absolutePath controlsPath) lastExportDir in
          let selectedDir := getExistingDirectory lastDir in
          if String.eqb selectedDir "" then (ExportCancelled, lastExportDir)
          else
            (save_path (filePath selectedDir autoFileName)
                       (lastCalculatedPathIndices m_impl) grid norm,
             Some selectedDir)
    | _, _ => (ExportMissingGrid, lastExportDir)
    end.

End TriggerExport.

(** The entries [createAlgorithmSettingsPanel] puts into
    [algorithmComboBox]; the text and the user data of an entry are the
    same string. *)
Definition algorithm_items : list string :=
  ["Optimized A*"; "Dijkstra"; "BFS"; "Theta*"; "Lazy Theta*";
   "Delta Stepping - GPU"; "HADS - GPU"; "A* - GPU"].

(** [QString::contains(needle, Qt::CaseInsensitive)] on ASCII text. *)
Definition to_lower (c : ascii) : ascii :=
  let n := nat_of_ascii c in
  if ((65 <=? n) && (n <=? 90))%nat then ascii_of_nat (n + 32) else c.

Fixpoint starts_with_ci (needle s : list ascii) : bool :=
  match needle, s with
  | [], _ => true
  | _ :: _, [] => false
  | a :: needle', b :: s' =>
    Ascii.eqb (to_lower a) (to_lower b) && starts_with_ci needle' s'
  end.

Fixpoint contains_ci (needle s : list ascii) : bool :=
  starts_with_ci needle s
  || match s with
     | [] => false
     | _ :: s' => contains_ci needle s'
     end.

(** [onAlgorithmChanged]: the two flags it computes from the current text
    of [algorithmComboBox] and hands to [heuristicComboBox->setEnabled] and
    [gpuParamsGroup->setVisible]. *)
Definition usesHeuristic (algoName : string) : bool :=
  contains_ci (list_ascii_of_string "A*") (list_ascii_of_string algoName)
  || contains_ci (list_ascii_of_string "Theta*") (list_ascii_of_string algoName).

Definition usesGpuParams (algoName : string) : bool :=
  contains_ci (list_ascii_of_string "GPU") (list_ascii_of_string algoName).

Definition onAlgorithmChanged (w : Widgets) : Widgets :=
  {| mapLineEdit := mapLineEdit w; controlsLineEdit := controlsLineEdit w;
     gridWidthSpinBox := gridWidthSpinBox w; gridHeightSpinBox := gridHeightSpinBox w;
     numThreadsSpinBox := numThreadsSpinBox w;
     desiredElevResSpinBox := desiredElevResSpinBox w;
     algorithmComboBox := algorithmComboBox w;
     obstacleCostsTextEdit := obstacleCostsTextEdit w;
     heuristicComboBox_isEnabled := usesHeuristic (algorithmComboBox w);
     heuristicComboBox := heuristicComboBox w;
     gpuParamsGroup_isVisible := usesGpuParams (algorithmComboBox w);
     gpuDeltaSpinBox := gpuDeltaSpinBox w; gpuThresholdSpinBox := gpuThresholdSpinBox w;
     hadsRadiusSpinBox := hadsRadiusSpinBox w;
     hadsPruneSpinBox := hadsPruneSpinBox w;
     hadsWeightSpinBox := hadsWeightSpinBox w |}.

(* ===================================================================== *)
(** ** Further sample collaborators *)
(* ===================================================================== *)

(** A map processor whose three steps end as told: [loaded] for
    [loadMap], [grid] for [generateGrid] and [norm] for
    [getNormalizationResult]. *)
Definition demo_processor_backend (loaded : bool) (grid : option mapgeo.Grid_V3)
           (norm : option mapgeo.NormalizationResult) : Backend :=
  {| processor := unit;
     scanXmlForGeoRefAndBounds := fun _ _ => demo_scan_no_scale;
     MapProcessor_new := fun _ => tt;
     loadMap := fun p _ => (loaded, p);
     generateGrid := fun p _ => (grid, p);
     getNormalizationResult := fun _ => norm;
     extractWaypointsFromFile := fun _ _ _ _ _ _ _ => Some [mkGridPoint 0 0; mkGridPoint 3 3];
     ElevationData_default := demo_elevation_default;
     hasData := fun d => negb (is_empty (ElevationFetcher.values d));
     fetchElevationDataEmbedded := fun _ _ _ _ _ _ _ _ _ _ _ _ => demo_elevation_default;
     convertLatLonToProjectedViaPython := fun _ _ _ _ =>
       {| ElevationFetcher.proj_success := false;
          ElevationFetcher.proj_x := S754_zero false;
          ElevationFetcher.proj_y := S754_zero false;
          ElevationFetcher.proj_error := "" |};
     findAStarPath_Tobler_Sampled := fun g _ a b _ => demo_find_path g a b;
     findDijkstraPath_Tobler_Sampled := fun g _ a b => demo_find_path g a b;
     findBFSPath_Tobler_Sampled := fun g _ a b => demo_find_path g a b;
     findThetaStarPath_Tobler_Sampled := fun g _ a b _ => demo_find_path g a b;
     findLazyThetaStarPath_Tobler_Sampled := fun g _ a b _ => demo_find_path g a b |}.


(* ===================================================================== *)
(** * Properties *)
(* ===================================================================== *)

(** ** Concrete runs of the model *)

Example toIndex_example : PathfindingUtils.toIndex 7 3 10 = 37.
Proof. reflexivity. Qed.

Example toCoords_example : PathfindingUtils.toCoords 37 10 = (7, 3).
Proof. reflexivity. Qed.

Example toCoords_bad_width : PathfindingUtils.toCoords 37 0 = (-1, -1).
Proof. reflexivity. Qed.

(** [3-4-5]: Euclidean [5.0], Manhattan [7.0], octile
    [7 + (1.41421356f - 2) * 3], and the latter scaled by [0.8f]. *)
Example heuristics_3_4 :
  PathfindingUtils.calculate_heuristic 0 0 3 4 PathfindingUtils.HEURISTIC_EUCLIDEAN
    = F32.of_int 5
  /\ PathfindingUtils.calculate_heuristic 0 0 3 4 PathfindingUtils.HEURISTIC_MANHATTAN
     = F32.of_int 7
  /\ PathfindingUtils.calculate_heuristic 0 0 3 4 PathfindingUtils.HEURISTIC_DIAGONAL
     = S754_finite false 10994614 (-21)
  /\ PathfindingUtils.calculate_heuristic 0 0 3 4 PathfindingUtils.HEURISTIC_MIN_COST
     = S754_finite false 8795691 (-21)
  /\ PathfindingUtils.calculate_heuristic 0 0 3 4 (-1) = F32.of_int 5.
Proof. repeat split; vm_compute; reflexivity. Qed.

(** Comment, entry, blank line, entry with blanks around the colon and a
    carriage return at the end of the line. *)
Example parse_costs_example :
  let text := String.append "# costs" (String LF
              (String.append "201: -1" (String LF (String LF
              (String.append " 302 :	5 " (String CR (String LF ""))))))) in
  let result := parseObstacleCosts demo_stof (Some text) in
  result.1 = true
  /\ result.2 !! "201" = Some (F32.of_int (-1))
  /\ result.2 !! "302" = Some (F32.of_int 5)
  /\ dom result.2 = {[ "201"; "302" ]}.
Proof.
  repeat split; vm_compute; reflexivity.
Qed.

Example parse_costs_rejected :
  (parseObstacleCosts demo_stof (Some "201 5")).1 = false
  /\ (parseObstacleCosts demo_stof (Some " : 5")).1 = false
  /\ (parseObstacleCosts demo_stof (Some "201: five")).1 = false
  /\ (parseObstacleCosts demo_stof None).1 = false
  /\ parse_line demo_stof (list_ascii_of_string "201 5") = Rejected MissingColon
  /\ parse_line demo_stof (list_ascii_of_string " : 5") = Rejected EmptyCode
  /\ parse_line demo_stof (list_ascii_of_string "201: five") = Rejected InvalidFloat.
Proof. repeat split; vm_compute; reflexivity. Qed.

(** Three waypoints on an open [4 x 4] grid, the middle one repeated: the
    repeated point opens no new index and the joins drop the duplicates. *)
Example run_example :
  let result :=
    processAndFindPath
      (demo_backend demo_scan_no_scale
         [mkGridPoint 0 0; mkGridPoint 3 3; mkGridPoint 3 3; mkGridPoint 1 2]
         demo_elevation_default false)
      (demo_params ∅ "Theta*") in
  success result = true /\ fullPathIndices result = [0; 15; 9]
  /\ waypointsFound result = 4%nat.
Proof. repeat split; vm_compute; reflexivity. Qed.

Example run_unknown_algorithm :
  errorMessage
    (processAndFindPath
       (demo_backend demo_scan_no_scale [mkGridPoint 0 0; mkGridPoint 3 3]
          demo_elevation_default false)
       (demo_params ∅ "HADS - GPU"))
  = MsgBackendError "Selected GPU algorithm 'HADS - GPU' is not implemented.".
Proof. vm_compute. reflexivity. Qed.

(** ** Machine integers *)

Lemma wrap_in_range (z : Z) : Int32.in_range z -> Int32.wrap z = z.
Proof.
  unfold Int32.in_range, Int32.wrap, Int32.min_int, Int32.max_int.
  intros H. rewrite Z.mod_small; lia.
Qed.

Lemma wrap_range (z : Z) : Int32.in_range (Int32.wrap z).
Proof.
  unfold Int32.in_range, Int32.wrap, Int32.min_int, Int32.max_int.
  pose proof (Z.mod_pos_bound (z + 2 ^ 31) (2 ^ 32) ltac:(lia)). lia.
Qed.

(** ** Row-major index helpers *)

Lemma toIndex_exact (x y w : Z) :
  0 <= x < w -> 0 <= y -> y * w + x <= Int32.max_int ->
  PathfindingUtils.toIndex x y w = y * w + x.
Proof.
  intros Hx Hy Hmax. unfold PathfindingUtils.toIndex, Int32.add, Int32.mul.
  assert (Hyw : 0 <= y * w) by nia.
  rewrite (wrap_in_range (y * w)).
  - apply wrap_in_range. unfold Int32.in_range, Int32.min_int, Int32.max_int in *. lia.
  - unfold Int32.in_range, Int32.min_int, Int32.max_int in *. lia.
Qed.

(** C9 (as stated, refuted): with [w = 65536] and [(x, y) = (0, 32768)] the
    hypotheses of the claim hold, the product [y * w] is [2^31] and leaves
    the range of [int], and the round trip returns [(0, -32768)]. *)
Lemma toCoords_toIndex_overflow :
  0 < 65536 /\ 0 <= 0 < 65536 /\ 0 <= 32768 /\
  Int32.in_range 65536 /\ Int32.in_range 32768 /\
  PathfindingUtils.toCoords (PathfindingUtils.toIndex 0 32768 65536) 65536
    = (0, -32768) /\
  PathfindingUtils.toCoords (PathfindingUtils.toIndex 0 32768 65536) 65536
    <> (0, 32768).
Proof.
  unfold Int32.in_range, Int32.min_int, Int32.max_int.
  repeat split; try lia; try reflexivity.
  vm_compute. discriminate.
Qed.

(** C9 (amended): for every width [w > 0] and every pair [(x, y)] with
    [0 <= x < w], [y >= 0] and [y * w + x] representable as an [int],
    [toCoords (toIndex x y w) w] is exactly [(x, y)]. *)
Theorem toCoords_toIndex_roundtrip (x y w : Z) :
  0 < w -> 0 <= x < w -> 0 <= y -> y * w + x <= Int32.max_int ->
  PathfindingUtils.toCoords (PathfindingUtils.toIndex x y w) w = (x, y).
Proof.
  intros Hw Hx Hy Hmax.
  rewrite toIndex_exact by assumption.
  unfold PathfindingUtils.toCoords.
  destruct (Z.leb_spec w 0) as [Hle | _]; [lia |].
  assert (Hidx : 0 <= y * w + x) by nia.
  unfold Int32.div, Int32.rem.
  rewrite Z.rem_mod_nonneg, Z.quot_div_nonneg by lia.
  assert (Hq : (y * w + x) / w = y).
  { symmetry. apply (Z.div_unique_pos _ _ _ x); lia. }
  assert (Hr : (y * w + x) mod w = x).
  { symmetry. apply (Z.mod_unique_pos _ _ y); lia. }
  rewrite Hq, Hr. f_equal.
  apply wrap_in_range.
  unfold Int32.in_range, Int32.min_int, Int32.max_int in *. nia.
Qed.

Lemma toCoords_toIndex_roundtrip_witness :
  PathfindingUtils.toCoords (PathfindingUtils.toIndex 7 3 10) 10 = (7, 3).
Proof.
  apply toCoords_toIndex_roundtrip; unfold Int32.max_int; lia.
Defined.

(** ** The pathfinding loop *)

Lemma GridPoint_eqb_eq (a b : GridPoint) : GridPoint_eqb a b = true <-> a = b.
Proof.
  unfold GridPoint_eqb. destruct a as [ax ay], b as [bx by_]; simpl.
  rewrite andb_true_iff, !Z.eqb_eq. split.
  - intros [-> ->]. reflexivity.
  - intros H. inversion H. split; reflexivity.
Qed.

Lemma GridPoint_eqb_refl (a : GridPoint) : GridPoint_eqb a a = true.
Proof. apply GridPoint_eqb_eq. reflexivity. Qed.

Lemma back_snoc (v : list Z) (x : Z) : back (v ++ [x]) = x.
Proof. unfold back. apply last_last. Qed.

Lemma is_empty_false_app {A : Type} (v w : list A) :
  is_empty w = false -> is_empty (v ++ w) = false.
Proof. destruct v; simpl; [trivial | reflexivity]. Qed.

Section LoopFacts.

Context (B : Backend) (params : BackendInputParams)
  (grid : mapgeo.Grid_V3) (field : ElevationField).


Lemma segment_loop_cons (i : nat) (a b : GridPoint) (rest : list GridPoint)
      (st : LoopState) :
  segment_loop B params grid field i (a :: b :: rest) st =
  match segment_body B params grid field i a b st with
  | Continue st' => segment_loop B params grid field (S i) (b :: rest) st'
  | Break st' => Normal st'
  | Throws what => Raised what
  end.
Proof. reflexivity. Qed.

Lemma log_fold_add (evs : list LogEvent) (st : LoopState) :
  fold_left (fun s ev => add_log ev s) evs st
  = {| full_path_indices := full_path_indices st;
       path_found_for_all_segments := path_found_for_all_segments st;
       errorMsg := errorMsg st;
       log := log st ++ evs |}.
Proof.
  revert st. induction evs as [| ev evs IH]; intros st; simpl.
  - rewrite app_nil_r. destruct st; reflexivity.
  - rewrite IH. simpl. rewrite <- app_assoc. reflexivity.
Qed.

(** A [break] always clears the flag; an iteration that runs to its end
    leaves the flag and the error message alone. *)
Lemma segment_body_break (i : nat) (a b : GridPoint) (st st' : LoopState) :
  segment_body B params grid field i a b st = Break st' ->
  path_found_for_all_segments st' = false
  /\ full_path_indices st' = full_path_indices st.
Proof.
  unfold segment_body.
  destruct (negb (mapgeo.inBounds grid (gp_x a) (gp_y a)) || negb (mapgeo.inBounds grid (gp_x b) (gp_y b))).
  { intros H; inversion H; subst; split; reflexivity. }
  destruct (GridPoint_eqb a b); [discriminate |].
  destruct (call_selected_pathfinder B params grid field a b) as [seg | w]; [| discriminate].
  destruct (is_empty seg).
  - intros H; inversion H; subst; split; reflexivity.
  - destruct (concatenate _ _ _). discriminate.
Qed.

Lemma segment_body_continue (i : nat) (a b : GridPoint) (st st' : LoopState) :
  segment_body B params grid field i a b st = Continue st' ->
  path_found_for_all_segments st' = path_found_for_all_segments st.
Proof.
  unfold segment_body.
  destruct (negb (mapgeo.inBounds grid (gp_x a) (gp_y a)) || negb (mapgeo.inBounds grid (gp_x b) (gp_y b))); [discriminate |].
  destruct (GridPoint_eqb a b).
  { intros H; inversion H; subst.
    destruct (_ || _); reflexivity. }
  destruct (call_selected_pathfinder B params grid field a b) as [seg | w]; [| discriminate].
  destruct (is_empty seg); [discriminate |].
  destruct (concatenate _ _ _) as [joined warnings].
  intros H; inversion H; subst. rewrite log_fold_add. reflexivity.
Qed.

(** Once the flag is cleared the loop has been left: a run that ends
    normally with the flag still set went through all its segments. *)
Lemma segment_loop_flag (wps : list GridPoint) :
  forall i st st',
    segment_loop B params grid field i wps st = Normal st' ->
    path_found_for_all_segments st' = true ->
    path_found_for_all_segments st = true.
Proof.
  induction wps as [| a rest IH]; intros i st st' Hrun Hflag.
  - simpl in Hrun. inversion Hrun; subst. exact Hflag.
  - destruct rest as [| b rest].
    + simpl in Hrun. inversion Hrun; subst. exact Hflag.
    + rewrite segment_loop_cons in Hrun.
      destruct (segment_body B params grid field i a b st) as [st1 | st1 | w] eqn:Hbody.
      * apply segment_body_continue in Hbody. rewrite <- Hbody. eauto.
      * inversion Hrun; subst. apply segment_body_break in Hbody.
        destruct Hbody as [Hf _]. congruence.
      * discriminate.
Qed.

(** Splitting the waypoint list at a waypoint the loop gets past. *)
Lemma segment_loop_app (pre : list GridPoint) :
  forall i a tail st st1,
    segment_loop B params grid field i (pre ++ [a]) st = Normal st1 ->
    path_found_for_all_segments st1 = true ->
    segment_loop B params grid field i (pre ++ a :: tail) st = segment_loop B params grid field (i + length pre) (a :: tail) st1.
Proof.
  induction pre as [| p pre IH]; intros i a tail st st1 Hrun Hflag.
  - simpl in Hrun. inversion Hrun; subst. simpl. rewrite Nat.add_0_r. reflexivity.
  - destruct pre as [| q pre].
    + change ([p] ++ [a]) with [p; a] in Hrun.
      change ([p] ++ a :: tail) with (p :: a :: tail).
      rewrite segment_loop_cons in Hrun.
      change (segment_loop B params grid field i (p :: a :: tail) st) with
        (match segment_body B params grid field i p a st with
         | Continue st' => segment_loop B params grid field (S i) (a :: tail) st'
         | Break st' => Normal st'
         | Throws what => Raised what
         end).
      destruct (segment_body B params grid field i p a st) as [st2 | st2 | w] eqn:Hbody.
      * simpl in Hrun. inversion Hrun; subst.
        replace (i + length [p])%nat with (S i) by (simpl; lia). reflexivity.
      * inversion Hrun; subst. apply segment_body_break in Hbody.
        destruct Hbody as [Hf _]. congruence.
      * discriminate.
    + change ((p :: q :: pre) ++ [a]) with (p :: q :: (pre ++ [a])) in Hrun.
      change ((p :: q :: pre) ++ a :: tail) with (p :: q :: (pre ++ a :: tail)).
      rewrite segment_loop_cons in Hrun. rewrite segment_loop_cons.
      destruct (segment_body B params grid field i p q st) as [st2 | st2 | w] eqn:Hbody.
      * change (q :: pre ++ [a]) with ((q :: pre) ++ [a]) in Hrun.
        change (q :: pre ++ a :: tail) with ((q :: pre) ++ a :: tail).
        rewrite (IH (S i) a tail st2 st1 Hrun Hflag).
        replace (i + length (p :: q :: pre))%nat with (S i + length (q :: pre))%nat
          by (simpl; lia).
        reflexivity.
      * inversion Hrun; subst. apply segment_body_break in Hbody.
        destruct Hbody as [Hf _]. congruence.
      * discriminate.
Qed.

End LoopFacts.

(** ** The [try] block *)


Lemma keeps_path_ret {A : Type} (a : A) : keeps_path (mret a).
Proof. intros r. reflexivity. Qed.

Lemma keeps_path_throw {A : Type} (w : string) : keeps_path (@throw A w).
Proof. intros r. reflexivity. Qed.

Lemma keeps_path_lift {A : Type} (o : outcome A) : keeps_path (lift o).
Proof. intros r. reflexivity. Qed.

Lemma keeps_path_bind {A C : Type} (m : M A) (k : A -> M C) :
  keeps_path m -> (forall a, keeps_path (k a)) -> keeps_path (m ≫= k).
Proof.
  intros Hm Hk r. unfold mbind, M_bind.
  specialize (Hm r). destruct (m r) as [r' [a | w]]; simpl in *.
  - rewrite Hk. exact Hm.
  - exact Hm.
Qed.

Lemma keeps_path_assign (f : BackendResult -> BackendResult) :
  (forall r, fullPathIndices (f r) = fullPathIndices r) -> keeps_path (assign f).
Proof. intros Hf r. apply Hf. Qed.

(** One step of the proof that a computation of [M] leaves the path alone. *)
Ltac keeps_step :=
  first
    [ apply keeps_path_ret
    | apply keeps_path_throw
    | apply keeps_path_lift
    | apply keeps_path_assign; intros; reflexivity
    | apply keeps_path_bind; [| intros ]
    | match goal with
      | |- keeps_path (if ?c then _ else _) => destruct c
      | |- keeps_path (match ?o with Some _ => _ | None => _ end) => destruct o
      | |- keeps_path (let '(_, _) := ?x in _) => destruct x
      | |- keeps_path (match ?x with (_, _) => _ end) => destruct x
      end ].


Lemma scan_map_keeps (B : Backend) (params : BackendInputParams) :
  keeps_path (scan_map B params).
Proof. unfold scan_map. cbv zeta. repeat keeps_step. Qed.

Lemma process_grid_keeps (B : Backend) (params : BackendInputParams) :
  keeps_path (process_grid B params).
Proof. unfold process_grid, regenerate_grid. cbv zeta. repeat keeps_step. Qed.

Lemma prepare_elevation_keeps (B : Backend) (params : BackendInputParams) scan norm mx :
  keeps_path (prepare_elevation B params scan norm mx).
Proof.
  unfold prepare_elevation. destruct scan as [[scanResult canFetch] scale].
  cbv zeta. repeat keeps_step.
Qed.

Lemma prepare_keeps (B : Backend) (params : BackendInputParams) :
  keeps_path (prepare B params).
Proof.
  unfold prepare.
  apply keeps_path_bind; [apply scan_map_keeps | intros scan].
  apply keeps_path_bind; [apply process_grid_keeps | intros [g n]].
  cbv zeta.
  repeat first [ apply prepare_elevation_keeps | keeps_step ].
Qed.

Lemma prepare_path_empty (B : Backend) (params : BackendInputParams) r1 o :
  prepare B params (initial_result params) = (r1, o) -> fullPathIndices r1 = [].
Proof.
  intros H. pose proof (prepare_keeps B params (initial_result params)) as Hk.
  rewrite H in Hk. exact Hk.
Qed.

(** The run after a successful preparation: the loop, then either the
    [catch] handler or "Finalize Result". *)
Lemma processAndFindPath_prepared (B : Backend) (params : BackendInputParams) r1 prep :
  prepare B params (initial_result params) = (r1, Normal prep) ->
  processAndFindPath B params =
  match segment_loop B params (prep_grid prep) (prep_field prep) 0
          (prep_waypoints prep) LoopState_init with
  | Normal st => (finalize (prep_waypoints prep) st r1).1
  | Raised what => catch_exception what r1
  end.
Proof.
  intros Hprep. unfold processAndFindPath, try_block.
  unfold mbind at 1, M_bind at 1. rewrite Hprep.
  unfold mbind, M_bind, lift.
  destruct (segment_loop _ _ _ _ _ _ _) as [st | w]; [| reflexivity].
  destruct (finalize (prep_waypoints prep) st r1) as [r2 [[] | w]] eqn:Hfin.
  - reflexivity.
  - exfalso. unfold finalize in Hfin.
    repeat match type of Hfin with
           | context [if ?c then _ else _] => destruct c
           end; inversion Hfin.
Qed.

(** A run whose loop is left by [break] or by an exception reports a
    failure and returns no path. *)
Lemma processAndFindPath_failed (B : Backend) (params : BackendInputParams) r1 prep :
  prepare B params (initial_result params) = (r1, Normal prep) ->
  (forall st,
      segment_loop B params (prep_grid prep) (prep_field prep) 0
        (prep_waypoints prep) LoopState_init = Normal st ->
      path_found_for_all_segments st = false) ->
  success (processAndFindPath B params) = false
  /\ fullPathIndices (processAndFindPath B params) = [].
Proof.
  intros Hprep Hloop. rewrite (processAndFindPath_prepared _ _ _ _ Hprep).
  destruct (segment_loop _ _ _ _ _ _ _) as [st | w].
  - unfold finalize. rewrite (Hloop st eq_refl). split; reflexivity.
  - split; [reflexivity |]. simpl. eapply prepare_path_empty; eauto.
Qed.

(** ** Joining segment paths *)

(** C5 (as stated, refuted): the one-index segment [[7]] joined onto the
    running result [[3]] has a first index that differs from the last index
    of the result; the whole segment is appended, but no warning is
    emitted. *)
Lemma concatenate_single_mismatch_silent :
  back [3] <> 7 /\ concatenate 2 [3] [7] = ([3; 7], []).
Proof. split; [vm_compute; discriminate | reflexivity]. Qed.

(** C5 (amended): joining a non-empty segment [front :: rest] onto a
    non-empty running result [full]: when [front] equals the last index of
    [full], exactly that index is dropped and [rest] is appended, without a
    warning; otherwise the entire segment is appended, and the warning is
    emitted when the segment has more than one index.  In both cases [full]
    is a prefix of the result and the appended indices keep their order.
    Inside the loop the joined list becomes the running result. *)
Theorem concatenate_join (n : nat) (full : list Z) (front : Z) (rest : list Z) :
  full <> [] ->
  (back full = front ->
   concatenate n full (front :: rest) = (full ++ rest, []))
  /\ (back full <> front ->
      concatenate n full (front :: rest)
      = (full ++ front :: rest,
         if is_empty rest then [] else [LogStartMismatch n]))
  /\ (forall B params grid field i a b st,
         mapgeo.inBounds grid (gp_x a) (gp_y a) = true ->
         mapgeo.inBounds grid (gp_x b) (gp_y b) = true ->
         GridPoint_eqb a b = false ->
         call_selected_pathfinder B params grid field a b = Normal (front :: rest) ->
         full_path_indices st = full ->
         exists st',
           segment_body B params grid field i a b st = Continue st'
           /\ full_path_indices st'
              = (concatenate (i + 1) full (front :: rest)).1).
Proof.
  intros Hfull. destruct full as [| f0 full']; [congruence |].
  split; [| split].
  - intros Hback. unfold concatenate. fold (back (f0 :: full')).
    rewrite Hback, Z.eqb_refl.
    destruct rest as [| r rest']; simpl.
    + rewrite app_nil_r. reflexivity.
    + reflexivity.
  - intros Hback. unfold concatenate. fold (back (f0 :: full')).
    apply Z.eqb_neq in Hback. rewrite Hback.
    rewrite !andb_false_r. simpl negb. rewrite andb_true_r.
    destruct rest as [| r rest']; reflexivity.
  - intros B params grid field i a b st Ha Hb Hab Hcall Hst.
    unfold segment_body. rewrite Ha, Hb, Hab, Hcall. simpl negb. simpl orb.
    cbv iota. simpl is_empty. cbv iota.
    change (full_path_indices (add_log _ (add_log _ st))) with (full_path_indices st).
    rewrite Hst.
    destruct (concatenate (i + 1) (f0 :: full') (front :: rest)) as [joined warnings] eqn:Hc.
    eexists. split; [reflexivity |].
    rewrite log_fold_add. reflexivity.
Qed.

Lemma concatenate_join_witness :
  concatenate 2 [4; 5; 6] [6; 7; 8] = ([4; 5; 6; 7; 8], [])
  /\ concatenate 2 [4; 5; 6] [9; 7; 8] = ([4; 5; 6; 9; 7; 8], [LogStartMismatch 2]).
Proof.
  split.
  - apply (proj1 (concatenate_join 2 [4; 5; 6] 6 [7; 8] ltac:(discriminate))).
    reflexivity.
  - apply (proj1 (proj2 (concatenate_join 2 [4; 5; 6] 9 [7; 8] ltac:(discriminate)))).
    vm_compute. discriminate.
Defined.

(** ** Segments whose two endpoints coincide *)

(** C6: a segment from a cell [p] of the grid to itself is not searched; it
    contributes the single index [toIndex p] to the running result, which is
    therefore never empty afterwards and ends with that index; when the
    running result already ends with that index it is left as it is, so the
    index is not duplicated, and otherwise the index is appended.  The index
    is the row-major [y * W + x] whenever that fits an [int]. *)
Theorem identical_points_segment (B : Backend) (params : BackendInputParams)
        (grid : mapgeo.Grid_V3) (field : ElevationField)
        (i : nat) (p : GridPoint) (rest : list GridPoint) (st : LoopState) :
  mapgeo.inBounds grid (gp_x p) (gp_y p) = true ->
  let pointIndex := PathfindingUtils.toIndex (gp_x p) (gp_y p) (mapgeo.width grid) in
  exists st',
    segment_body B params grid field i p p st = Continue st'
    /\ segment_loop B params grid field i (p :: p :: rest) st
       = segment_loop B params grid field (S i) (p :: rest) st'
    /\ full_path_indices st' <> []
    /\ back (full_path_indices st') = pointIndex
    /\ (full_path_indices st <> [] -> back (full_path_indices st) = pointIndex ->
        full_path_indices st' = full_path_indices st)
    /\ (full_path_indices st = [] \/ back (full_path_indices st) <> pointIndex ->
        full_path_indices st' = full_path_indices st ++ [pointIndex])
    /\ path_found_for_all_segments st' = path_found_for_all_segments st
    /\ log st' = log st ++ [LogCalculatingSegment (i + 1) p p; LogIdenticalPoints]
    /\ (gp_y p * mapgeo.width grid + gp_x p <= Int32.max_int ->
        pointIndex = gp_y p * mapgeo.width grid + gp_x p).
Proof.
  intros Hin pointIndex.
  assert (Hidx : gp_y p * mapgeo.width grid + gp_x p <= Int32.max_int ->
                 pointIndex = gp_y p * mapgeo.width grid + gp_x p).
  { intros Hmax. unfold pointIndex. unfold mapgeo.inBounds in Hin.
    apply andb_true_iff in Hin. destruct Hin as [Hin Hyh].
    apply andb_true_iff in Hin. destruct Hin as [Hin Hy0].
    apply andb_true_iff in Hin. destruct Hin as [Hx0 Hxw].
    apply Z.leb_le in Hx0, Hy0. apply Z.ltb_lt in Hxw.
    apply toIndex_exact; lia. }
  assert (Hbody : exists st',
             segment_body B params grid field i p p st = Continue st'
             /\ full_path_indices st'
                = (if is_empty (full_path_indices st)
                      || negb (back (full_path_indices st) =? pointIndex)
                   then full_path_indices st ++ [pointIndex]
                   else full_path_indices st)
             /\ path_found_for_all_segments st' = path_found_for_all_segments st
             /\ log st' = log st ++ [LogCalculatingSegment (i + 1) p p; LogIdenticalPoints]).
  { unfold segment_body. rewrite Hin, GridPoint_eqb_refl. simpl negb. simpl orb. cbv iota.
    eexists. split; [reflexivity |].
    change (full_path_indices (add_log _ (add_log _ st))) with (full_path_indices st).
    fold pointIndex.
    destruct (is_empty (full_path_indices st)
              || negb (back (full_path_indices st) =? pointIndex));
      simpl; rewrite <- app_assoc; repeat split; reflexivity. }
  destruct Hbody as (st' & Hbody & Hpath & Hflag & Hlog).
  exists st'. split; [exact Hbody |]. split.
  { rewrite segment_loop_cons, Hbody. reflexivity. }
  rewrite Hpath.
  destruct (full_path_indices st) as [| f0 full'] eqn:Hfull.
  - simpl. repeat split; try (exact Hflag || exact Hlog || exact Hidx); try congruence.
  - simpl is_empty. simpl orb.
    destruct (Z.eqb_spec (back (f0 :: full')) pointIndex) as [Heq | Hne]; simpl negb; cbv iota.
    + repeat split; try (exact Hflag || exact Hlog || exact Hidx); try congruence.
      intros [Habs | Habs]; congruence.
    + repeat split; try (exact Hflag || exact Hlog || exact Hidx); try congruence.
      * intros Habs. destruct full'; discriminate.
      * apply back_snoc.
Qed.

Lemma identical_points_segment_witness :
  exists st',
    segment_body (demo_backend demo_scan_no_scale [] demo_elevation_default false)
      (demo_params ∅ "Dijkstra") (demo_grid 4 4 ∅)
      (mkField [] 0 0 (F32.of_int 1) (F32.of_int 1) (S754_zero false) (S754_zero false))
      0 (mkGridPoint 1 1) (mkGridPoint 1 1) LoopState_init = Continue st'
    /\ full_path_indices st' = [5].
Proof.
  destruct (identical_points_segment
              (demo_backend demo_scan_no_scale [] demo_elevation_default false)
              (demo_params ∅ "Dijkstra") (demo_grid 4 4 ∅)
              (mkField [] 0 0 (F32.of_int 1) (F32.of_int 1) (S754_zero false) (S754_zero false))
              0 (mkGridPoint 1 1) [] LoopState_init eq_refl)
    as (st' & Hbody & _ & _ & _ & _ & Happ & _).
  exists st'. split; [exact Hbody |].
  rewrite Happ; [reflexivity | left; reflexivity].
Defined.

(** ** A segment without a path *)

(** C4: when the loop reaches a segment (from [a] to [b], after the
    waypoints [pre]) whose search returns the empty path, it leaves the loop
    at once: the final loop state does not depend on the waypoints [rest]
    that follow, its log ends with the "path not found" message of that
    segment, and the run returns [success = false], the message of that
    segment and an empty [fullPathIndices], whatever the earlier segments
    had contributed. *)
Theorem segment_not_found_aborts (B : Backend) (params : BackendInputParams)
        (r1 : BackendResult) (prep : Prepared)
        (pre : list GridPoint) (a b : GridPoint) (rest : list GridPoint)
        (st1 : LoopState) :
  prepare B params (initial_result params) = (r1, Normal prep) ->
  prep_waypoints prep = pre ++ a :: b :: rest ->
  segment_loop B params (prep_grid prep) (prep_field prep) 0 (pre ++ [a]) LoopState_init
    = Normal st1 ->
  path_found_for_all_segments st1 = true ->
  mapgeo.inBounds (prep_grid prep) (gp_x a) (gp_y a) = true ->
  mapgeo.inBounds (prep_grid prep) (gp_x b) (gp_y b) = true ->
  GridPoint_eqb a b = false ->
  call_selected_pathfinder B params (prep_grid prep) (prep_field prep) a b = Normal [] ->
  let k := (length pre + 1)%nat in
  segment_loop B params (prep_grid prep) (prep_field prep) 0
    (prep_waypoints prep) LoopState_init
  = Normal {| full_path_indices := full_path_indices st1;
              path_found_for_all_segments := false;
              errorMsg := MsgPathNotFound k a b;
              log := log st1 ++ [LogCalculatingSegment k a b; LogSegmentTook k;
                                 LogPathNotFound k] |}
  /\ success (processAndFindPath B params) = false
  /\ errorMessage (processAndFindPath B params) = MsgPathNotFound k a b
  /\ fullPathIndices (processAndFindPath B params) = [].
Proof.
  intros Hprep Hwps Hpre Hflag Ha Hb Hab Hcall k.
  assert (Hloop :
            segment_loop B params (prep_grid prep) (prep_field prep) 0
              (prep_waypoints prep) LoopState_init
            = Normal {| full_path_indices := full_path_indices st1;
                        path_found_for_all_segments := false;
                        errorMsg := MsgPathNotFound k a b;
                        log := log st1 ++ [LogCalculatingSegment k a b; LogSegmentTook k;
                                           LogPathNotFound k] |}).
  { rewrite Hwps.
    rewrite (segment_loop_app B params _ _ pre 0 a (b :: rest) _ st1 Hpre Hflag).
    rewrite segment_loop_cons. unfold segment_body.
    rewrite Ha, Hb, Hab, Hcall. simpl.
    unfold add_log, fail_with; simpl. rewrite <- !app_assoc. reflexivity. }
  split; [exact Hloop |].
  rewrite (processAndFindPath_prepared _ _ _ _ Hprep), Hloop.
  unfold finalize. simpl. repeat split; reflexivity.
Qed.

(** ** Waypoints outside the grid or on impassable cells *)

Section InvalidWaypoints.

Context (B : Backend) (params : BackendInputParams)
        (grid : mapgeo.Grid_V3) (field : ElevationField).
Context (Hreject : pathfinders_reject_impassable B).


Lemma call_selected_pathfinder_impassable (a b : GridPoint) :
  mapgeo.is_impassable grid a = true \/ mapgeo.is_impassable grid b = true ->
  call_selected_pathfinder B params grid field a b = Normal []
  \/ exists w, call_selected_pathfinder B params grid field a b = Raised w.
Proof.
  intros Himp.
  destruct (Hreject grid field a b (heuristicType params) Himp)
    as (H1 & H2 & H3 & H4 & H5).
  unfold call_selected_pathfinder.
  repeat match goal with
         | |- context [if ?c then _ else _] => destruct c
         end;
    rewrite ?H1, ?H2, ?H3, ?H4, ?H5; eauto.
Qed.

Lemma segment_body_blocking (i : nat) (a b : GridPoint) (st st' : LoopState) :
  blocking_pair grid a b ->
  segment_body B params grid field i a b st <> Continue st'.
Proof.
  intros Hblock. unfold segment_body.
  destruct (mapgeo.inBounds grid (gp_x a) (gp_y a)) eqn:Ha; [| simpl; discriminate].
  destruct (mapgeo.inBounds grid (gp_x b) (gp_y b)) eqn:Hb; [| simpl; discriminate].
  simpl negb. simpl orb. cbv iota.
  destruct Hblock as [Habs | [Habs | [Hne Himp]]]; try congruence.
  destruct (GridPoint_eqb a b) eqn:Hab.
  { apply GridPoint_eqb_eq in Hab. contradiction. }
  destruct (call_selected_pathfinder_impassable a b Himp) as [Hcall | [w Hcall]];
    rewrite Hcall; simpl; discriminate.
Qed.

Lemma segment_loop_blocking (wps : list GridPoint) :
  forall i st st',
    (exists pre a b rest, wps = pre ++ a :: b :: rest /\ blocking_pair grid a b) ->
    segment_loop B params grid field i wps st = Normal st' ->
    path_found_for_all_segments st' = false.
Proof.
  induction wps as [| x wps IH]; intros i st st' (pre & a & b & rest & Hwps & Hblock) Hrun.
  { destruct pre; discriminate. }
  destruct wps as [| y wps].
  { destruct pre as [| ? [| ? ?]]; discriminate. }
  rewrite segment_loop_cons in Hrun.
  destruct (segment_body B params grid field i x y st) as [st2 | st2 | w] eqn:Hbody.
  - destruct pre as [| p pre].
    + simpl in Hwps. inversion Hwps; subst.
      exfalso. eapply segment_body_blocking; eauto.
    + simpl in Hwps. inversion Hwps; subst.
      eapply (IH (S i) st2 st'); [| exact Hrun].
      exists pre, a, b, rest. split; [assumption | exact Hblock].
  - inversion Hrun; subst. apply segment_body_break in Hbody. tauto.
  - discriminate.
Qed.

End InvalidWaypoints.

Lemma adjacent_of_elem (p : GridPoint) (wps : list GridPoint) :
  p ∈ wps -> (2 <= length wps)%nat ->
  exists pre a b rest, wps = pre ++ a :: b :: rest /\ (a = p \/ b = p).
Proof.
  induction wps as [| x wps IH]; intros Hin Hlen; [inversion Hin |].
  destruct wps as [| y wps]; [simpl in Hlen; lia |].
  apply elem_of_cons in Hin. destruct Hin as [-> | Hin].
  - exists [], x, y, wps. split; [reflexivity | left; reflexivity].
  - apply elem_of_cons in Hin. destruct Hin as [-> | Hin].
    + exists [], x, y, wps. split; [reflexivity | right; reflexivity].
    + destruct wps as [| z wps]; [inversion Hin |].
      destruct IH as (pre & a & b & rest & Heq & Hab).
      * right. exact Hin.
      * simpl. lia.
      * exists (x :: pre), a, b, rest. split; [simpl; rewrite Heq; reflexivity | exact Hab].
Qed.

Lemma adjacent_of_distinct (p q : GridPoint) (wps : list GridPoint) :
  p ∈ wps -> q ∈ wps -> q <> p ->
  exists pre a b rest, wps = pre ++ a :: b :: rest /\ a <> b /\ (a = p \/ b = p).
Proof.
  revert q. induction wps as [| x wps IH]; intros q Hp Hq Hne; [inversion Hp |].
  destruct wps as [| y wps].
  { apply list_elem_of_singleton in Hp, Hq. congruence. }
  destruct (decide (x = p)) as [Hx | Hx]; destruct (decide (y = p)) as [Hy | Hy].
  - subst x. apply elem_of_cons in Hq. destruct Hq as [Hq | Hq]; [congruence |].
    destruct (IH q) as (pre & a & b & rest & Heq & Hab & Hp'); auto.
    { rewrite <- Hy. left. }
    exists (p :: pre), a, b, rest. split; [simpl; rewrite Heq; reflexivity | auto].
  - exists [], x, y, wps. split; [reflexivity |]. split; [congruence | left; exact Hx].
  - exists [], x, y, wps. split; [reflexivity |]. split; [congruence | right; exact Hy].
  - apply elem_of_cons in Hp. destruct Hp as [Hp | Hp]; [congruence |].
    destruct (IH y) as (pre & a & b & rest & Heq & Hab & Hp'); auto.
    { left. }
    exists (x :: pre), a, b, rest. split; [simpl; rewrite Heq; reflexivity | auto].
Qed.


Lemma ensures_bind {A C : Type} (m : M A) (k : A -> M C) (P : A -> Prop) (Q : C -> Prop) :
  ensures m P -> (forall a, P a -> ensures (k a) Q) -> ensures (m ≫= k) Q.
Proof.
  intros Hm Hk r r' c. unfold mbind, M_bind.
  destruct (m r) as [r1 [a | w]] eqn:Hmr; [| discriminate].
  intros Hka. eapply Hk; eauto.
Qed.

Lemma ensures_any {A : Type} (m : M A) : ensures m (fun _ => True).
Proof. intros r r' a _. exact I. Qed.

Lemma ensures_ret {A : Type} (a : A) (Q : A -> Prop) : Q a -> ensures (mret a) Q.
Proof. intros HQ r r' a' H. inversion H; subst. exact HQ. Qed.

Lemma ensures_throw {A : Type} (w : string) (Q : A -> Prop) : ensures (throw w) Q.
Proof. intros r r' a H. discriminate. Qed.

Lemma prepare_waypoints_length (B : Backend) (params : BackendInputParams) :
  ensures (prepare B params) (fun prep => (2 <= length (prep_waypoints prep))%nat).
Proof.
  unfold prepare.
  eapply ensures_bind; [apply ensures_any | intros scan _].
  eapply ensures_bind; [apply ensures_any | intros [g n] _].
  eapply ensures_bind; [apply ensures_any | intros _ _].
  eapply ensures_bind; [apply ensures_any | intros _ _].
  eapply ensures_bind; [apply ensures_any | intros _ _].
  eapply ensures_bind; [apply ensures_any | intros norm _].
  cbv zeta.
  eapply (ensures_bind _ _ (fun w => (2 <= length w)%nat)).
  - destruct (extractWaypointsFromFile B _ _ _ _ _ _ _) as [w |].
    + destruct (Nat.ltb_spec (length w) 2).
      * apply ensures_throw.
      * apply ensures_ret. assumption.
    + apply ensures_throw.
  - intros wps Hlen.
    eapply ensures_bind; [apply ensures_any | intros _ _].
    eapply ensures_bind; [apply ensures_any | intros fld _].
    eapply ensures_bind; [apply ensures_any | intros grid _].
    apply ensures_ret. exact Hlen.
Qed.

(** C2 (as stated, refuted): on a grid whose cells are all [IMPASSABLE],
    with pathfinders that return the empty path for an impassable endpoint,
    the two waypoints [(1,1)] and [(1,1)] lie on an impassable cell, yet the
    run succeeds and returns the path [[5]]. *)
Lemma impassable_identical_waypoints_succeed :
  pathfinders_reject_impassable same_cell_backend
  /\ (exists r1 prep,
         prepare same_cell_backend (demo_params all_impassable_costs "Dijkstra")
                 (initial_result (demo_params all_impassable_costs "Dijkstra"))
         = (r1, Normal prep)
         /\ prep_waypoints prep = [mkGridPoint 1 1; mkGridPoint 1 1]
         /\ mapgeo.is_impassable (prep_grid prep) (mkGridPoint 1 1) = true)
  /\ success (processAndFindPath same_cell_backend
                (demo_params all_impassable_costs "Dijkstra")) = true
  /\ fullPathIndices (processAndFindPath same_cell_backend
                        (demo_params all_impassable_costs "Dijkstra")) = [5].
Proof.
  split.
  { intros g f a b h Himp. simpl.
    assert (Hd : demo_find_path g a b = []).
    { unfold demo_find_path.
      destruct Himp as [-> | ->]; rewrite ?orb_true_r; reflexivity. }
    rewrite Hd. repeat split; reflexivity. }
  split.
  { eexists _, _. split; [vm_compute; reflexivity |].
    split; vm_compute; reflexivity. }
  split; vm_compute; reflexivity.
Qed.

(** C2 (amended): in a run whose preparation steps succeed, with pathfinders
    that return the empty path for an impassable endpoint: if some waypoint
    is outside the grid, or some waypoint lies on an [IMPASSABLE] cell and
    the waypoints are not all that same point, the run returns
    [success = false] and an empty path.  An endpoint outside the grid is
    reported for its segment by the loop body itself, before that segment is
    searched. *)
Theorem invalid_waypoint_fails (B : Backend) (params : BackendInputParams)
        (r1 : BackendResult) (prep : Prepared) :
  pathfinders_reject_impassable B ->
  prepare B params (initial_result params) = (r1, Normal prep) ->
  (exists p, p ∈ prep_waypoints prep
             /\ mapgeo.inBounds (prep_grid prep) (gp_x p) (gp_y p) = false)
  \/ (exists p q, p ∈ prep_waypoints prep /\ q ∈ prep_waypoints prep /\ q <> p
                  /\ mapgeo.is_impassable (prep_grid prep) p = true) ->
  (success (processAndFindPath B params) = false
   /\ fullPathIndices (processAndFindPath B params) = [])
  /\ (forall i a b st,
         mapgeo.inBounds (prep_grid prep) (gp_x a) (gp_y a) = false
         \/ mapgeo.inBounds (prep_grid prep) (gp_x b) (gp_y b) = false ->
         segment_body B params (prep_grid prep) (prep_field prep) i a b st
         = Break (add_log (LogOutOfBounds (i + 1))
                    (fail_with (MsgSegmentOutOfBounds (i + 1) a b
                                  (mapgeo.width (prep_grid prep))
                                  (mapgeo.height (prep_grid prep)))
                       (add_log (LogCalculatingSegment (i + 1) a b) st)))).
Proof.
  intros Hreject Hprep Hbad. split.
  - apply (processAndFindPath_failed _ _ _ _ Hprep). intros st Hrun.
    eapply (segment_loop_blocking B params (prep_grid prep) (prep_field prep) Hreject);
      [| exact Hrun].
    pose proof (prepare_waypoints_length B params _ _ _ Hprep) as Hlen. simpl in Hlen.
    destruct Hbad as [(p & Hp & Hout) | (p & q & Hp & Hq & Hne & Himp)].
    + destruct (adjacent_of_elem p _ Hp Hlen) as (pre & a & b & rest & Heq & Hab).
      exists pre, a, b, rest. split; [exact Heq |].
      unfold blocking_pair. destruct Hab as [-> | ->]; auto.
    + destruct (adjacent_of_distinct p q _ Hp Hq Hne) as (pre & a & b & rest & Heq & Hab & Hp').
      exists pre, a, b, rest. split; [exact Heq |].
      unfold blocking_pair. right. right. split; [exact Hab |].
      destruct Hp' as [-> | ->]; auto.
  - intros i a b st Hout. unfold segment_body.
    destruct Hout as [-> | ->]; rewrite ?orb_true_r; reflexivity.
Qed.

Lemma demo_rejects_impassable scan wps fetched conv :
  pathfinders_reject_impassable (demo_backend scan wps fetched conv).
Proof.
  intros g f a b h Himp. simpl.
  assert (Hd : demo_find_path g a b = []).
  { unfold demo_find_path.
    destruct Himp as [-> | ->]; rewrite ?orb_true_r; reflexivity. }
  rewrite Hd. repeat split; reflexivity.
Qed.

Lemma invalid_waypoint_fails_witness :
  success (processAndFindPath outside_backend (demo_params ∅ "Dijkstra")) = false
  /\ fullPathIndices (processAndFindPath outside_backend (demo_params ∅ "Dijkstra")) = [].
Proof.
  eapply (invalid_waypoint_fails outside_backend (demo_params ∅ "Dijkstra")).
  - apply demo_rejects_impassable.
  - vm_compute. reflexivity.
  - left. exists (mkGridPoint 1 4). split; [| reflexivity].
    simpl. right. right. left.
Defined.

Lemma segment_not_found_aborts_witness :
  success (processAndFindPath blocked_backend
             (demo_params all_impassable_costs "Dijkstra")) = false
  /\ errorMessage (processAndFindPath blocked_backend
                     (demo_params all_impassable_costs "Dijkstra"))
     = MsgPathNotFound 2 (mkGridPoint 1 1) (mkGridPoint 2 2)
  /\ fullPathIndices (processAndFindPath blocked_backend
                        (demo_params all_impassable_costs "Dijkstra")) = [].
Proof.
  eapply (segment_not_found_aborts blocked_backend
            (demo_params all_impassable_costs "Dijkstra") _ _
            [mkGridPoint 1 1] (mkGridPoint 1 1) (mkGridPoint 2 2) [mkGridPoint 3 3]).
  - vm_compute. reflexivity.
  - reflexivity.
  - vm_compute. reflexivity.
  - reflexivity.
  - reflexivity.
  - reflexivity.
  - reflexivity.
  - vm_compute. reflexivity.
Defined.

(** ** Reuse of the previous grid *)

(** C3 (as stated, refuted): after a calculation with the obstacle costs
    ["201: 5"], the costs are changed to ["201: -1"] (every cell would become
    [IMPASSABLE]) while map path and grid size stay the same.  The second
    calculation asks for reuse, returns the first grid unchanged instead of
    the grid the new costs rasterise to, and finds a path through it. *)
Lemma changed_costs_reuse_grid :
  exists params1 params2 result1 result2,
    onCalculatePathClicked demo_stof (fun _ => true) (Impl_new (demo_widgets "201: 5"))
      = Some params1
    /\ first_run.2 = Some result1
    /\ second_click = Some params2
    /\ second_run.2 = Some result2
    /\ obstacleCosts params1 <> obstacleCosts params2
    /\ mapFilePath params1 = mapFilePath params2
    /\ desiredGridWidth params1 = desiredGridWidth params2
    /\ desiredGridHeight params1 = desiredGridHeight params2
    /\ reuseGridIfPossible params2 = true
    /\ processedGrid result2 = processedGrid result1
    /\ processedGrid result2 <> Some (demo_grid 4 4 (obstacleCosts params2))
    /\ success result2 = true.
Proof.
  eexists _, _, _, _.
  split; [vm_compute; reflexivity |].
  split; [vm_compute; reflexivity |].
  split; [vm_compute; reflexivity |].
  split; [vm_compute; reflexivity |].
  split.
  { intros Heq. apply (f_equal (fun m => m !! "201")) in Heq.
    vm_compute in Heq. discriminate. }
  repeat (split; [reflexivity |]).
  split; [| reflexivity].
  vm_compute. discriminate.
Qed.

(** C3 (amended): the parameters [onCalculatePathClicked] builds ask for
    reuse exactly when a grid is stored and the map file path, the requested
    width and the requested height equal those of the previous run; the
    obstacle costs are not compared.  The backend then skips loading and
    rasterising (it returns the stored grid and normalization record without
    calling the map processor) exactly when, in addition, a normalization
    record is stored; in every other case it regenerates the grid. *)
Theorem grid_reuse_decision (stof : list ascii -> option spec_float)
        (isFile : string -> bool) (B : Backend)
        (m_impl : Impl) (params : BackendInputParams) :
  onCalculatePathClicked stof isFile m_impl = Some params ->
  let same_request :=
    has_value (lastProcessedGrid m_impl) = true
    /\ currentMapFilePath m_impl = mapFilePath params
    /\ lastGridWidth m_impl = desiredGridWidth params
    /\ lastGridHeight m_impl = desiredGridHeight params in
  (reuseGridIfPossible params = true <-> same_request)
  /\ (same_request /\ has_value (lastNormalizationInfo m_impl) = true ->
      process_grid B params
      = mret (lastProcessedGrid m_impl, lastNormalizationInfo m_impl))
  /\ (~ (same_request /\ has_value (lastNormalizationInfo m_impl) = true) ->
      process_grid B params = regenerate_grid B params).
Proof.
  unfold onCalculatePathClicked. intros Hclick.
  destruct (isCalculating m_impl); [discriminate |].
  destruct (parseObstacleCosts stof _) as [parsed costs].
  destruct (negb parsed); [discriminate |].
  destruct (_ || _); [discriminate |].
  destruct (negb (isFile (mapLineEdit _))); [discriminate |].
  destruct (negb (isFile (controlsLineEdit _))); [discriminate |].
  unfold check_grid_reuse in Hclick.
  destruct (has_value (lastProcessedGrid m_impl)) eqn:Hgrid;
    destruct (String.eqb_spec (currentMapFilePath m_impl) (mapLineEdit (widgets m_impl)))
      as [Hpath | Hpath];
    destruct (Z.eqb_spec (lastGridWidth m_impl) (gridWidthSpinBox (widgets m_impl)))
      as [Hw | Hw];
    destruct (Z.eqb_spec (lastGridHeight m_impl) (gridHeightSpinBox (widgets m_impl)))
      as [Hh | Hh];
    simpl in Hclick; inversion Hclick; subst params; clear Hclick;
      unfold process_grid; simpl;
        try (split; [split; [discriminate | intros (? & ? & ? & ?); congruence] |];
             split; [intros [(? & ? & ? & ?) _]; congruence | reflexivity]).
  split; [tauto |]. rewrite Hgrid. simpl.
  destruct (has_value (lastNormalizationInfo m_impl)) eqn:Hnorm.
  - split; [reflexivity | intros Hnot; exfalso; apply Hnot; tauto].
  - split; [intros [_ Habs]; discriminate | reflexivity].
Qed.

Lemma grid_reuse_decision_witness :
  exists params,
    second_click = Some params
    /\ reuseGridIfPossible params = true
    /\ process_grid two_point_backend params
       = mret (lastProcessedGrid first_run.1, lastNormalizationInfo first_run.1).
Proof.
  destruct second_click as [params |] eqn:Hclick; [| vm_compute in Hclick; discriminate].
  exists params. split; [reflexivity |].
  pose proof (grid_reuse_decision demo_stof (fun _ => true) two_point_backend
                (edit_widgets (demo_widgets "201: -1") first_run.1) params Hclick)
    as (Hflag & Hreuse & _).
  assert (Hsame : has_value (lastProcessedGrid
                               (edit_widgets (demo_widgets "201: -1") first_run.1)) = true
                  /\ currentMapFilePath (edit_widgets (demo_widgets "201: -1") first_run.1)
                     = mapFilePath params
                  /\ lastGridWidth (edit_widgets (demo_widgets "201: -1") first_run.1)
                     = desiredGridWidth params
                  /\ lastGridHeight (edit_widgets (demo_widgets "201: -1") first_run.1)
                     = desiredGridHeight params).
  { unfold second_click in Hclick. vm_compute in Hclick.
    inversion Hclick; subst params. repeat split; vm_compute; reflexivity. }
  split.
  - apply Hflag. exact Hsame.
  - apply Hreuse. split; [exact Hsame | vm_compute; reflexivity].
Defined.

(** ** The fallback elevation field *)

(** When the anchor conversion fails the loop receives the uniform field:
    [4 * 4] values of [100.0f], cell size equal to the logical cell
    resolution ([10] metres here), zero offsets. *)
Lemma conversion_failed_uniform_field :
  exists r1 prep,
    prepare two_point_backend (demo_params ∅ "Dijkstra")
            (initial_result (demo_params ∅ "Dijkstra")) = (r1, Normal prep)
    /\ prep_field prep = uniform_field 4 4 (F32.of_int 10)
    /\ usedDummyElevation r1 = true.
Proof. eexists _, _. split; [vm_compute; reflexivity |]. split; reflexivity. Qed.

(** C7 (the code departs from the claim): [useRealElevation] starts as
    [true], although its comment says "Assume dummy unless successfully
    fetched", and is never cleared when the fetch is skipped or fails.
    - Fetch not attempted (the map has no scale), anchor conversion
      succeeding: the pathfinders receive the default-constructed elevation
      data (no values, [0 x 0]) and [usedDummyElevation] is [false].
    - Fetch attempted and failed, anchor conversion succeeding: the same,
      with the data of the failed fetch.
    - Fetch not attempted because the map has no reference point: the
      unchecked [refLatLon.value()] throws and the run fails.
    In none of the three runs is the uniform [100.0] field built. *)
Theorem elevation_fallback_skipped :
  (exists r1 prep,
      prepare not_fetched_backend (demo_params ∅ "Dijkstra")
              (initial_result (demo_params ∅ "Dijkstra")) = (r1, Normal prep)
      /\ mapscan.mapScale demo_scan_no_scale = None
      /\ elevation_values (prep_field prep) = []
      /\ elevation_width (prep_field prep) = 0
      /\ elevation_height (prep_field prep) = 0
      /\ prep_field prep <> uniform_field 4 4 (log_cell_resolution (prep_field prep))
      /\ usedDummyElevation r1 = false)
  /\ (exists r1 prep,
         prepare fetch_failed_backend (demo_params ∅ "Dijkstra")
                 (initial_result (demo_params ∅ "Dijkstra")) = (r1, Normal prep)
         /\ ElevationFetcher.success demo_fetch_failed = false
         /\ elevation_values (prep_field prep) = []
         /\ prep_field prep <> uniform_field 4 4 (log_cell_resolution (prep_field prep))
         /\ usedDummyElevation r1 = false)
  /\ (success (processAndFindPath bounds_only_backend (demo_params ∅ "Dijkstra")) = false
      /\ errorMessage (processAndFindPath bounds_only_backend (demo_params ∅ "Dijkstra"))
         = MsgBackendError "bad optional access").
Proof.
  split; [| split].
  - eexists _, _. split; [vm_compute; reflexivity |].
    repeat (split; [reflexivity |]).
    split; [vm_compute; discriminate | reflexivity].
  - eexists _, _. split; [vm_compute; reflexivity |].
    repeat (split; [reflexivity |]).
    split; [vm_compute; discriminate | reflexivity].
  - split; vm_compute; reflexivity.
Qed.

(** ** Obstacle-cost parsing *)

Section Strip.

Context (chars : list ascii).

Lemma isin_true (c : ascii) : cxx.isin c chars = true <-> c ∈ chars.
Proof. unfold cxx.isin. apply bool_decide_eq_true. Qed.

Lemma isin_false (c : ascii) : cxx.isin c chars = false <-> c ∉ chars.
Proof. unfold cxx.isin. apply bool_decide_eq_false. Qed.

Lemma erase_front_find (s : list ascii) :
  cxx.erase_front (cxx.find_first_not_of chars s) s = strip_front chars s.
Proof.
  induction s as [| c s IH]; simpl; [reflexivity |].
  destruct (cxx.isin c chars); [| reflexivity].
  rewrite <- IH. destruct (cxx.find_first_not_of chars s); reflexivity.
Qed.

Lemma find_first_not_of_None (s : list ascii) :
  cxx.find_first_not_of chars s = None -> strip_front chars s = [].
Proof.
  intros H. rewrite <- erase_front_find, H. reflexivity.
Qed.

Lemma find_first_not_of_Some (s : list ascii) (k : nat) :
  cxx.find_first_not_of chars s = Some k ->
  (k < length s)%nat /\ strip_front chars s = drop k s.
Proof.
  revert k. induction s as [| c s IH]; intros k; simpl; [discriminate |].
  destruct (cxx.isin c chars).
  - destruct (cxx.find_first_not_of chars s) as [k' |]; simpl; [| discriminate].
    intros H. inversion H; subst. destruct (IH k' eq_refl) as [Hlt Heq].
    split; [lia | exact Heq].
  - intros H. inversion H; subst. split; [lia | reflexivity].
Qed.

Lemma erase_after_find (s : list ascii) :
  cxx.erase_after (cxx.find_last_not_of chars s) s = strip_back chars s.
Proof.
  unfold cxx.find_last_not_of, strip_back.
  destruct (cxx.find_first_not_of chars (rev s)) as [k |] eqn:Hfind; simpl.
  - destruct (find_first_not_of_Some _ _ Hfind) as [Hlt Heq].
    rewrite Heq. rewrite length_rev in Hlt.
    rewrite skipn_rev, rev_involutive.
    f_equal. lia.
  - rewrite (find_first_not_of_None _ Hfind). reflexivity.
Qed.

Lemma trim_strip (s : list ascii) :
  trim chars s = strip_back chars (strip_front chars s).
Proof. unfold trim. rewrite erase_front_find, erase_after_find. reflexivity. Qed.

Lemma strip_front_blank (b s : list ascii) :
  blank chars b -> strip_front chars (b ++ s) = strip_front chars s.
Proof.
  induction 1 as [| c b Hc Hb IH]; simpl; [reflexivity |].
  apply isin_true in Hc. rewrite Hc. exact IH.
Qed.

Lemma strip_front_all (b : list ascii) : blank chars b -> strip_front chars b = [].
Proof.
  intros Hb. rewrite <- (app_nil_r b). rewrite strip_front_blank by assumption. reflexivity.
Qed.

Lemma strip_front_keep (c : ascii) (s : list ascii) :
  c ∉ chars -> strip_front chars (c :: s) = c :: s.
Proof. intros Hc. simpl. apply isin_false in Hc. rewrite Hc. reflexivity. Qed.

Lemma strip_back_blank (s b : list ascii) :
  blank chars b -> strip_back chars (s ++ b) = strip_back chars s.
Proof.
  intros Hb. unfold strip_back. rewrite rev_app_distr.
  rewrite strip_front_blank; [reflexivity |].
  unfold blank in *. rewrite Forall_forall in Hb |- *. intros c Hc.
  apply Hb. apply list_elem_of_In. apply In_rev. apply list_elem_of_In in Hc.
  exact Hc.
Qed.


Lemma strip_back_keep (s : list ascii) (c : ascii) :
  c ∉ chars -> strip_back chars (s ++ [c]) = s ++ [c].
Proof.
  intros Hc. unfold strip_back. rewrite rev_app_distr. simpl rev at 2.
  change ([c] ++ rev s) with (c :: rev s).
  rewrite strip_front_keep by assumption.
  simpl. rewrite rev_involutive. reflexivity.
Qed.

(** Stripping the back leaves a non-blank head in place. *)
Lemma strip_back_cons (c : ascii) (s : list ascii) :
  c ∉ chars -> strip_back chars (c :: s) = c :: strip_back chars s.
Proof.
  intros Hc. induction s as [| d s IH] using rev_ind.
  - change [c] with ([] ++ [c]). rewrite strip_back_keep by assumption. reflexivity.
  - destruct (decide (d ∈ chars)) as [Hd | Hd].
    + change (c :: s ++ [d]) with ((c :: s) ++ [d]).
      rewrite !strip_back_blank by (repeat constructor; assumption). exact IH.
    + change (c :: s ++ [d]) with ((c :: s) ++ [d]).
      rewrite !strip_back_keep by assumption. reflexivity.
Qed.

(** What stripping the back leaves is empty or ends with a character that
    is kept, and the part removed is blank. *)
Lemma strip_back_split (s : list ascii) :
  exists b, s = strip_back chars s ++ b /\ blank chars b
            /\ forall c, last (strip_back chars s) = Some c -> c ∉ chars.
Proof.
  induction s as [| d s IH] using rev_ind.
  - exists []. split; [reflexivity |]. split; [constructor |]. intros c H. discriminate.
  - destruct (decide (d ∈ chars)) as [Hd | Hd].
    + destruct IH as (b & Heq & Hb & Hlast).
      exists (b ++ [d]). rewrite strip_back_blank by (repeat constructor; assumption).
      split; [rewrite app_assoc, <- Heq; reflexivity |].
      split; [apply Forall_app; split; [exact Hb | repeat constructor; exact Hd] | exact Hlast].
    + exists []. rewrite strip_back_keep by assumption.
      split; [rewrite app_nil_r; reflexivity |]. split; [constructor |].
      intros c H. rewrite last_snoc in H. inversion H; subst. exact Hd.
Qed.

Lemma strip_front_split (s : list ascii) :
  exists b, s = b ++ strip_front chars s /\ blank chars b
            /\ forall c, head (strip_front chars s) = Some c -> c ∉ chars.
Proof.
  induction s as [| d s IH].
  - exists []. split; [reflexivity |]. split; [constructor |]. intros c H. discriminate.
  - simpl. destruct (cxx.isin d chars) eqn:Hd.
    + destruct IH as (b & Heq & Hb & Hhead).
      exists (d :: b). split; [simpl; rewrite <- Heq; reflexivity |].
      split; [constructor; [apply isin_true; exact Hd | exact Hb] | exact Hhead].
    + exists []. split; [reflexivity |]. split; [constructor |].
      intros c H. simpl in H. inversion H; subst. apply isin_false. exact Hd.
Qed.

End Strip.












Lemma strip_front_token (chars s : list ascii) :
  (forall c, head s = Some c -> c ∉ chars) -> strip_front chars s = s.
Proof.
  intros Hhead. destruct s as [| c s]; [reflexivity |].
  apply strip_front_keep. apply Hhead. reflexivity.
Qed.





Section ParseLines.

Context (stof : list ascii -> option spec_float).






End ParseLines.

(** The lines of a text: the pieces between its newline characters. *)
Lemma getlines_from_line (cur l rest : list ascii) :
  LF ∉ l -> cxx.getlines_from cur (l ++ LF :: rest) = (cur ++ l) :: cxx.getlines rest.
Proof.
  revert cur. induction l as [| c l IH]; intros cur Hl; simpl.
  - rewrite app_nil_r. reflexivity.
  - apply not_elem_of_cons in Hl. destruct Hl as [Hc Hl].
    destruct (Ascii.eqb_spec c "010"%char) as [Heq | _]; [exfalso; apply Hc; symmetry; exact Heq |].
    rewrite (IH _ Hl). rewrite <- app_assoc. reflexivity.
Qed.

Lemma getlines_line (l rest : list ascii) :
  LF ∉ l -> cxx.getlines (l ++ LF :: rest) = l :: cxx.getlines rest.
Proof. intros Hl. unfold cxx.getlines at 1. rewrite getlines_from_line by assumption. reflexivity. Qed.

Lemma getlines_from_no_newline (cur l : list ascii) :
  LF ∉ l -> cxx.getlines_from cur l = match cur ++ l with [] => [] | _ :: _ => [cur ++ l] end.
Proof.
  revert cur. induction l as [| c l IH]; intros cur Hl; simpl.
  - rewrite app_nil_r. reflexivity.
  - apply not_elem_of_cons in Hl. destruct Hl as [Hc Hl].
    destruct (Ascii.eqb_spec c "010"%char) as [Heq | _];
      [exfalso; apply Hc; symmetry; exact Heq |].
    rewrite (IH _ Hl). rewrite <- app_assoc. reflexivity.
Qed.

Lemma getlines_from_lines (s : list ascii) :
  forall cur, LF ∉ cur -> Forall (fun l => LF ∉ l) (cxx.getlines_from cur s).
Proof.
  induction s as [| c s IH]; intros cur Hcur; simpl.
  - destruct cur; [constructor | repeat constructor; exact Hcur].
  - destruct (Ascii.eqb_spec c "010"%char) as [Heq | Hne].
    + constructor; [exact Hcur |]. apply IH. apply not_elem_of_nil.
    + apply IH. intros Hin. apply elem_of_app in Hin. destruct Hin as [Hin | Hin].
      * exact (Hcur Hin).
      * apply list_elem_of_singleton in Hin. apply Hne. symmetry. exact Hin.
Qed.






(** ** Floating-point representations *)

Lemma digits2_pos_size (p : positive) : digits2_pos p = Pos.size p.
Proof. induction p as [p IH | p IH |]; simpl; congruence. Qed.

Lemma Zdigits2_log2 (m : Z) : 0 < m -> Zdigits2 m = Z.log2 m + 1.
Proof.
  destruct m as [| p | p]; try lia. intros _. simpl Zdigits2.
  rewrite digits2_pos_size.
  destruct p as [p | p |]; simpl; try rewrite Pos2Z.inj_succ; lia.
Qed.

Lemma Zdigits2_nonneg (m : Z) : 0 <= m -> 0 <= Zdigits2 m.
Proof. destruct m; simpl; lia. Qed.

Lemma Zdigits2_mono (m n : Z) : 0 <= m <= n -> Zdigits2 m <= Zdigits2 n.
Proof.
  intros [Hm Hmn]. destruct (Z.eq_dec m 0) as [-> | Hne].
  - simpl. apply Zdigits2_nonneg. lia.
  - rewrite !Zdigits2_log2 by lia.
    pose proof (Z.log2_le_mono m n Hmn). lia.
Qed.

Lemma Zdigits2_div_pow2 (m n : Z) :
  0 <= n -> 0 < m / 2 ^ n -> Zdigits2 (m / 2 ^ n) = Zdigits2 m - n.
Proof.
  intros Hn Hq.
  assert (Hm : 0 < m).
  { destruct (Z.lt_trichotomy m 0) as [Hneg | [-> | Hpos]]; [| | exact Hpos].
    - pose proof (Z.div_lt_upper_bound m (2 ^ n) 0 ltac:(apply Z.pow_pos_nonneg; lia)
                    ltac:(lia)). lia.
    - rewrite Z.div_0_l in Hq by (apply Z.pow_nonzero; lia). lia. }
  rewrite !Zdigits2_log2 by assumption.
  rewrite <- Z.shiftr_div_pow2 by assumption.
  rewrite Z.log2_shiftr by assumption.
  assert (Hlog : n <= Z.log2 m).
  { apply Z.log2_le_pow2; [assumption |].
    destruct (Z.le_gt_cases (2 ^ n) m) as [Hle | Hgt]; [exact Hle |].
    rewrite Z.div_small in Hq by lia. lia. }
  lia.
Qed.

Lemma Zdigits2_small (m n : Z) : 0 <= n -> 0 <= m -> m / 2 ^ n = 0 -> Zdigits2 m <= n.
Proof.
  intros Hn Hm Hq. destruct (Z.eq_dec m 0) as [-> | Hne]; [simpl; lia |].
  rewrite Zdigits2_log2 by lia.
  assert (Hlt : m < 2 ^ n).
  { apply Z.div_small_iff in Hq; [| apply Z.pow_nonzero; lia].
    destruct Hq as [Hq | Hq]; [lia |].
    pose proof (Z.pow_pos_nonneg 2 n ltac:(lia) Hn). lia. }
  apply Z.log2_lt_pow2 in Hlt; lia.
Qed.

Lemma Zdigits2_mul_pow2 (m n : Z) :
  0 < m -> 0 <= n -> Zdigits2 (m * 2 ^ n) = Zdigits2 m + n.
Proof.
  intros Hm Hn.
  assert (Hp : 0 < m * 2 ^ n) by (apply Z.mul_pos_pos; [lia | apply Z.pow_pos_nonneg; lia]).
  rewrite !Zdigits2_log2 by assumption.
  rewrite Z.log2_mul_pow2 by lia. lia.
Qed.

Lemma shr_1_m (mrs : shr_record) :
  0 <= shr_m mrs -> shr_m (shr_1 mrs) = shr_m mrs / 2.
Proof.
  destruct mrs as [m r s]. simpl. intros Hm.
  destruct m as [| [p | p |] | p]; simpl shr_m; try reflexivity; try lia.
  - rewrite Pos2Z.inj_xI. apply (Z.div_unique _ _ _ 1); lia.
  - rewrite Pos2Z.inj_xO. apply (Z.div_unique _ _ _ 0); lia.
Qed.

Lemma iter_pos_shr_m (n : positive) :
  forall mrs, 0 <= shr_m mrs ->
              shr_m (SpecFloat.iter_pos shr_1 n mrs) = shr_m mrs / 2 ^ Zpos n.
Proof.
  induction n as [n IH | n IH |]; intros mrs Hm.
  - change (SpecFloat.iter_pos shr_1 n~1 mrs)
      with (SpecFloat.iter_pos shr_1 n (SpecFloat.iter_pos shr_1 n (shr_1 mrs))).
    assert (H1 : 0 <= shr_m (shr_1 mrs)).
    { rewrite shr_1_m by assumption. apply Z.div_pos; lia. }
    assert (H2 : 0 <= shr_m (SpecFloat.iter_pos shr_1 n (shr_1 mrs))).
    { rewrite IH by assumption. apply Z.div_pos; [assumption |].
      apply Z.pow_pos_nonneg; lia. }
    rewrite IH by assumption. rewrite IH by assumption. rewrite shr_1_m by assumption.
    rewrite !Z.div_div by (try apply Z.pow_pos_nonneg; lia).
    replace (2 ^ Z.pos n~1) with (2 * (2 ^ Z.pos n * 2 ^ Z.pos n)); [reflexivity |].
    rewrite <- Z.pow_add_r by lia. rewrite <- Z.pow_succ_r by lia. f_equal. lia.
  - change (SpecFloat.iter_pos shr_1 n~0 mrs)
      with (SpecFloat.iter_pos shr_1 n (SpecFloat.iter_pos shr_1 n mrs)).
    assert (H2 : 0 <= shr_m (SpecFloat.iter_pos shr_1 n mrs)).
    { rewrite IH by assumption. apply Z.div_pos; [assumption |].
      apply Z.pow_pos_nonneg; lia. }
    rewrite IH by assumption. rewrite IH by assumption.
    rewrite !Z.div_div by (try apply Z.pow_pos_nonneg; lia).
    replace (2 ^ Z.pos n~0) with (2 ^ Z.pos n * 2 ^ Z.pos n); [reflexivity |].
    rewrite <- Z.pow_add_r by lia. f_equal. lia.
  - change (SpecFloat.iter_pos shr_1 1 mrs) with (shr_1 mrs).
    rewrite shr_1_m by assumption. reflexivity.
Qed.

Lemma shr_record_of_loc_m (m : Z) (l : location) : shr_m (shr_record_of_loc m l) = m.
Proof. destruct l as [| []]; reflexivity. Qed.

Lemma round_nearest_even_range (m : Z) (l : location) :
  round_nearest_even m l = m \/ round_nearest_even m l = m + 1.
Proof.
  destruct l as [| []]; simpl; auto. destruct (Z.even m); auto.
Qed.

Lemma shr_1_even (k : Z) :
  0 <= k ->
  shr_1 {| shr_m := 2 * k; shr_r := false; shr_s := false |}
  = {| shr_m := k; shr_r := false; shr_s := false |}.
Proof. destruct k as [| p | p]; [reflexivity | reflexivity | lia]. Qed.

(** Shifting out [n] zero bits is exact. *)
Lemma iter_shr_exact (n : positive) :
  forall m, 0 <= m ->
            SpecFloat.iter_pos shr_1 n
              {| shr_m := m * 2 ^ Z.pos n; shr_r := false; shr_s := false |}
            = {| shr_m := m; shr_r := false; shr_s := false |}.
Proof.
  induction n as [n IH | n IH |]; intros m Hm.
  - change (SpecFloat.iter_pos shr_1 n~1 ?x)
      with (SpecFloat.iter_pos shr_1 n (SpecFloat.iter_pos shr_1 n (shr_1 x))).
    assert (Hpow : 0 < 2 ^ Z.pos n) by (apply Z.pow_pos_nonneg; lia).
    replace (m * 2 ^ Z.pos n~1) with (2 * ((m * 2 ^ Z.pos n) * 2 ^ Z.pos n)).
    + rewrite shr_1_even by nia. rewrite IH by nia. apply IH. exact Hm.
    + replace (Z.pos n~1) with (Z.succ (Z.pos n + Z.pos n)) by lia.
      rewrite Z.pow_succ_r, Z.pow_add_r by lia. lia.
  - change (SpecFloat.iter_pos shr_1 n~0 ?x)
      with (SpecFloat.iter_pos shr_1 n (SpecFloat.iter_pos shr_1 n x)).
    assert (Hpow : 0 < 2 ^ Z.pos n) by (apply Z.pow_pos_nonneg; lia).
    replace (m * 2 ^ Z.pos n~0) with ((m * 2 ^ Z.pos n) * 2 ^ Z.pos n).
    + rewrite IH by nia. apply IH. exact Hm.
    + replace (Z.pos n~0) with (Z.pos n + Z.pos n) by lia.
      rewrite Z.pow_add_r by lia. lia.
  - change (SpecFloat.iter_pos shr_1 1 ?x) with (shr_1 x).
    replace (m * 2 ^ 1) with (2 * m) by lia. apply shr_1_even. exact Hm.
Qed.

Lemma iter_xO_pow2 (m n : positive) : Z.pos (Pos.iter xO m n) = Z.pos m * 2 ^ Z.pos n.
Proof.
  induction n as [| n IH] using Pos.peano_ind.
  - simpl. lia.
  - rewrite Pos.iter_succ, Pos2Z.inj_xO, IH, Pos2Z.inj_succ, Z.pow_succ_r by lia. lia.
Qed.

Section Rounding.

Context (prec emax : Z).
Context (Hprec : 0 < prec).

Lemma fexp_mono (x y : Z) : x <= y -> fexp prec emax x <= fexp prec emax y.
Proof. unfold fexp. lia. Qed.

(** Shifting a mantissa down to its canonical exponent. *)
Lemma shr_fexp_post (m e : Z) (l : location) (mrs : shr_record) (e1 : Z) :
  0 <= m -> e <= fexp prec emax (Zdigits2 m + e) ->
  shr_fexp prec emax m e l = (mrs, e1) ->
  0 <= shr_m mrs
  /\ (forall m2, shr_m mrs <= m2 -> e1 <= fexp prec emax (Zdigits2 m2 + e1))
  /\ (forall p, shr_m mrs = Zpos p -> fexp prec emax (Zpos (digits2_pos p) + e1) = e1).
Proof.
  intros Hm Hpre. unfold shr_fexp, shr.
  pose proof (Zdigits2_nonneg m Hm) as Hd.
  destruct (fexp prec emax (Zdigits2 m + e) - e) as [| n | n] eqn:Hn.
  - (* no shift *)
    intros H. inversion H; subst mrs e1. clear H.
    rewrite shr_record_of_loc_m.
    split; [exact Hm |]. split.
    + intros m2 Hm2.
      pose proof (Zdigits2_mono m m2 ltac:(lia)).
      pose proof (fexp_mono (Zdigits2 m + e) (Zdigits2 m2 + e) ltac:(lia)). lia.
    + intros p Hp. subst m. simpl Zdigits2 in Hn. lia.
  - (* shift by [n] bits *)
    intros H. inversion H; subst mrs e1. clear H.
    rewrite iter_pos_shr_m by (rewrite shr_record_of_loc_m; exact Hm).
    rewrite shr_record_of_loc_m.
    assert (Hpow : 0 < 2 ^ Z.pos n) by (apply Z.pow_pos_nonneg; lia).
    assert (Hq : 0 <= m / 2 ^ Z.pos n) by (apply Z.div_pos; lia).
    split; [exact Hq |].
    assert (He1 : e + Z.pos n = fexp prec emax (Zdigits2 m + e)) by lia.
    destruct (Z.eq_dec (m / 2 ^ Z.pos n) 0) as [Hzero | Hpos].
    + (* everything is shifted out: the exponent is [emin] *)
      pose proof (Zdigits2_small m (Z.pos n) ltac:(lia) Hm Hzero) as Hsmall.
      assert (Hemin : e + Z.pos n = emin prec emax).
      { rewrite He1. unfold fexp in *. lia. }
      split.
      * intros m2 _. rewrite Hemin. unfold fexp. lia.
      * intros p Hp. lia.
    + pose proof (Zdigits2_div_pow2 m (Z.pos n) ltac:(lia) ltac:(lia)) as Hdiv.
      assert (Hcanon : fexp prec emax (Zdigits2 (m / 2 ^ Z.pos n) + (e + Z.pos n))
                       = e + Z.pos n).
      { rewrite Hdiv. replace (Zdigits2 m - Z.pos n + (e + Z.pos n)) with (Zdigits2 m + e) by lia.
        lia. }
      split.
      * intros m2 Hm2.
        pose proof (Zdigits2_mono (m / 2 ^ Z.pos n) m2 ltac:(lia)).
        pose proof (fexp_mono (Zdigits2 (m / 2 ^ Z.pos n) + (e + Z.pos n))
                              (Zdigits2 m2 + (e + Z.pos n)) ltac:(lia)). lia.
      * intros p Hp. rewrite Hp in Hcanon. exact Hcanon.
  - lia.
Qed.

(** Rounding a mantissa that is not below its canonical exponent yields a
    canonical representation. *)
Lemma binary_round_aux_valid (sx : bool) (mx ex : Z) (lx : location) :
  0 <= mx -> ex <= fexp prec emax (Zdigits2 mx + ex) ->
  valid_binary prec emax (binary_round_aux prec emax sx mx ex lx) = true.
Proof.
  intros Hm Hpre. unfold binary_round_aux.
  destruct (shr_fexp prec emax mx ex lx) as [mrs' e'] eqn:H1.
  destruct (shr_fexp_post _ _ _ _ _ Hm Hpre H1) as (Hm' & Hle' & _).
  set (m'' := round_nearest_even (shr_m mrs') (loc_of_shr_record mrs')).
  assert (Hm'' : shr_m mrs' <= m'').
  { unfold m''. destruct (round_nearest_even_range (shr_m mrs') (loc_of_shr_record mrs'))
      as [-> | ->]; lia. }
  destruct (shr_fexp prec emax m'' e' loc_Exact) as [mrs'' e''] eqn:H2.
  assert (H0 : 0 <= m'') by lia.
  destruct (shr_fexp_post m'' e' loc_Exact mrs'' e'' H0 (Hle' m'' Hm'') H2)
    as (_ & _ & Hcanon).
  destruct (shr_m mrs'') as [| p | p] eqn:Hp; try reflexivity.
  destruct (Z.leb_spec e'' (emax - prec)) as [Hle | Hgt]; [| reflexivity].
  simpl. unfold bounded, canonical_mantissa.
  rewrite (Hcanon p eq_refl), Z.eqb_refl. simpl.
  apply Z.leb_le. exact Hle.
Qed.

Lemma binary_round_valid (sx : bool) (mx : positive) (ex : Z) :
  valid_binary prec emax (binary_round prec emax sx mx ex) = true.
Proof.
  unfold binary_round, shl_align.
  set (d := Z.pos (digits2_pos mx)).
  destruct (fexp prec emax (d + ex) - ex) as [| n | n] eqn:Hn.
  - apply binary_round_aux_valid; [lia |]. simpl Zdigits2. fold d. lia.
  - apply binary_round_aux_valid; [lia |]. simpl Zdigits2. fold d. lia.
  - apply binary_round_aux_valid; [lia |].
    assert (Hshift : Zdigits2 (Z.pos (Pos.iter xO mx n)) = d + Z.pos n).
    { rewrite iter_xO_pow2.
      rewrite Zdigits2_mul_pow2 by lia. reflexivity. }
    rewrite Hshift.
    replace (d + Z.pos n + fexp prec emax (d + ex)) with (d + ex) by lia. lia.
Qed.

Lemma binary_normalize_valid (m e : Z) (szero : bool) :
  valid_binary prec emax (binary_normalize prec emax m e szero) = true.
Proof.
  destruct m as [| p | p]; simpl; [reflexivity | |]; apply binary_round_valid.
Qed.

Lemma SFabs_valid (x : spec_float) :
  valid_binary prec emax x = true -> valid_binary prec emax (SFabs x) = true.
Proof. destruct x; simpl; auto. Qed.

Lemma SFadd_valid (x y : spec_float) :
  valid_binary prec emax x = true -> valid_binary prec emax y = true ->
  valid_binary prec emax (SFadd prec emax x y) = true.
Proof.
  intros Hx Hy.
  destruct x as [sx | sx | | sx mx ex], y as [sy | sy | | sy my ey];
    try reflexivity; try assumption.
  - destruct sx, sy; reflexivity.
  - destruct sx, sy; reflexivity.
  - unfold SFadd. apply binary_normalize_valid.
Qed.

(** Rounding a canonical number written with [n] extra zero bits is exact. *)
Lemma binary_round_aux_exact (s : bool) (m : positive) (e n : Z) :
  bounded prec emax m e = true -> 0 <= n ->
  binary_round_aux prec emax s (Z.pos m * 2 ^ n) (e - n) loc_Exact = S754_finite s m e.
Proof.
  intros Hb Hn. unfold bounded, canonical_mantissa in Hb.
  apply andb_true_iff in Hb. destruct Hb as [Hc He]. apply Z.eqb_eq in Hc.
  assert (Hd : Zdigits2 (Z.pos m * 2 ^ n) = Z.pos (digits2_pos m) + n).
  { rewrite Zdigits2_mul_pow2 by lia. reflexivity. }
  assert (H2 : shr_fexp prec emax (Z.pos m) e loc_Exact
               = ({| shr_m := Z.pos m; shr_r := false; shr_s := false |}, e)).
  { unfold shr_fexp. cbn [Zdigits2]. rewrite Hc, Z.sub_diag. reflexivity. }
  assert (H1 : shr_fexp prec emax (Z.pos m * 2 ^ n) (e - n) loc_Exact
               = ({| shr_m := Z.pos m; shr_r := false; shr_s := false |}, e)).
  { destruct n as [| k | k]; [| | lia].
    - rewrite Z.mul_1_r, Z.sub_0_r. exact H2.
    - unfold shr_fexp. rewrite Hd.
      replace (Z.pos (digits2_pos m) + Z.pos k + (e - Z.pos k))
        with (Z.pos (digits2_pos m) + e) by lia.
      rewrite Hc. replace (e - (e - Z.pos k)) with (Z.pos k) by lia.
      unfold shr. cbn [shr_record_of_loc].
      rewrite (iter_shr_exact k (Z.pos m)) by lia. f_equal. lia. }
  unfold binary_round_aux. rewrite H1.
  cbn [shr_m loc_of_shr_record round_nearest_even]. rewrite H2.
  cbn [shr_m]. rewrite He. reflexivity.
Qed.

(** [binary_round] returns the canonical representation of the number it
    is given, when there is one. *)
Lemma binary_round_exact (s : bool) (M : positive) (E : Z) (m : positive) (e : Z) :
  bounded prec emax m e = true ->
  (E <= e /\ Z.pos M = Z.pos m * 2 ^ (e - E))
  \/ (e < E /\ Z.pos m = Z.pos M * 2 ^ (E - e)) ->
  binary_round prec emax s M E = S754_finite s m e.
Proof.
  intros Hb Hval. pose proof Hb as Hb'. unfold bounded, canonical_mantissa in Hb'.
  apply andb_true_iff in Hb'. destruct Hb' as [Hc _]. apply Z.eqb_eq in Hc.
  assert (Hsame : Z.pos (digits2_pos M) + E = Z.pos (digits2_pos m) + e).
  { change (Zdigits2 (Z.pos M) + E = Zdigits2 (Z.pos m) + e).
    destruct Hval as [[Hle HM] | [Hlt Hm]].
    - rewrite HM, Zdigits2_mul_pow2 by lia. lia.
    - rewrite Hm, Zdigits2_mul_pow2 by lia. lia. }
  unfold binary_round, shl_align. rewrite Hsame, Hc.
  destruct Hval as [[Hle HM] | [Hlt Hm]].
  - assert (Hshape : exists k, e - E = k /\ 0 <= k) by (exists (e - E); lia).
    destruct Hshape as (k & Hk & Hk0). rewrite Hk in *.
    destruct k as [| k | k]; [| | lia].
    + rewrite HM. replace E with (e - 0) by lia. apply binary_round_aux_exact; [exact Hb | lia].
    + rewrite HM. replace E with (e - Z.pos k) by lia.
      apply binary_round_aux_exact; [exact Hb | lia].
  - destruct (e - E) as [| k | k] eqn:Hk; [lia | lia |].
    assert (Hiter : Z.pos (Pos.iter xO M k) = Z.pos m).
    { rewrite iter_xO_pow2, Hm. f_equal. f_equal. lia. }
    rewrite Hiter.
    replace (Z.pos m) with (Z.pos m * 2 ^ 0) by lia.
    replace e with (e - 0) at 1 by lia.
    apply binary_round_aux_exact; [exact Hb | lia].
Qed.

End Rounding.

(** Multiplying a canonical binary32 mantissa by the mantissa of [1.0f]
    and rounding gives the number back. *)
Lemma round_times_one (s : bool) (m : positive) (e : Z) :
  bounded F32.prec F32.emax m e = true ->
  binary_round_aux F32.prec F32.emax s (Z.pos (8388608 * m)) (-23 + e) loc_Exact
  = S754_finite s m e.
Proof.
  intros Hb.
  replace (Z.pos (8388608 * m)) with (Z.pos m * 2 ^ 23) by lia.
  replace (-23 + e) with (e - 23) by lia.
  apply binary_round_aux_exact; [exact Hb | lia].
Qed.

(** [1.0f * x] is [x] for every canonical binary32 value. *)
Lemma F32_mul_one_l (x : spec_float) :
  F32.canonical x -> F32.mul (F32.of_int 1) x = x.
Proof.
  unfold F32.canonical. intros Hx.
  change (F32.of_int 1) with (S754_finite false 8388608 (-23)).
  destruct x as [s | s | | s m e]; try reflexivity.
  unfold F32.mul, SFmul. cbn [xorb]. apply round_times_one. exact Hx.
Qed.

Lemma F32_of_int_canonical (z : Z) : F32.canonical (F32.of_int z).
Proof. apply binary_normalize_valid. reflexivity. Qed.

Lemma F32_fabs_canonical (x : spec_float) : F32.canonical x -> F32.canonical (F32.fabs x).
Proof. apply SFabs_valid. Qed.

Lemma F32_add_canonical (x y : spec_float) :
  F32.canonical x -> F32.canonical y -> F32.canonical (F32.add x y).
Proof. apply SFadd_valid. reflexivity. Qed.

(** ** Small integers are computed exactly *)

Lemma pow2_add (a b : Z) : 0 <= a -> 0 <= b -> 2 ^ (a + b) = 2 ^ a * 2 ^ b.
Proof. intros Ha Hb. apply Z.pow_add_r; assumption. Qed.

Lemma Zdigits2_bounds (z : Z) :
  0 < z -> 2 ^ (Zdigits2 z - 1) <= z < 2 ^ Zdigits2 z.
Proof.
  intros Hz. rewrite Zdigits2_log2 by assumption.
  replace (Z.log2 z + 1 - 1) with (Z.log2 z) by lia.
  replace (Z.log2 z + 1) with (Z.succ (Z.log2 z)) by lia.
  apply Z.log2_spec. exact Hz.
Qed.

Lemma Zdigits2_small_int (z : positive) :
  Z.pos z < 2 ^ 24 -> 1 <= Zdigits2 (Z.pos z) <= 24.
Proof.
  intros H. rewrite Zdigits2_log2 by lia.
  pose proof (Z.log2_nonneg (Z.pos z)).
  assert (Z.log2 (Z.pos z) < 24) by (apply Z.log2_lt_pow2; lia). lia.
Qed.

Lemma Zdigits2_mul_below (a b : Z) :
  0 < a -> 0 < b -> Zdigits2 a + Zdigits2 b - 1 <= Zdigits2 (a * b).
Proof.
  intros Ha Hb. rewrite !Zdigits2_log2 by nia.
  pose proof (Z.log2_mul_below a b Ha Hb). lia.
Qed.

Lemma int_mantissa_pos (z : positive) :
  Z.pos z < 2 ^ 24 ->
  Z.pos (int_mantissa z) = Z.pos z * 2 ^ (24 - Zdigits2 (Z.pos z)).
Proof.
  intros H. pose proof (Zdigits2_small_int z H) as Hd.
  unfold int_mantissa. apply Z2Pos.id.
  apply Z.mul_pos_pos; [lia | apply Z.pow_pos_nonneg; lia].
Qed.

Lemma int_float_bounded (z : positive) :
  Z.pos z < 2 ^ 24 ->
  bounded F32.prec F32.emax (int_mantissa z) (Zdigits2 (Z.pos z) - 24) = true.
Proof.
  intros H. pose proof (Zdigits2_small_int z H) as Hd.
  unfold bounded, canonical_mantissa.
  change (Z.pos (digits2_pos (int_mantissa z))) with (Zdigits2 (Z.pos (int_mantissa z))).
  rewrite int_mantissa_pos, Zdigits2_mul_pow2 by lia.
  apply andb_true_iff. split.
  - apply Z.eqb_eq. unfold fexp, emin, F32.prec, F32.emax. lia.
  - apply Z.leb_le. unfold F32.prec, F32.emax. lia.
Qed.

(** [static_cast<float>] is exact on integers of magnitude below [2^24]. *)
Lemma binary_round_int (s : bool) (z : positive) :
  Z.pos z < 2 ^ 24 -> binary_round F32.prec F32.emax s z 0 = int_float s z.
Proof.
  intros H. pose proof (Zdigits2_small_int z H) as Hd.
  apply binary_round_exact; [exact (int_float_bounded z H) |].
  rewrite int_mantissa_pos by exact H.
  destruct (Z.eq_dec (Zdigits2 (Z.pos z)) 24) as [Heq | Hne].
  - left. rewrite Heq. simpl. lia.
  - right. split; [lia |]. f_equal. f_equal. lia.
Qed.

Lemma F32_of_int_pos (z : positive) :
  Z.pos z < 2 ^ 24 -> F32.of_int (Z.pos z) = int_float false z.
Proof. apply binary_round_int. Qed.

Lemma F32_of_int_neg (z : positive) :
  Z.pos z < 2 ^ 24 -> F32.of_int (Z.neg z) = int_float true z.
Proof. apply binary_round_int. Qed.

(** The product of two small integers is exact when it is small. *)
Lemma int_float_mul (s1 s2 : bool) (a b : positive) :
  Z.pos (a * b) < 2 ^ 24 ->
  F32.mul (int_float s1 a) (int_float s2 b) = int_float (xorb s1 s2) (a * b).
Proof.
  intros H.
  assert (Ha : Z.pos a < 2 ^ 24) by nia.
  assert (Hb : Z.pos b < 2 ^ 24) by nia.
  pose proof (Zdigits2_small_int a Ha) as Hda.
  pose proof (Zdigits2_small_int b Hb) as Hdb.
  pose proof (Zdigits2_small_int (a * b) H) as Hdab.
  pose proof (Zdigits2_mul_below (Z.pos a) (Z.pos b) ltac:(lia) ltac:(lia)) as Hbelow.
  change (Z.pos a * Z.pos b) with (Z.pos (a * b)) in Hbelow.
  unfold F32.mul, int_float, SFmul.
  set (da := Zdigits2 (Z.pos a)) in *.
  set (db := Zdigits2 (Z.pos b)) in *.
  set (dab := Zdigits2 (Z.pos (a * b))) in *.
  set (n := dab + 24 - da - db).
  replace (da - 24 + (db - 24)) with (dab - 24 - n) by (unfold n; lia).
  replace (Z.pos (int_mantissa a * int_mantissa b))
    with (Z.pos (int_mantissa (a * b)) * 2 ^ n).
  - apply binary_round_aux_exact; [exact (int_float_bounded (a * b) H) | unfold n; lia].
  - rewrite Pos2Z.inj_mul, !int_mantissa_pos by assumption.
    fold da db dab. rewrite Pos2Z.inj_mul.
    rewrite <- Z.mul_assoc, <- pow2_add by (unfold n; lia).
    replace (24 - dab + n) with ((24 - da) + (24 - db)) by (unfold n; lia).
    rewrite pow2_add by lia. ring.
Qed.

Lemma shl_align_fst (m : positive) (e e' : Z) :
  e' <= e -> Z.pos (fst (shl_align m e e')) = Z.pos m * 2 ^ (e - e').
Proof.
  intros Hle. unfold shl_align.
  destruct (e' - e) as [| d | d] eqn:Hd; cbn [fst].
  - replace (e - e') with 0 by lia. lia.
  - lia.
  - rewrite iter_xO_pow2. f_equal. f_equal. lia.
Qed.

(** The sum of two small positive integers is exact when it is small. *)
Lemma int_float_add (u v : positive) :
  Z.pos (u + v) < 2 ^ 24 ->
  F32.add (int_float false u) (int_float false v) = int_float false (u + v).
Proof.
  intros H.
  assert (Hu : Z.pos u < 2 ^ 24) by lia.
  assert (Hv : Z.pos v < 2 ^ 24) by lia.
  pose proof (Zdigits2_small_int u Hu) as Hdu.
  pose proof (Zdigits2_small_int v Hv) as Hdv.
  pose proof (Zdigits2_small_int (u + v) H) as Hd.
  unfold F32.add, int_float, SFadd. cbn [cond_Zopp].
  set (du := Zdigits2 (Z.pos u)) in *.
  set (dv := Zdigits2 (Z.pos v)) in *.
  set (d := Zdigits2 (Z.pos (u + v))) in *.
  set (ez := Z.min (du - 24) (dv - 24)).
  rewrite !shl_align_fst by (unfold ez; lia).
  rewrite !int_mantissa_pos by assumption. fold du dv.
  assert (Hsum : Z.pos u * 2 ^ (24 - du) * 2 ^ (du - 24 - ez)
                 + Z.pos v * 2 ^ (24 - dv) * 2 ^ (dv - 24 - ez)
                 = Z.pos (u + v) * 2 ^ (- ez)).
  { rewrite <- !Z.mul_assoc, <- !pow2_add by (unfold ez; lia).
    replace (24 - du + (du - 24 - ez)) with (- ez) by lia.
    replace (24 - dv + (dv - 24 - ez)) with (- ez) by lia.
    rewrite Pos2Z.inj_add. ring. }
  rewrite Hsum.
  assert (Hpos : 0 < Z.pos (u + v) * 2 ^ (- ez)).
  { apply Z.mul_pos_pos; [lia | apply Z.pow_pos_nonneg; unfold ez; lia]. }
  destruct (Z.pos (u + v) * 2 ^ (- ez)) as [| S | S] eqn:HS; [lia | | lia].
  cbn [binary_normalize].
  apply binary_round_exact; [exact (int_float_bounded (u + v) H) |].
  rewrite int_mantissa_pos by exact H. fold d. rewrite <- HS.
  destruct (Z.le_gt_cases ez (d - 24)) as [Hle | Hgt].
  - left. split; [exact Hle |].
    rewrite <- Z.mul_assoc, <- pow2_add by (unfold ez in *; lia).
    f_equal. f_equal. lia.
  - right. split; [lia |].
    rewrite <- Z.mul_assoc, <- pow2_add by (unfold ez in *; lia).
    f_equal. f_equal. lia.
Qed.

(** Small positive integers compare as their representations do. *)
Lemma int_float_ltb (u v : positive) :
  Z.pos u < 2 ^ 24 -> Z.pos v < 2 ^ 24 ->
  F32.ltb (int_float false u) (int_float false v) = (Z.pos u <? Z.pos v).
Proof.
  intros Hu Hv.
  pose proof (Zdigits2_small_int u Hu) as Hdu.
  pose proof (Zdigits2_small_int v Hv) as Hdv.
  pose proof (Zdigits2_bounds (Z.pos u) ltac:(lia)) as Hbu.
  pose proof (Zdigits2_bounds (Z.pos v) ltac:(lia)) as Hbv.
  unfold F32.ltb, SFltb, int_float, SFcompare.
  set (du := Zdigits2 (Z.pos u)) in *.
  set (dv := Zdigits2 (Z.pos v)) in *.
  destruct (Z.compare_spec (du - 24) (dv - 24)) as [Heq | Hlt | Hgt].
  - change (Pos.compare_cont Eq (int_mantissa u) (int_mantissa v))
      with (Z.pos (int_mantissa u) ?= Z.pos (int_mantissa v)).
    rewrite !int_mantissa_pos by assumption. fold du dv.
    replace dv with du by lia.
    assert (Hpow : 0 < 2 ^ (24 - du)) by (apply Z.pow_pos_nonneg; lia).
    unfold Z.ltb.
    rewrite (Zmult_compare_compat_r (Z.pos u) (Z.pos v) (2 ^ (24 - du))) by lia.
    reflexivity.
  - symmetry. apply Z.ltb_lt.
    assert (Hmono : 2 ^ du <= 2 ^ (dv - 1)) by (apply Z.pow_le_mono_r; lia). lia.
  - symmetry. apply Z.ltb_ge.
    assert (Hmono : 2 ^ dv <= 2 ^ (du - 1)) by (apply Z.pow_le_mono_r; lia). lia.
Qed.

(** The conversion of a small integer, by sign. *)
Lemma F32_of_int_small (z : Z) :
  Z.abs z < 2 ^ 24 ->
  F32.of_int z = match z with
                 | 0 => S754_zero false
                 | Z.pos p => int_float false p
                 | Z.neg p => int_float true p
                 end.
Proof.
  destruct z as [| p | p]; intros H.
  - reflexivity.
  - apply F32_of_int_pos. exact H.
  - apply F32_of_int_neg. exact H.
Qed.

Lemma F32_fabs_of_int (z : Z) :
  Z.abs z < 2 ^ 24 -> F32.fabs (F32.of_int z) = F32.of_int (Z.abs z).
Proof.
  intros H. rewrite (F32_of_int_small z H).
  rewrite (F32_of_int_small (Z.abs z)) by lia.
  destruct z; reflexivity.
Qed.

Lemma F32_square_of_int (z : Z) :
  z * z < 2 ^ 24 -> F32.mul (F32.of_int z) (F32.of_int z) = F32.of_int (z * z).
Proof.
  intros H.
  assert (Hz : Z.abs z < 2 ^ 24) by nia.
  rewrite (F32_of_int_small z Hz).
  rewrite (F32_of_int_small (z * z)) by (rewrite Z.abs_eq by nia; exact H).
  destruct z as [| p | p].
  - reflexivity.
  - apply (int_float_mul false false p p). exact H.
  - apply (int_float_mul true true p p). exact H.
Qed.

Lemma F32_add_of_int (a b : Z) :
  0 <= a -> 0 <= b -> a + b < 2 ^ 24 ->
  F32.add (F32.of_int a) (F32.of_int b) = F32.of_int (a + b).
Proof.
  intros Ha Hb H.
  rewrite (F32_of_int_small a), (F32_of_int_small b), (F32_of_int_small (a + b)) by lia.
  destruct a as [| p | p], b as [| q | q]; try lia; try reflexivity.
  apply int_float_add. exact H.
Qed.

Lemma F32_min_of_int (a b : Z) :
  0 <= a < 2 ^ 24 -> 0 <= b < 2 ^ 24 ->
  F32.min (F32.of_int a) (F32.of_int b) = F32.of_int (Z.min a b).
Proof.
  intros Ha Hb. unfold F32.min.
  assert (Hlt : F32.ltb (F32.of_int b) (F32.of_int a) = (b <? a)).
  { rewrite (F32_of_int_small a), (F32_of_int_small b) by lia.
    destruct a as [| p | p], b as [| q | q]; try lia; try reflexivity.
    apply int_float_ltb; lia. }
  rewrite Hlt. destruct (Z.ltb_spec b a) as [Hba | Hab].
  - rewrite Z.min_r by lia. reflexivity.
  - rewrite Z.min_l by lia. reflexivity.
Qed.

(** ** The heuristic values *)

(** The literal [1.41421356f] is the binary32 square root of two. *)
Lemma costs_diagonal_sqrt2 :
  PathfindingUtils.costs 4 = F32.sqrtf (F32.of_int 2)
  /\ PathfindingUtils.costs 4 = S754_finite false 11863283 (-23).
Proof. split; vm_compute; reflexivity. Qed.

(** C1 (as stated, refuted): for the cells [(0,0)] and [(3,4)] and a cell
    resolution of [2.0] metres the Euclidean selector returns [5.0], not
    [5.0 * 2.0 = 10.0], and the Diagonal selector returns the octile distance
    in cells, not twice that. *)
Lemma heuristic_not_scaled :
  PathfindingUtils.calculate_heuristic 0 0 3 4 PathfindingUtils.HEURISTIC_EUCLIDEAN
    = F32.of_int 5
  /\ spec_euclidean (F32.of_int 2) 0 0 3 4 = F32.of_int 10
  /\ PathfindingUtils.calculate_heuristic 0 0 3 4 PathfindingUtils.HEURISTIC_EUCLIDEAN
     <> spec_euclidean (F32.of_int 2) 0 0 3 4
  /\ PathfindingUtils.calculate_heuristic 0 0 3 4 PathfindingUtils.HEURISTIC_DIAGONAL
     = S754_finite false 10994614 (-21)
  /\ spec_octile (F32.of_int 2) 0 0 3 4 = S754_finite false 10994614 (-20)
  /\ PathfindingUtils.calculate_heuristic 0 0 3 4 PathfindingUtils.HEURISTIC_DIAGONAL
     <> spec_octile (F32.of_int 2) 0 0 3 4.
Proof.
  repeat split; try (vm_compute; reflexivity); vm_compute; discriminate.
Qed.

(** C1 (amended): for every pair of cells, [calculate_heuristic] returns the
    stated distance in grid-cell units, not multiplied by [log_cell_m] (which
    it does not receive): the Euclidean selector returns
    [sqrt(dx^2 + dy^2)] and the Diagonal selector returns
    [(|dx| + |dy|) + (sqrt(2) - 2) * min(|dx|, |dy|)], in binary32
    arithmetic.  The values the claim states are these results multiplied by
    [log_cell_m].  While [dx^2 + dy^2] (respectively [|dx| + |dy|]) is below
    [2^24] the integer parts are computed without rounding: the Euclidean
    result is the binary32 square root of the exact integer [dx^2 + dy^2],
    and the Diagonal result combines the exact integers [|dx| + |dy|] and
    [min(|dx|, |dy|)]. *)
Theorem calculate_heuristic_cells (x1 y1 x2 y2 : Z) :
  Int32.in_range (x1 - x2) -> Int32.in_range (y1 - y2) ->
  PathfindingUtils.calculate_heuristic x1 y1 x2 y2 PathfindingUtils.HEURISTIC_EUCLIDEAN
    = spec_euclidean_cells x1 y1 x2 y2
  /\ PathfindingUtils.calculate_heuristic x1 y1 x2 y2 PathfindingUtils.HEURISTIC_DIAGONAL
     = spec_octile_cells x1 y1 x2 y2
  /\ (forall log_cell_m,
         spec_euclidean log_cell_m x1 y1 x2 y2
         = F32.mul (PathfindingUtils.calculate_heuristic x1 y1 x2 y2
                      PathfindingUtils.HEURISTIC_EUCLIDEAN) log_cell_m
         /\ spec_octile log_cell_m x1 y1 x2 y2
            = F32.mul log_cell_m
                (PathfindingUtils.calculate_heuristic x1 y1 x2 y2
                   PathfindingUtils.HEURISTIC_DIAGONAL))
  /\ ((x1 - x2) * (x1 - x2) + (y1 - y2) * (y1 - y2) < 2 ^ 24 ->
      PathfindingUtils.calculate_heuristic x1 y1 x2 y2 PathfindingUtils.HEURISTIC_EUCLIDEAN
      = F32.sqrtf (F32.of_int ((x1 - x2) * (x1 - x2) + (y1 - y2) * (y1 - y2))))
  /\ (Z.abs (x1 - x2) + Z.abs (y1 - y2) < 2 ^ 24 ->
      PathfindingUtils.calculate_heuristic x1 y1 x2 y2 PathfindingUtils.HEURISTIC_DIAGONAL
      = F32.add (F32.of_int (Z.abs (x1 - x2) + Z.abs (y1 - y2)))
                (F32.mul (F32.sub (F32.sqrtf (F32.of_int 2)) (F32.of_int 2))
                         (F32.of_int (Z.min (Z.abs (x1 - x2)) (Z.abs (y1 - y2)))))).
Proof.
  intros Hx Hy.
  assert (He : PathfindingUtils.calculate_heuristic x1 y1 x2 y2
                 PathfindingUtils.HEURISTIC_EUCLIDEAN
               = spec_euclidean_cells x1 y1 x2 y2).
  { unfold PathfindingUtils.calculate_heuristic. cbn [Z.eqb PathfindingUtils.HEURISTIC_EUCLIDEAN
      PathfindingUtils.HEURISTIC_DIAGONAL PathfindingUtils.HEURISTIC_MANHATTAN
      PathfindingUtils.HEURISTIC_MIN_COST].
    unfold PathfindingUtils.internal.euclidean_distance, spec_euclidean_cells, Int32.sub.
    rewrite !wrap_in_range by assumption. reflexivity. }
  assert (Hd : PathfindingUtils.calculate_heuristic x1 y1 x2 y2
                 PathfindingUtils.HEURISTIC_DIAGONAL
               = spec_octile_cells x1 y1 x2 y2).
  { unfold PathfindingUtils.calculate_heuristic. cbn [Z.eqb PathfindingUtils.HEURISTIC_EUCLIDEAN
      PathfindingUtils.HEURISTIC_DIAGONAL PathfindingUtils.HEURISTIC_MANHATTAN
      PathfindingUtils.HEURISTIC_MIN_COST Pos.eqb].
    unfold PathfindingUtils.internal.diagonal_distance, spec_octile_cells, Int32.sub.
    rewrite !wrap_in_range by assumption.
    change (PathfindingUtils.costs 0) with (F32.of_int 1).
    rewrite F32_mul_one_l
      by (apply F32_add_canonical; apply F32_fabs_canonical; apply F32_of_int_canonical).
    assert (Hc : F32.sub (PathfindingUtils.costs 4) (F32.mul (F32.of_int 2) (F32.of_int 1))
                 = F32.sub (F32.sqrtf (F32.of_int 2)) (F32.of_int 2))
      by (vm_compute; reflexivity).
    rewrite Hc. reflexivity. }
  split; [exact He |]. split; [exact Hd |]. split; [| split].
  - intros log_cell_m. unfold spec_euclidean, spec_octile. rewrite He, Hd.
    split; reflexivity.
  - intros Hsmall. rewrite He. unfold spec_euclidean_cells.
    pose proof (Z.square_nonneg (x1 - x2)) as Hsx.
    pose proof (Z.square_nonneg (y1 - y2)) as Hsy.
    rewrite !F32_square_of_int by lia.
    rewrite F32_add_of_int by lia. reflexivity.
  - intros Hsmall. rewrite Hd. unfold spec_octile_cells.
    rewrite !F32_fabs_of_int by lia.
    rewrite F32_add_of_int by lia.
    rewrite F32_min_of_int by lia. reflexivity.
Qed.

Lemma calculate_heuristic_cells_witness :
  PathfindingUtils.calculate_heuristic 0 0 3 4 PathfindingUtils.HEURISTIC_EUCLIDEAN
    = spec_euclidean_cells 0 0 3 4
  /\ PathfindingUtils.calculate_heuristic 0 0 3 4 PathfindingUtils.HEURISTIC_DIAGONAL
     = spec_octile_cells 0 0 3 4
  /\ PathfindingUtils.calculate_heuristic 0 0 3 4 PathfindingUtils.HEURISTIC_EUCLIDEAN
     = F32.sqrtf (F32.of_int 25)
  /\ PathfindingUtils.calculate_heuristic 0 0 3 4 PathfindingUtils.HEURISTIC_DIAGONAL
     = F32.add (F32.of_int 7)
               (F32.mul (F32.sub (F32.sqrtf (F32.of_int 2)) (F32.of_int 2)) (F32.of_int 3)).
Proof.
  destruct (calculate_heuristic_cells 0 0 3 4) as (He & Hd & _ & Hsq & Hoct).
  - unfold Int32.in_range, Int32.min_int, Int32.max_int. lia.
  - unfold Int32.in_range, Int32.min_int, Int32.max_int. lia.
  - split; [exact He |]. split; [exact Hd |]. split.
    + apply Hsq. reflexivity.
    + apply Hoct. reflexivity.
Defined.


(* ===================================================================== *)
(** * Further properties *)
(* ===================================================================== *)

(** ** Index helpers: decoding *)

Lemma quot_rem_bounds (a w : Z) :
  0 < w ->
  a = w * Z.quot a w + Z.rem a w
  /\ Z.abs (Z.quot a w) <= Z.abs a
  /\ Z.abs (w * Z.quot a w) <= Z.abs a
  /\ (0 <= a -> 0 <= Z.rem a w < w /\ 0 <= Z.quot a w)
  /\ (a <= 0 -> - w < Z.rem a w <= 0 /\ Z.quot a w <= 0).
Proof.
  intros Hw. pose proof (Z.quot_rem' a w) as Hqr.
  destruct (Z.le_gt_cases 0 a) as [Hpos | Hneg].
  - pose proof (Z.rem_bound_pos a w Hpos Hw) as Hr.
    pose proof (Z.quot_pos a w Hpos Hw) as Hq.
    repeat split; try lia; try nia.
  - assert (Hr : - w < Z.rem a w <= 0).
    { rewrite <- (Z.opp_involutive a), Z.rem_opp_l by lia.
      pose proof (Z.rem_bound_pos (- a) w ltac:(lia) Hw). lia. }
    assert (Hq : Z.quot a w <= 0).
    { rewrite <- (Z.opp_involutive a), Z.quot_opp_l by lia.
      pose proof (Z.quot_pos (- a) w ltac:(lia) Hw). lia. }
    repeat split; try lia; try nia.
Qed.

(** X1: decoding an index and encoding the coordinates again gives the index
    back, for every [int] index (negative ones included) and every positive
    width. *)
Theorem toIndex_toCoords_roundtrip (index w : Z) :
  Int32.in_range index -> 0 < w ->
  PathfindingUtils.toIndex (PathfindingUtils.toCoords index w).1
                           (PathfindingUtils.toCoords index w).2 w = index.
Proof.
  intros Hidx Hw. unfold PathfindingUtils.toCoords.
  destruct (Z.leb_spec w 0) as [Hle | _]; [lia |].
  cbn [fst snd]. unfold Int32.div, Int32.rem.
  destruct (quot_rem_bounds index w Hw) as (Hqr & Hq & Hwq & Hpos & Hneg).
  unfold Int32.in_range, Int32.min_int, Int32.max_int in Hidx.
  set (q := Z.quot index w) in *. set (r := Z.rem index w) in *.
  clearbody q r.
  assert (Hsign : 0 <= index /\ 0 <= q \/ index <= 0 /\ q <= 0) by lia.
  rewrite (wrap_in_range q)
    by (unfold Int32.in_range, Int32.min_int, Int32.max_int; lia).
  unfold PathfindingUtils.toIndex, Int32.add, Int32.mul.
  rewrite (wrap_in_range (q * w))
    by (unfold Int32.in_range, Int32.min_int, Int32.max_int; lia).
  rewrite wrap_in_range
    by (unfold Int32.in_range, Int32.min_int, Int32.max_int; lia).
  lia.
Qed.

Lemma toIndex_toCoords_roundtrip_witness :
  PathfindingUtils.toIndex (PathfindingUtils.toCoords (-7) 3).1
                           (PathfindingUtils.toCoords (-7) 3).2 3 = -7.
Proof.
  apply toIndex_toCoords_roundtrip;
    unfold Int32.in_range, Int32.min_int, Int32.max_int; lia.
Defined.

(** X2: for a [w x h] grid, [toCoords] yields coordinates inside the grid
    exactly when the index is in [0, w * h); and then the index is
    [y * w + x]. *)
Theorem toCoords_in_grid (index w h : Z) :
  Int32.in_range index -> 0 < w -> 0 < h ->
  let '(x, y) := PathfindingUtils.toCoords index w in
  ((0 <= x < w /\ 0 <= y < h) <-> 0 <= index < w * h)
  /\ index = y * w + x.
Proof.
  intros Hidx Hw Hh. unfold PathfindingUtils.toCoords.
  destruct (Z.leb_spec w 0) as [Hle | _]; [lia |].
  unfold Int32.div, Int32.rem.
  destruct (quot_rem_bounds index w Hw) as (Hqr & Hq & Hwq & Hpos & Hneg).
  unfold Int32.in_range, Int32.min_int, Int32.max_int in Hidx.
  set (q := Z.quot index w) in *. set (r := Z.rem index w) in *.
  clearbody q r.
  assert (Hsign : 0 <= index /\ 0 <= q \/ index <= 0 /\ q <= 0) by lia.
  rewrite (wrap_in_range q)
    by (unfold Int32.in_range, Int32.min_int, Int32.max_int; lia).
  split; [| lia].
  destruct (Z.le_gt_cases 0 index) as [H0 | H0].
  - destruct (Hpos H0) as [Hr Hq0]. split.
    + intros [_ [_ Hy]]. split; [exact H0 | nia].
    + intros [_ Hlt]. split; [exact Hr |]. split; [exact Hq0 | nia].
  - destruct (Hneg ltac:(lia)) as [Hr Hq0]. split.
    + intros [[Hx _] [Hy _]]. nia.
    + lia.
Qed.

Lemma toCoords_in_grid_witness :
  let '(x, y) := PathfindingUtils.toCoords 37 10 in
  ((0 <= x < 10 /\ 0 <= y < 4) <-> 0 <= 37 < 10 * 4) /\ 37 = y * 10 + x.
Proof.
  apply (toCoords_in_grid 37 10 4);
    unfold Int32.in_range, Int32.min_int, Int32.max_int; lia.
Defined.

(** X3: on a [w x h] grid whose cell count fits an [int], [toIndex] maps the
    cells one-to-one into [0, w * h). *)
Theorem toIndex_injective (w h x1 y1 x2 y2 : Z) :
  0 < w -> 0 < h -> w * h <= Int32.max_int + 1 ->
  0 <= x1 < w -> 0 <= y1 < h -> 0 <= x2 < w -> 0 <= y2 < h ->
  0 <= PathfindingUtils.toIndex x1 y1 w < w * h
  /\ (PathfindingUtils.toIndex x1 y1 w = PathfindingUtils.toIndex x2 y2 w ->
      x1 = x2 /\ y1 = y2).
Proof.
  intros Hw Hh Hfit Hx1 Hy1 Hx2 Hy2.
  rewrite !toIndex_exact by (try lia; nia).
  split; [nia |]. intros Heq.
  assert (Hy : y1 = y2) by nia.
  subst y2. split; [lia | reflexivity].
Qed.

Lemma toIndex_injective_witness :
  0 <= PathfindingUtils.toIndex 7 3 10 < 10 * 4
  /\ (PathfindingUtils.toIndex 7 3 10 = PathfindingUtils.toIndex 7 3 10 ->
      7 = 7 /\ 3 = 3).
Proof.
  apply (toIndex_injective 10 4 7 3 7 3); unfold Int32.max_int; lia.
Defined.

(** ** Heuristics: sign and symmetry *)

(** Negating an [int] negates it again, except [INT_MIN]. *)
Lemma wrap_opp (z : Z) :
  Int32.wrap (- z) = - Int32.wrap z
  \/ (Int32.wrap z = Int32.min_int /\ Int32.wrap (- z) = Int32.min_int).
Proof.
  unfold Int32.wrap, Int32.min_int.
  pose proof (Z.div_mod (z + 2 ^ 31) (2 ^ 32) ltac:(lia)) as Hdm.
  pose proof (Z.mod_pos_bound (z + 2 ^ 31) (2 ^ 32) ltac:(lia)) as Hb.
  set (k := (z + 2 ^ 31) / 2 ^ 32) in *.
  set (r := (z + 2 ^ 31) mod 2 ^ 32) in *. clearbody k r.
  destruct (Z.eq_dec r 0) as [-> | Hr].
  - right. split; [lia |].
    replace (- z + 2 ^ 31) with (0 + (1 - k) * 2 ^ 32) by lia.
    rewrite Z.mod_add by lia. reflexivity.
  - left.
    replace (- z + 2 ^ 31) with ((2 ^ 32 - r) + (- k) * 2 ^ 32) by lia.
    rewrite Z.mod_add by lia. rewrite Z.mod_small by lia. lia.
Qed.

Lemma binary_round_aux_opp (prec emax : Z) (m e : Z) (l : location) :
  binary_round_aux prec emax true m e l
  = SFopp (binary_round_aux prec emax false m e l).
Proof.
  unfold binary_round_aux.
  destruct (shr_fexp prec emax m e l) as [mrs' e'].
  destruct (shr_fexp prec emax _ e' loc_Exact) as [mrs'' e''].
  destruct (shr_m mrs'') as [| p | p]; try reflexivity.
  destruct (e'' <=? emax - prec); reflexivity.
Qed.

Lemma binary_round_opp (prec emax : Z) (m : positive) (e : Z) :
  binary_round prec emax true m e = SFopp (binary_round prec emax false m e).
Proof.
  unfold binary_round.
  destruct (shl_align m e _) as [mz ez]. apply binary_round_aux_opp.
Qed.

Lemma F32_of_int_opp (z : Z) : z <> 0 -> F32.of_int (- z) = SFopp (F32.of_int z).
Proof.
  unfold F32.of_int, binary_normalize. destruct z as [| p | p]; intros Hz.
  - contradiction.
  - change (- Z.pos p) with (Z.neg p). cbv iota. apply binary_round_opp.
  - change (- Z.neg p) with (Z.pos p). cbv iota. rewrite binary_round_opp.
    destruct (binary_round F32.prec F32.emax false p 0) as [[] | [] | | [] m e];
      reflexivity.
Qed.

Lemma SFmul_opp_opp (prec emax : Z) (x : spec_float) :
  SFmul prec emax (SFopp x) (SFopp x) = SFmul prec emax x x.
Proof. destruct x as [[] | [] | | [] m e]; reflexivity. Qed.

Lemma SFabs_opp (x : spec_float) : SFabs (SFopp x) = SFabs x.
Proof. destruct x as [[] | [] | | [] m e]; reflexivity. Qed.

(** The square and the absolute value of a converted difference do not
    depend on the order of the subtraction. *)
Lemma F32_square_sub_sym (a b : Z) :
  F32.mul (F32.of_int (Int32.sub a b)) (F32.of_int (Int32.sub a b))
  = F32.mul (F32.of_int (Int32.sub b a)) (F32.of_int (Int32.sub b a)).
Proof.
  unfold Int32.sub. replace (b - a) with (- (a - b)) by lia.
  destruct (wrap_opp (a - b)) as [-> | [-> ->]]; [| reflexivity].
  destruct (Z.eq_dec (Int32.wrap (a - b)) 0) as [-> | Hne]; [reflexivity |].
  rewrite F32_of_int_opp by assumption. unfold F32.mul.
  rewrite SFmul_opp_opp. reflexivity.
Qed.

Lemma F32_fabs_sub_sym (a b : Z) :
  F32.fabs (F32.of_int (Int32.sub a b)) = F32.fabs (F32.of_int (Int32.sub b a)).
Proof.
  unfold Int32.sub. replace (b - a) with (- (a - b)) by lia.
  destruct (wrap_opp (a - b)) as [-> | [-> ->]]; [| reflexivity].
  destruct (Z.eq_dec (Int32.wrap (a - b)) 0) as [-> | Hne]; [reflexivity |].
  rewrite F32_of_int_opp by assumption. unfold F32.fabs.
  rewrite SFabs_opp. reflexivity.
Qed.

Lemma Int32_abs_sub_sym (a b : Z) :
  Int32.abs (Int32.sub a b) = Int32.abs (Int32.sub b a).
Proof.
  unfold Int32.sub, Int32.abs. replace (b - a) with (- (a - b)) by lia.
  destruct (wrap_opp (a - b)) as [-> | [-> ->]]; [| reflexivity].
  rewrite Z.abs_opp. reflexivity.
Qed.

(** X4: every heuristic is symmetric in its two cells. *)
Theorem calculate_heuristic_symmetric (x1 y1 x2 y2 heuristic_type : Z) :
  PathfindingUtils.calculate_heuristic x1 y1 x2 y2 heuristic_type
  = PathfindingUtils.calculate_heuristic x2 y2 x1 y1 heuristic_type.
Proof.
  assert (Hd : PathfindingUtils.internal.diagonal_distance x1 y1 x2 y2
               = PathfindingUtils.internal.diagonal_distance x2 y2 x1 y1).
  { unfold PathfindingUtils.internal.diagonal_distance.
    rewrite (F32_fabs_sub_sym x1 x2), (F32_fabs_sub_sym y1 y2). reflexivity. }
  unfold PathfindingUtils.calculate_heuristic.
  destruct (heuristic_type =? PathfindingUtils.HEURISTIC_DIAGONAL); [exact Hd |].
  destruct (heuristic_type =? PathfindingUtils.HEURISTIC_MANHATTAN).
  { unfold PathfindingUtils.internal.manhattan_distance.
    rewrite (Int32_abs_sub_sym x1 x2), (Int32_abs_sub_sym y1 y2). reflexivity. }
  destruct (heuristic_type =? PathfindingUtils.HEURISTIC_MIN_COST).
  { rewrite Hd. reflexivity. }
  unfold PathfindingUtils.internal.euclidean_distance.
  rewrite (F32_square_sub_sym x1 x2), (F32_square_sub_sym y1 y2). reflexivity.
Qed.

(** X5: the heuristic of a cell to itself is [+0.0f], whatever the type. *)
Theorem calculate_heuristic_same_cell (x y heuristic_type : Z) :
  PathfindingUtils.calculate_heuristic x y x y heuristic_type = S754_zero false.
Proof.
  unfold PathfindingUtils.calculate_heuristic,
    PathfindingUtils.internal.diagonal_distance,
    PathfindingUtils.internal.manhattan_distance,
    PathfindingUtils.internal.euclidean_distance, Int32.sub.
  rewrite !Z.sub_diag.
  destruct (heuristic_type =? PathfindingUtils.HEURISTIC_DIAGONAL);
    [vm_compute; reflexivity |].
  destruct (heuristic_type =? PathfindingUtils.HEURISTIC_MANHATTAN);
    [vm_compute; reflexivity |].
  destruct (heuristic_type =? PathfindingUtils.HEURISTIC_MIN_COST);
    vm_compute; reflexivity.
Qed.

(** ** Heuristics: exact values *)

Lemma Zdigits2_le (z n : Z) : 0 < z -> z < 2 ^ n -> Zdigits2 z <= n.
Proof.
  intros Hz Hlt. rewrite Zdigits2_log2 by assumption.
  apply Z.log2_lt_pow2 in Hlt; lia.
Qed.

Lemma sqrtrem_square (a : Z) : 0 <= a -> Z.sqrtrem (a * a) = (a, 0).
Proof.
  intros Ha. pose proof (Z.sqrtrem_spec (a * a) ltac:(nia)) as Hspec.
  pose proof (Z.sqrtrem_sqrt (a * a)) as Hfst.
  rewrite Z.sqrt_square in Hfst by assumption.
  destruct (Z.sqrtrem (a * a)) as [s r]. simpl in Hfst. subst s.
  f_equal. lia.
Qed.

(** The square root of a small perfect square is computed exactly. *)
Lemma F32_sqrt_square (k : positive) :
  Z.pos (k * k) < 2 ^ 24 ->
  F32.sqrtf (int_float false (k * k)) = int_float false k.
Proof.
  intros H.
  assert (Hk : Z.pos k < 2 ^ 24) by nia.
  pose proof (Zdigits2_small_int k Hk) as Hdk.
  pose proof (Zdigits2_small_int (k * k) H) as HD.
  pose proof (Zdigits2_mul_below (Z.pos k) (Z.pos k) ltac:(lia) ltac:(lia)) as Hlow.
  change (Z.pos k * Z.pos k) with (Z.pos (k * k)) in Hlow.
  assert (Hup : Zdigits2 (Z.pos (k * k)) <= 2 * Zdigits2 (Z.pos k)).
  { apply Zdigits2_le; [lia |].
    pose proof (Zdigits2_bounds (Z.pos k) ltac:(lia)) as [_ Hlt].
    replace (2 * Zdigits2 (Z.pos k)) with (Zdigits2 (Z.pos k) + Zdigits2 (Z.pos k)) by lia.
    rewrite pow2_add by lia. rewrite Pos2Z.inj_mul. nia. }
  pose proof (int_mantissa_pos k Hk) as Hmk.
  pose proof (int_mantissa_pos (k * k) H) as HmK.
  unfold F32.sqrtf, SFsqrt, int_float, SFsqrt_core_binary.
  change (Zdigits2 (Z.pos (int_mantissa (k * k))))
    with (Zdigits2 (Z.pos (int_mantissa (k * k)))).
  assert (Hd24 : Zdigits2 (Z.pos (int_mantissa (k * k))) = 24).
  { rewrite HmK, Zdigits2_mul_pow2 by lia. lia. }
  rewrite Hd24.
  set (dk := Zdigits2 (Z.pos k)) in *.
  set (D := Zdigits2 (Z.pos (k * k))) in *.
  assert (He' : Z.min (fexp F32.prec F32.emax (Z.div2 (24 + (D - 24) + 1)))
                      (Z.div2 (D - 24)) = dk - 24).
  { rewrite !Z.div2_div. unfold fexp, emin, F32.prec, F32.emax.
    assert (H1 : (24 + (D - 24) + 1) / 2 = dk).
    { symmetry. apply (Z.div_unique _ _ _ (D + 1 - 2 * dk)); lia. }
    rewrite H1.
    assert (H2 : dk - 13 <= (D - 24) / 2).
    { apply Z.div_le_lower_bound; lia. }
    lia. }
  rewrite He'.
  assert (Hs : D - 24 - 2 * (dk - 24) = D - 2 * dk + 24) by lia.
  rewrite Hs.
  destruct (D - 2 * dk + 24) as [| s | s] eqn:Hseq; [lia | | lia].
  rewrite Z.shiftl_mul_pow2 by lia.
  assert (Hsq : Z.pos (int_mantissa (k * k)) * 2 ^ Z.pos s
                = Z.pos (int_mantissa k) * Z.pos (int_mantissa k)).
  { rewrite HmK, Hmk. fold D dk. rewrite Pos2Z.inj_mul.
    rewrite <- Z.mul_assoc, <- pow2_add by lia.
    replace (24 - D + Z.pos s) with ((24 - dk) + (24 - dk)) by lia.
    rewrite pow2_add by lia. ring. }
  rewrite Hsq, sqrtrem_square by lia.
  cbn [Z.eqb].
  replace (Z.pos (int_mantissa k)) with (Z.pos (int_mantissa k) * 2 ^ 0) by lia.
  replace (dk - 24) with (dk - 24 - 0) at 1 by lia.
  apply binary_round_aux_exact; [exact (int_float_bounded k Hk) | lia].
Qed.

Lemma F32_sqrt_of_int_square (k : Z) :
  0 <= k -> k * k < 2 ^ 24 -> F32.sqrtf (F32.of_int (k * k)) = F32.of_int k.
Proof.
  intros Hk H. destruct k as [| p | p]; [reflexivity | | lia].
  change (Z.pos p * Z.pos p) with (Z.pos (p * p)).
  rewrite !F32_of_int_pos by nia. apply F32_sqrt_square. exact H.
Qed.

(** X6: when the squared distance between two cells is a perfect square
    [k^2] below [2^24] (cells in one row or column, Pythagorean offsets) the
    Euclidean heuristic is exactly [k]. *)
Theorem euclidean_exact_on_squares (x1 y1 x2 y2 k : Z) :
  0 <= k -> k * k < 2 ^ 24 ->
  (x1 - x2) * (x1 - x2) + (y1 - y2) * (y1 - y2) = k * k ->
  PathfindingUtils.calculate_heuristic x1 y1 x2 y2 PathfindingUtils.HEURISTIC_EUCLIDEAN
  = F32.of_int k.
Proof.
  intros Hk Hsmall Hsq.
  pose proof (Z.square_nonneg (x1 - x2)) as Hsx.
  pose proof (Z.square_nonneg (y1 - y2)) as Hsy.
  change (2 ^ 24) with 16777216 in *.
  assert (Hx : Int32.in_range (x1 - x2))
    by (unfold Int32.in_range, Int32.min_int, Int32.max_int; nia).
  assert (Hy : Int32.in_range (y1 - y2))
    by (unfold Int32.in_range, Int32.min_int, Int32.max_int; nia).
  unfold PathfindingUtils.calculate_heuristic.
  cbn [Z.eqb PathfindingUtils.HEURISTIC_EUCLIDEAN PathfindingUtils.HEURISTIC_DIAGONAL
       PathfindingUtils.HEURISTIC_MANHATTAN PathfindingUtils.HEURISTIC_MIN_COST].
  unfold PathfindingUtils.internal.euclidean_distance, Int32.sub.
  rewrite !wrap_in_range by assumption.
  rewrite !F32_square_of_int by (change (2 ^ 24) with 16777216; lia).
  rewrite F32_add_of_int by (change (2 ^ 24) with 16777216; lia).
  rewrite Hsq. apply F32_sqrt_of_int_square; [exact Hk |].
  change (2 ^ 24) with 16777216. exact Hsmall.
Qed.

Lemma euclidean_exact_on_squares_witness :
  PathfindingUtils.calculate_heuristic 10 20 7 24 PathfindingUtils.HEURISTIC_EUCLIDEAN
  = F32.of_int 5.
Proof.
  apply (euclidean_exact_on_squares 10 20 7 24 5); [lia | reflexivity | reflexivity].
Defined.

(** ** Heuristic dispatch *)

(** C10: for every [heuristic_type] other than [HEURISTIC_DIAGONAL],
    [HEURISTIC_MANHATTAN] and [HEURISTIC_MIN_COST] (the sentinel [-1]
    included) [calculate_heuristic] takes the [default] arm and returns the
    Euclidean distance between the two cells in grid units: the value the
    [HEURISTIC_EUCLIDEAN] selector returns, which is [sqrt(dx^2 + dy^2)]
    evaluated in binary32; when [dx^2 + dy^2] is below [2^24] it is the
    correctly rounded square root of that integer, and when that integer is
    a perfect square [k^2] it is the float whose value is exactly [k]. *)
Theorem calculate_heuristic_default (x1 y1 x2 y2 heuristic_type : Z) :
  heuristic_type <> PathfindingUtils.HEURISTIC_DIAGONAL ->
  heuristic_type <> PathfindingUtils.HEURISTIC_MANHATTAN ->
  heuristic_type <> PathfindingUtils.HEURISTIC_MIN_COST ->
  let d2 := (x1 - x2) * (x1 - x2) + (y1 - y2) * (y1 - y2) in
  let h := PathfindingUtils.calculate_heuristic x1 y1 x2 y2 heuristic_type in
  h = PathfindingUtils.calculate_heuristic x1 y1 x2 y2 PathfindingUtils.HEURISTIC_EUCLIDEAN
  /\ (Int32.in_range (x1 - x2) -> Int32.in_range (y1 - y2) ->
      h = spec_euclidean_cells x1 y1 x2 y2)
  /\ (d2 < 2 ^ 24 -> h = F32.sqrtf (F32.of_int d2))
  /\ (forall k, 0 <= k -> d2 = k * k -> k * k < 2 ^ 24 ->
      h = F32.of_int k
      /\ (0 < k ->
          exists m e, h = S754_finite false m e /\ e <= 0 /\ Z.pos m = k * 2 ^ (- e))).
Proof.
  intros Hd Hm Hc d2 h.
  assert (Hh : h = PathfindingUtils.internal.euclidean_distance x1 y1 x2 y2).
  { unfold h, PathfindingUtils.calculate_heuristic.
    destruct (Z.eqb_spec heuristic_type PathfindingUtils.HEURISTIC_DIAGONAL);
      [contradiction |].
    destruct (Z.eqb_spec heuristic_type PathfindingUtils.HEURISTIC_MANHATTAN);
      [contradiction |].
    destruct (Z.eqb_spec heuristic_type PathfindingUtils.HEURISTIC_MIN_COST);
      [contradiction |].
    reflexivity. }
  assert (Hcells : Int32.in_range (x1 - x2) -> Int32.in_range (y1 - y2) ->
                   h = spec_euclidean_cells x1 y1 x2 y2).
  { intros Hx Hy. rewrite Hh.
    unfold PathfindingUtils.internal.euclidean_distance, spec_euclidean_cells, Int32.sub.
    rewrite !wrap_in_range by assumption. reflexivity. }
  assert (Hsqrt : d2 < 2 ^ 24 -> h = F32.sqrtf (F32.of_int d2)).
  { intros Hsmall. unfold d2 in *.
    pose proof (Z.square_nonneg (x1 - x2)) as Hsx.
    pose proof (Z.square_nonneg (y1 - y2)) as Hsy.
    change (2 ^ 24) with 16777216 in Hsmall.
    rewrite Hcells
      by (unfold Int32.in_range, Int32.min_int, Int32.max_int; nia).
    unfold spec_euclidean_cells.
    rewrite !F32_square_of_int by (change (2 ^ 24) with 16777216; lia).
    rewrite F32_add_of_int by (change (2 ^ 24) with 16777216; lia).
    reflexivity. }
  split; [| split; [exact Hcells | split; [exact Hsqrt |]]].
  - rewrite Hh. reflexivity.
  - intros k Hk Hsq Hsmall.
    assert (Hval : h = F32.of_int k).
    { rewrite Hsqrt by (rewrite Hsq; exact Hsmall).
      rewrite Hsq. apply F32_sqrt_of_int_square; assumption. }
    split; [exact Hval |].
    intros Hpos. destruct k as [| p | p]; try lia.
    assert (Hp : Z.pos p < 2 ^ 24) by (change (2 ^ 24) with 16777216 in *; nia).
    pose proof (Zdigits2_small_int p Hp) as Hdig.
    exists (int_mantissa p), (Zdigits2 (Z.pos p) - 24).
    split; [rewrite Hval; apply F32_of_int_pos; exact Hp |].
    split; [lia |].
    rewrite int_mantissa_pos by exact Hp. f_equal. f_equal. lia.
Qed.

Lemma calculate_heuristic_default_witness :
  PathfindingUtils.calculate_heuristic 0 0 3 4 (-1) = F32.of_int 5
  /\ PathfindingUtils.calculate_heuristic 0 0 3 4 (-1) = spec_euclidean_cells 0 0 3 4
  /\ PathfindingUtils.calculate_heuristic 0 0 3 4 (-1)
     = PathfindingUtils.calculate_heuristic 0 0 3 4 PathfindingUtils.HEURISTIC_EUCLIDEAN
  /\ exists m e, PathfindingUtils.calculate_heuristic 0 0 3 4 (-1) = S754_finite false m e
                 /\ e <= 0 /\ Z.pos m = 5 * 2 ^ (- e).
Proof.
  destruct (calculate_heuristic_default 0 0 3 4 (-1)) as (He & Hcells & _ & Hexact).
  - unfold PathfindingUtils.HEURISTIC_DIAGONAL. lia.
  - unfold PathfindingUtils.HEURISTIC_MANHATTAN. lia.
  - unfold PathfindingUtils.HEURISTIC_MIN_COST. lia.
  - destruct (Hexact 5) as [Hfive Hvalue]; [lia | reflexivity | reflexivity |].
    split; [exact Hfive |]. split.
    + apply Hcells; unfold Int32.in_range, Int32.min_int, Int32.max_int; lia.
    + split; [exact He |]. apply Hvalue. lia.
Defined.

(** The conversion of a non-negative [int] is its own absolute value. *)
Lemma binary_round_aux_abs (prec emax : Z) (m e : Z) (l : location) :
  SFabs (binary_round_aux prec emax false m e l) = binary_round_aux prec emax false m e l.
Proof.
  unfold binary_round_aux.
  destruct (shr_fexp prec emax m e l) as [mrs' e'].
  destruct (shr_fexp prec emax _ e' loc_Exact) as [mrs'' e''].
  destruct (shr_m mrs'') as [| p | p]; try reflexivity.
  destruct (e'' <=? emax - prec); reflexivity.
Qed.

Lemma F32_fabs_of_int_nonneg (z : Z) :
  0 <= z -> F32.fabs (F32.of_int z) = F32.of_int z.
Proof.
  intros Hz. destruct z as [| p | p]; [reflexivity | | lia].
  unfold F32.fabs, F32.of_int, binary_normalize, binary_round.
  destruct (shl_align p 0 _) as [mz ez]. apply binary_round_aux_abs.
Qed.

Lemma F32_fabs_of_int_abs (z : Z) : F32.fabs (F32.of_int z) = F32.of_int (Z.abs z).
Proof.
  destruct (Z.le_gt_cases 0 z) as [Hz | Hz].
  - rewrite Z.abs_eq by assumption. apply F32_fabs_of_int_nonneg. exact Hz.
  - rewrite Z.abs_neq by lia.
    replace z with (- - z) at 1 by lia.
    rewrite F32_of_int_opp by lia. unfold F32.fabs. rewrite SFabs_opp.
    apply F32_fabs_of_int_nonneg. lia.
Qed.

(** The octile formula on a pair of which one component is [+0.0f]. *)
Lemma octile_axis (X : spec_float) :
  F32.canonical X -> F32.fabs X = X ->
  let c := F32.sub (PathfindingUtils.costs 4)
                   (F32.mul (F32.of_int 2) (PathfindingUtils.costs 0)) in
  F32.add (F32.mul (PathfindingUtils.costs 0) (F32.add X (S754_zero false)))
          (F32.mul c (F32.min X (S754_zero false))) = X
  /\ F32.add (F32.mul (PathfindingUtils.costs 0) (F32.add (S754_zero false) X))
             (F32.mul c (F32.min (S754_zero false) X)) = X.
Proof.
  intros Hcan Habs c.
  assert (Hc : c = S754_finite true 9827866 (-24)) by (vm_compute; reflexivity).
  rewrite Hc. change (PathfindingUtils.costs 0) with (F32.of_int 1).
  assert (Hadd1 : F32.add X (S754_zero false) = X)
    by (destruct X as [[] | [] | | [] m e]; try discriminate; reflexivity).
  assert (Hadd2 : F32.add (S754_zero false) X = X)
    by (destruct X as [[] | [] | | [] m e]; try discriminate; reflexivity).
  rewrite Hadd1, Hadd2, F32_mul_one_l by exact Hcan.
  destruct X as [[] | [] | | [] m e]; try discriminate; split; reflexivity.
Qed.

(** X7: for two cells in the same row or the same column, the Diagonal and
    the Manhattan heuristics both return the converted number of cells
    between them. *)
Theorem axis_aligned_heuristics (x1 y1 x2 y2 : Z) :
  x1 = x2 \/ y1 = y2 ->
  Z.abs (x1 - x2) + Z.abs (y1 - y2) <= Int32.max_int ->
  PathfindingUtils.calculate_heuristic x1 y1 x2 y2 PathfindingUtils.HEURISTIC_DIAGONAL
  = F32.of_int (Z.abs (x1 - x2) + Z.abs (y1 - y2))
  /\ PathfindingUtils.calculate_heuristic x1 y1 x2 y2 PathfindingUtils.HEURISTIC_MANHATTAN
     = F32.of_int (Z.abs (x1 - x2) + Z.abs (y1 - y2)).
Proof.
  intros Haxis Hfit. unfold Int32.max_int in Hfit.
  assert (Hx : Int32.in_range (x1 - x2))
    by (unfold Int32.in_range, Int32.min_int, Int32.max_int; lia).
  assert (Hy : Int32.in_range (y1 - y2))
    by (unfold Int32.in_range, Int32.min_int, Int32.max_int; lia).
  unfold PathfindingUtils.calculate_heuristic.
  cbn [Z.eqb Pos.eqb PathfindingUtils.HEURISTIC_EUCLIDEAN PathfindingUtils.HEURISTIC_DIAGONAL
       PathfindingUtils.HEURISTIC_MANHATTAN PathfindingUtils.HEURISTIC_MIN_COST].
  unfold PathfindingUtils.internal.diagonal_distance,
    PathfindingUtils.internal.manhattan_distance, Int32.sub, Int32.add, Int32.abs.
  rewrite (wrap_in_range (x1 - x2)), (wrap_in_range (y1 - y2)) by assumption.
  rewrite (wrap_in_range (Z.abs (x1 - x2))), (wrap_in_range (Z.abs (y1 - y2)))
    by (unfold Int32.in_range, Int32.min_int, Int32.max_int; lia).
  rewrite (wrap_in_range (Z.abs (x1 - x2) + Z.abs (y1 - y2)))
    by (unfold Int32.in_range, Int32.min_int, Int32.max_int; lia).
  rewrite !F32_fabs_of_int_abs.
  split; [| reflexivity].
  destruct Haxis as [-> | ->]; rewrite Z.sub_diag; change (Z.abs 0) with 0;
    change (F32.of_int 0) with (S754_zero false).
  - rewrite Z.add_0_l.
    apply (octile_axis (F32.of_int (Z.abs (y1 - y2)))).
    + apply F32_of_int_canonical.
    + apply F32_fabs_of_int_nonneg. lia.
  - rewrite Z.add_0_r.
    apply (octile_axis (F32.of_int (Z.abs (x1 - x2)))).
    + apply F32_of_int_canonical.
    + apply F32_fabs_of_int_nonneg. lia.
Qed.

Lemma axis_aligned_heuristics_witness :
  PathfindingUtils.calculate_heuristic 3 9 40 9 PathfindingUtils.HEURISTIC_DIAGONAL
  = F32.of_int 37
  /\ PathfindingUtils.calculate_heuristic 3 9 40 9 PathfindingUtils.HEURISTIC_MANHATTAN
     = F32.of_int 37.
Proof.
  apply (axis_aligned_heuristics 3 9 40 9); [right; reflexivity |].
  unfold Int32.max_int. simpl. lia.
Defined.

(** ** The direction tables *)

(** Settles one neighbour: direction [i] is the only one with its offset. *)
Ltac solve_direction i :=
  exists i; split; [vm_compute; lia |];
  repeat split; try (vm_compute; reflexivity);
  let j := fresh "j" in
  let Hj := fresh "Hj" in
  intros j Hj;
  change (Z.to_nat PathfindingUtils.NUM_DIRECTIONS) with 8%nat in Hj;
  do 8 (destruct j as [| j]; [try reflexivity; vm_compute; intros; discriminate |]);
  lia.

(** X8: the eight direction offsets are exactly the eight neighbours of a
    cell, each listed once, and the base cost of a direction is the
    Euclidean length of its offset: [1.0f] for the four axis moves and
    [sqrtf(2.0f)] for the four diagonal ones. *)
Theorem directions_are_neighbours (a b : Z) :
  -1 <= a <= 1 -> -1 <= b <= 1 -> (a, b) <> (0, 0) ->
  (exists i : nat,
      (i < Z.to_nat PathfindingUtils.NUM_DIRECTIONS)%nat
      /\ PathfindingUtils.dx i = a /\ PathfindingUtils.dy i = b
      /\ (forall j : nat,
             (j < Z.to_nat PathfindingUtils.NUM_DIRECTIONS)%nat ->
             PathfindingUtils.dx j = a -> PathfindingUtils.dy j = b -> j = i)
      /\ PathfindingUtils.costs i
         = PathfindingUtils.internal.euclidean_distance 0 0 a b
      /\ PathfindingUtils.costs i
         = (if (a =? 0) || (b =? 0) then F32.of_int 1 else F32.sqrtf (F32.of_int 2)))
  /\ (forall j : nat,
         (j < Z.to_nat PathfindingUtils.NUM_DIRECTIONS)%nat ->
         -1 <= PathfindingUtils.dx j <= 1 /\ -1 <= PathfindingUtils.dy j <= 1
         /\ (PathfindingUtils.dx j, PathfindingUtils.dy j) <> (0, 0)).
Proof.
  intros Ha Hb Hne. split.
  - assert (Hcases : a = -1 \/ a = 0 \/ a = 1) by lia.
    assert (Hcases' : b = -1 \/ b = 0 \/ b = 1) by lia.
    destruct Hcases as [-> | [-> | ->]], Hcases' as [-> | [-> | ->]];
      try (exfalso; apply Hne; reflexivity).
    + solve_direction 6%nat.
    + solve_direction 2%nat.
    + solve_direction 5%nat.
    + solve_direction 3%nat.
    + solve_direction 1%nat.
    + solve_direction 7%nat.
    + solve_direction 0%nat.
    + solve_direction 4%nat.
  - intros j Hj.
    change (Z.to_nat PathfindingUtils.NUM_DIRECTIONS) with 8%nat in Hj.
    do 8 (destruct j as [| j];
          [vm_compute; repeat split; discriminate |]).
    lia.
Qed.

Lemma directions_are_neighbours_witness :
  exists i : nat,
    (i < Z.to_nat PathfindingUtils.NUM_DIRECTIONS)%nat
    /\ PathfindingUtils.dx i = -1 /\ PathfindingUtils.dy i = 1
    /\ PathfindingUtils.costs i = F32.sqrtf (F32.of_int 2).
Proof.
  destruct (directions_are_neighbours (-1) 1) as [(i & Hi & Hx & Hy & _ & _ & Hc) _];
    [lia | lia | discriminate |].
  exists i. repeat split; assumption.
Defined.

(** ** [GridPoint::Hash] *)

Lemma lxor_cancel_r (a b c : Z) : Z.lxor a c = Z.lxor b c -> a = b.
Proof.
  intros H. apply (f_equal (fun t => Z.lxor t c)) in H.
  rewrite !Z.lxor_assoc, !Z.lxor_nilpotent, !Z.lxor_0_r in H. exact H.
Qed.

Lemma lxor_cancel_l (a b c : Z) : Z.lxor c a = Z.lxor c b -> a = b.
Proof. rewrite !(Z.lxor_comm c). apply lxor_cancel_r. Qed.

(** Multiplication by an odd constant is one-to-one on [std::size_t]. *)
Lemma size_t_mul_odd_inj (k kinv a b : Z) :
  (k * kinv) mod 2 ^ 64 = 1 ->
  (size_t_of_int a * k) mod 2 ^ 64 = (size_t_of_int b * k) mod 2 ^ 64 ->
  size_t_of_int a = size_t_of_int b.
Proof.
  intros Hinv H. unfold size_t_of_int in *.
  assert (Hback : forall z, ((z mod 2 ^ 64 * k) mod 2 ^ 64 * kinv) mod 2 ^ 64 = z mod 2 ^ 64).
  { intros z. rewrite Z.mul_mod_idemp_l by lia.
    rewrite <- Z.mul_assoc. rewrite <- Z.mul_mod_idemp_r by lia.
    rewrite Hinv, Z.mul_1_r. apply Z.mod_mod. lia. }
  rewrite <- (Hback a), <- (Hback b), H. reflexivity.
Qed.

Lemma size_t_of_int_inj (a b : Z) :
  Int32.in_range a -> Int32.in_range b -> size_t_of_int a = size_t_of_int b -> a = b.
Proof.
  unfold Int32.in_range, Int32.min_int, Int32.max_int, size_t_of_int.
  intros Ha Hb H.
  pose proof (Z.div_mod a (2 ^ 64) ltac:(lia)) as Hda.
  pose proof (Z.div_mod b (2 ^ 64) ltac:(lia)) as Hdb.
  pose proof (Z.mod_pos_bound a (2 ^ 64) ltac:(lia)) as Hba.
  pose proof (Z.mod_pos_bound b (2 ^ 64) ltac:(lia)) as Hbb.
  set (qa := a / 2 ^ 64) in *. set (qb := b / 2 ^ 64) in *.
  set (ra := a mod 2 ^ 64) in *. set (rb := b mod 2 ^ 64) in *.
  clearbody qa qb ra rb. lia.
Qed.

(** X9: two different cells of one row, or of one column, never have the
    same hash; cells that [operator==] identifies have the same hash. *)
Theorem GridPoint_Hash_row_column (p q : GridPoint) :
  Int32.in_range (gp_x p) -> Int32.in_range (gp_y p) ->
  Int32.in_range (gp_x q) -> Int32.in_range (gp_y q) ->
  gp_x p = gp_x q \/ gp_y p = gp_y q ->
  (GridPoint_Hash p = GridPoint_Hash q <-> GridPoint_eqb p q = true).
Proof.
  intros Hpx Hpy Hqx Hqy Hline. split.
  - intros Hhash. apply GridPoint_eqb_eq.
    destruct p as [px py], q as [qx qy]. unfold GridPoint_Hash in Hhash.
    cbn [gp_x gp_y] in *.
    destruct Hline as [<- | <-].
    + apply lxor_cancel_l in Hhash.
      apply (size_t_mul_odd_inj 19349663 18071728105226623839) in Hhash;
        [| reflexivity].
      apply size_t_of_int_inj in Hhash; [subst; reflexivity | assumption | assumption].
    + apply lxor_cancel_r in Hhash.
      apply (size_t_mul_odd_inj 73856093 13527148788247330805) in Hhash;
        [| reflexivity].
      apply size_t_of_int_inj in Hhash; [subst; reflexivity | assumption | assumption].
  - intros Heq. apply GridPoint_eqb_eq in Heq. subst q. reflexivity.
Qed.

Lemma GridPoint_Hash_row_column_witness :
  GridPoint_Hash (mkGridPoint 3 (-7)) = GridPoint_Hash (mkGridPoint 12 (-7))
  <-> GridPoint_eqb (mkGridPoint 3 (-7)) (mkGridPoint 12 (-7)) = true.
Proof.
  apply GridPoint_Hash_row_column;
    [unfold Int32.in_range, Int32.min_int, Int32.max_int; simpl; lia ..
    | right; reflexivity].
Defined.

(** ** Components of [result] the [try] block leaves alone *)

Lemma keeps_ret {A F : Type} (f : BackendResult -> F) (a : A) : keeps f (mret a).
Proof. intros r. reflexivity. Qed.

Lemma keeps_throw {A F : Type} (f : BackendResult -> F) (w : string) :
  keeps f (@throw A w).
Proof. intros r. reflexivity. Qed.

Lemma keeps_lift {A F : Type} (f : BackendResult -> F) (o : outcome A) :
  keeps f (lift o).
Proof. intros r. reflexivity. Qed.

Lemma keeps_bind {A C F : Type} (f : BackendResult -> F) (m : M A) (k : A -> M C) :
  keeps f m -> (forall a, keeps f (k a)) -> keeps f (m ≫= k).
Proof.
  intros Hm Hk r. unfold mbind, M_bind.
  specialize (Hm r). destruct (m r) as [r' [a | w]]; simpl in *.
  - rewrite Hk. exact Hm.
  - exact Hm.
Qed.

Lemma keeps_assign {F : Type} (f : BackendResult -> F)
      (g : BackendResult -> BackendResult) :
  (forall r, f (g r) = f r) -> keeps f (assign g).
Proof. intros Hg r. apply Hg. Qed.

(** One step of the proof that a computation of [M] keeps a component. *)
Ltac keeps_component :=
  first
    [ apply keeps_ret
    | apply keeps_throw
    | apply keeps_lift
    | apply keeps_assign; intros; reflexivity
    | apply keeps_bind; [| intros ]
    | match goal with
      | |- keeps _ (if ?c then _ else _) => destruct c
      | |- keeps _ (match ?o with Some _ => _ | None => _ end) => destruct o
      | |- keeps _ (let '(_, _) := ?x in _) => destruct x
      | |- keeps _ (match ?x with (_, _) => _ end) => destruct x
      end ].

Lemma scan_map_pure {F : Type} (f : BackendResult -> F) (B : Backend)
      (params : BackendInputParams) :
  keeps f (scan_map B params).
Proof. unfold scan_map. cbv zeta. repeat keeps_component. Qed.

Lemma process_grid_pure {F : Type} (f : BackendResult -> F) (B : Backend)
      (params : BackendInputParams) :
  keeps f (process_grid B params).
Proof. unfold process_grid, regenerate_grid. cbv zeta. repeat keeps_component. Qed.

Lemma finalize_total (wps : list GridPoint) (st : LoopState) (r : BackendResult) :
  (finalize wps st r).2 = Normal tt.
Proof.
  unfold finalize.
  repeat match goal with
         | |- context [if ?c then _ else _] => destruct c
         end; reflexivity.
Qed.

(** *** The input echo *)

Lemma prepare_elevation_echo (B : Backend) (params : BackendInputParams) scan norm mx :
  keeps input_echo (prepare_elevation B params scan norm mx).
Proof.
  unfold prepare_elevation. destruct scan as [[scanResult canFetch] scale].
  cbv zeta. repeat keeps_component.
Qed.

Lemma prepare_echo (B : Backend) (params : BackendInputParams) :
  keeps input_echo (prepare B params).
Proof.
  unfold prepare.
  apply keeps_bind; [apply scan_map_pure | intros scan].
  apply keeps_bind; [apply process_grid_pure | intros [g n]].
  cbv zeta.
  repeat first [ apply prepare_elevation_echo | keeps_component ].
Qed.

Lemma finalize_echo (wps : list GridPoint) (st : LoopState) :
  keeps input_echo (finalize wps st).
Proof. unfold finalize. repeat keeps_component. Qed.

Lemma try_block_echo (B : Backend) (params : BackendInputParams) :
  keeps input_echo (try_block B params).
Proof.
  unfold try_block.
  apply keeps_bind; [apply prepare_echo | intros prep].
  apply keeps_bind; [apply keeps_lift | intros st].
  apply finalize_echo.
Qed.

Lemma processAndFindPath_input_echo (B : Backend) (params : BackendInputParams) :
  input_echo (processAndFindPath B params) = input_echo (initial_result params).
Proof.
  unfold processAndFindPath.
  pose proof (try_block_echo B params (initial_result params)) as Hk.
  destruct (try_block B params (initial_result params)) as [r [[] | w]];
    simpl in Hk; [exact Hk |].
  rewrite <- Hk. reflexivity.
Qed.

Lemma result_echo_fields (B : Backend) (params : BackendInputParams) :
  usedMapFilePath (processAndFindPath B params) = mapFilePath params
  /\ usedGridWidth (processAndFindPath B params) = desiredGridWidth params
  /\ usedGridHeight (processAndFindPath B params) = desiredGridHeight params.
Proof.
  pose proof (processAndFindPath_input_echo B params) as H.
  unfold input_echo in H. simpl in H. inversion H. repeat split; assumption.
Qed.

Lemma result_echoes_controls (B : Backend) (params : BackendInputParams) :
  currentControlsFilePath (processAndFindPath B params) = controlsFilePath params.
Proof.
  pose proof (processAndFindPath_input_echo B params) as H.
  unfold input_echo in H. simpl in H. inversion H. reflexivity.
Qed.

(** X10: whatever happens during a run, success, failure or exception, the
    result echoes the map path, the controls path and the grid dimensions
    of the request. *)
Theorem result_echoes_request (B : Backend) (params : BackendInputParams) :
  usedMapFilePath (processAndFindPath B params) = mapFilePath params
  /\ currentControlsFilePath (processAndFindPath B params) = controlsFilePath params
  /\ usedGridWidth (processAndFindPath B params) = desiredGridWidth params
  /\ usedGridHeight (processAndFindPath B params) = desiredGridHeight params.
Proof.
  pose proof (processAndFindPath_input_echo B params) as H.
  unfold input_echo in H. simpl in H. inversion H. repeat split; assumption.
Qed.

(** ** Success, path and message of a run *)

Lemma concatenate_nonempty (n : nat) (full segment : list Z) :
  segment <> [] -> (concatenate n full segment).1 <> [].
Proof.
  intros Hseg. unfold concatenate.
  destruct full as [| f full]; [exact Hseg |].
  destruct segment as [| front rest]; [contradiction |].
  repeat match goal with
         | |- context [if ?c then _ else _] => destruct c
         end; simpl; discriminate.
Qed.

Section LoopOutcome.

Context (B : Backend) (params : BackendInputParams)
  (grid : mapgeo.Grid_V3) (field : ElevationField).

(** An iteration that runs to its end leaves a non-empty running result. *)
Lemma segment_body_continue_nonempty (i : nat) (a b : GridPoint) (st st' : LoopState) :
  segment_body B params grid field i a b st = Continue st' ->
  full_path_indices st' <> [].
Proof.
  unfold segment_body.
  destruct (negb (mapgeo.inBounds grid (gp_x a) (gp_y a))
            || negb (mapgeo.inBounds grid (gp_x b) (gp_y b))); [discriminate |].
  destruct (GridPoint_eqb a b).
  { intros H; inversion H; subst. clear H.
    cbn [full_path_indices add_log].
    destruct (full_path_indices st) as [| z zs] eqn:Hfull; simpl; [discriminate |].
    destruct (negb _); simpl; [| rewrite Hfull; discriminate].
    destruct zs; discriminate. }
  destruct (call_selected_pathfinder B params grid field a b) as [seg | w]; [| discriminate].
  destruct (is_empty seg) eqn:Hseg; [discriminate |].
  pose proof (concatenate_nonempty (i + 1)
                (full_path_indices (add_log (LogSegmentTook (i + 1))
                   (add_log (LogCalculatingSegment (i + 1) a b) st))) seg) as Hne.
  destruct (concatenate _ _ _) as [joined warnings].
  intros H; inversion H; subst. rewrite log_fold_add. simpl.
  apply Hne. destruct seg; [discriminate | discriminate].
Qed.

(** A [break] stores one of the two segment messages. *)
Lemma segment_body_break_message (i : nat) (a b : GridPoint) (st st' : LoopState) :
  segment_body B params grid field i a b st = Break st' ->
  segment_error (errorMsg st').
Proof.
  unfold segment_body.
  destruct (negb (mapgeo.inBounds grid (gp_x a) (gp_y a))
            || negb (mapgeo.inBounds grid (gp_x b) (gp_y b))).
  { intros H; inversion H; subst. exact I. }
  destruct (GridPoint_eqb a b); [discriminate |].
  destruct (call_selected_pathfinder B params grid field a b) as [seg | w]; [| discriminate].
  destruct (is_empty seg).
  - intros H; inversion H; subst. exact I.
  - destruct (concatenate _ _ _). discriminate.
Qed.

Lemma segment_loop_nonempty (wps : list GridPoint) :
  forall i st st',
    segment_loop B params grid field i wps st = Normal st' ->
    path_found_for_all_segments st' = true ->
    (2 <= length wps)%nat \/ full_path_indices st <> [] ->
    full_path_indices st' <> [].
Proof.
  induction wps as [| a rest IH]; intros i st st' Hrun Hflag Hpre.
  - simpl in Hrun. inversion Hrun; subst. destruct Hpre as [Hlen | H]; [simpl in Hlen; lia | exact H].
  - destruct rest as [| b rest].
    + simpl in Hrun. inversion Hrun; subst.
      destruct Hpre as [Hlen | H]; [simpl in Hlen; lia | exact H].
    + rewrite segment_loop_cons in Hrun.
      destruct (segment_body B params grid field i a b st) as [st1 | st1 | w] eqn:Hbody.
      * apply (IH (S i) st1 st' Hrun Hflag). right.
        eapply segment_body_continue_nonempty; eauto.
      * inversion Hrun; subst. apply segment_body_break in Hbody.
        destruct Hbody as [Hf _]. congruence.
      * discriminate.
Qed.

Lemma segment_loop_failure_message (wps : list GridPoint) :
  forall i st st',
    segment_loop B params grid field i wps st = Normal st' ->
    path_found_for_all_segments st = true ->
    path_found_for_all_segments st' = false ->
    segment_error (errorMsg st').
Proof.
  induction wps as [| a rest IH]; intros i st st' Hrun Hflag Hfail.
  - simpl in Hrun. inversion Hrun; subst. congruence.
  - destruct rest as [| b rest].
    + simpl in Hrun. inversion Hrun; subst. congruence.
    + rewrite segment_loop_cons in Hrun.
      destruct (segment_body B params grid field i a b st) as [st1 | st1 | w] eqn:Hbody.
      * apply (IH (S i) st1 st' Hrun); [| exact Hfail].
        rewrite (segment_body_continue _ _ _ _ _ _ _ _ _ Hbody). exact Hflag.
      * inversion Hrun; subst. eapply segment_body_break_message; eauto.
      * discriminate.
Qed.

End LoopOutcome.

Lemma prepare_elevation_pure_message (B : Backend) (params : BackendInputParams)
      scan norm mx :
  keeps errorMessage (prepare_elevation B params scan norm mx).
Proof.
  unfold prepare_elevation. destruct scan as [[scanResult canFetch] scale].
  cbv zeta. repeat keeps_component.
Qed.

Lemma prepare_pure_message (B : Backend) (params : BackendInputParams) :
  keeps errorMessage (prepare B params).
Proof.
  unfold prepare.
  apply keeps_bind; [apply scan_map_pure | intros scan].
  apply keeps_bind; [apply process_grid_pure | intros [g n]].
  cbv zeta.
  repeat first [ apply prepare_elevation_pure_message | keeps_component ].
Qed.

(** The three ways a run ends. *)
Lemma processAndFindPath_outcome (B : Backend) (params : BackendInputParams) :
  let r := processAndFindPath B params in
  (success r = true /\ fullPathIndices r <> [] /\ errorMessage r = MsgEmpty)
  \/ (success r = false /\ fullPathIndices r = [] /\ segment_error (errorMessage r))
  \/ (success r = false /\ fullPathIndices r = []
      /\ exists what, errorMessage r = MsgBackendError what).
Proof.
  intros r. subst r.
  destruct (prepare B params (initial_result params)) as [r1 [prep | w]] eqn:Hprep.
  - pose proof (prepare_path_empty _ _ _ _ Hprep) as Hpath.
    pose proof (prepare_pure_message B params (initial_result params)) as Hmsg.
    rewrite Hprep in Hmsg. simpl in Hmsg.
    pose proof (prepare_waypoints_length B params _ _ _ Hprep) as Hlen.
    rewrite (processAndFindPath_prepared _ _ _ _ Hprep).
    destruct (segment_loop B params (prep_grid prep) (prep_field prep) 0
                (prep_waypoints prep) LoopState_init) as [st | w] eqn:Hloop.
    + unfold finalize.
      destruct (path_found_for_all_segments st) eqn:Hflag.
      * pose proof (segment_loop_nonempty _ _ _ _ _ _ _ _ Hloop Hflag (or_introl Hlen)) as Hne.
        destruct (full_path_indices st) as [| z zs] eqn:Hfull; [contradiction |].
        left. simpl. repeat split; [discriminate | exact Hmsg].
      * right. left. simpl. repeat split.
        eapply segment_loop_failure_message; eauto.
    + right. right. simpl. repeat split; [exact Hpath |]. eauto.
  - assert (Hr : processAndFindPath B params = catch_exception w r1).
    { unfold processAndFindPath, try_block.
      unfold mbind at 1, M_bind at 1. rewrite Hprep. reflexivity. }
    rewrite Hr. right. right. simpl. repeat split; [| eauto].
    eapply prepare_path_empty; eauto.
Qed.

(** X11: a run succeeds exactly when it returns a non-empty path, and
    exactly when it returns no message.  The two "success with a message"
    branches of "Finalize Result" are never taken: a segment of identical
    points stores its index, so the running result is not empty once the
    loop has been through a segment, and fewer than two waypoints throw
    before the loop. *)
Theorem success_path_message (B : Backend) (params : BackendInputParams) :
  let r := processAndFindPath B params in
  (success r = true <-> fullPathIndices r <> [])
  /\ (success r = true <-> errorMessage r = MsgEmpty)
  /\ errorMessage r <> MsgIdenticalPointsOnly
  /\ errorMessage r <> MsgNotEnoughWaypoints.
Proof.
  intros r. subst r.
  destruct (processAndFindPath_outcome B params)
    as [(Hs & Hp & Hm) | [(Hs & Hp & Hm) | (Hs & Hp & what & Hm)]];
    rewrite Hs, ?Hp; rewrite ?Hm.
  - repeat split; try discriminate; auto.
  - destruct (errorMessage (processAndFindPath B params)); try contradiction;
      repeat split; try discriminate; try congruence.
  - repeat split; try discriminate; try congruence.
Qed.

(** ** Unsupported algorithm names *)

Section UnknownAlgorithm.

Context (B : Backend) (params : BackendInputParams)
  (grid : mapgeo.Grid_V3) (field : ElevationField).

Lemma call_selected_pathfinder_unsupported (a b : GridPoint) :
  algorithmName params ∉ cpu_algorithms ->
  call_selected_pathfinder B params grid field a b
  = Raised (unsupported_algorithm (algorithmName params)).
Proof.
  intros Hname. unfold call_selected_pathfinder, unsupported_algorithm.
  repeat match goal with
         | |- context [String.eqb ?s ?t] =>
           destruct (String.eqb_spec s t) as [Heq | _];
             [exfalso; apply Hname; rewrite Heq; unfold cpu_algorithms;
              repeat first [ left | right ] |]
         end.
  destruct (decide _); reflexivity.
Qed.

Lemma segment_loop_unsupported (wps : list GridPoint) :
  forall i st,
    algorithmName params ∉ cpu_algorithms ->
    all_in_bounds grid wps ->
    (exists pre a b rest, wps = pre ++ a :: b :: rest /\ a <> b) ->
    segment_loop B params grid field i wps st
    = Raised (unsupported_algorithm (algorithmName params)).
Proof.
  induction wps as [| x wps IH]; intros i st Hname Hin (pre & a & b & rest & Hwps & Hab).
  { destruct pre; discriminate. }
  destruct wps as [| y wps].
  { destruct pre as [| ? [| ? ?]]; discriminate. }
  rewrite segment_loop_cons.
  pose proof Hin as Hin'. unfold all_in_bounds in Hin'.
  apply Forall_cons in Hin'. destruct Hin' as [Hx Hrest].
  pose proof Hrest as Hrest'. apply Forall_cons in Hrest'. destruct Hrest' as [Hy _].
  unfold segment_body. rewrite Hx, Hy. cbn [negb orb].
  destruct (GridPoint_eqb x y) eqn:Hxy.
  - apply IH; [exact Hname | exact Hrest |].
    apply GridPoint_eqb_eq in Hxy. subst y.
    destruct pre as [| p pre]; simpl in Hwps; inversion Hwps; subst.
    + contradiction.
    + exists pre, a, b, rest. split; [assumption | exact Hab].
  - rewrite call_selected_pathfinder_unsupported by exact Hname. reflexivity.
Qed.

(** A segment from an in-bounds cell to itself, met with an empty running
    result or with one that is just that cell. *)
Lemma segment_body_one_cell (p : GridPoint) (i : nat) (st : LoopState) :
  mapgeo.inBounds grid (gp_x p) (gp_y p) = true ->
  full_path_indices st = []
  \/ full_path_indices st
     = [PathfindingUtils.toIndex (gp_x p) (gp_y p) (mapgeo.width grid)] ->
  exists st',
    segment_body B params grid field i p p st = Continue st'
    /\ path_found_for_all_segments st' = path_found_for_all_segments st
    /\ full_path_indices st'
       = [PathfindingUtils.toIndex (gp_x p) (gp_y p) (mapgeo.width grid)].
Proof.
  intros Hp Hfull.
  unfold segment_body. rewrite Hp, GridPoint_eqb_refl. cbn [negb orb].
  eexists. split; [reflexivity |].
  cbn [full_path_indices add_log].
  destruct Hfull as [Hfull | Hfull]; rewrite Hfull.
  - split; reflexivity.
  - unfold back. cbn [is_empty orb List.last]. rewrite Z.eqb_refl. cbn [negb].
    split; [reflexivity | exact Hfull].
Qed.

(** Over waypoints that are all one in-bounds cell the loop stores the
    index of that cell once and calls no pathfinder. *)
Lemma segment_loop_one_cell (p : GridPoint) (n : nat) :
  forall i st,
    mapgeo.inBounds grid (gp_x p) (gp_y p) = true ->
    full_path_indices st = []
    \/ full_path_indices st
       = [PathfindingUtils.toIndex (gp_x p) (gp_y p) (mapgeo.width grid)] ->
    exists st',
      segment_loop B params grid field i (replicate (S (S n)) p) st = Normal st'
      /\ path_found_for_all_segments st' = path_found_for_all_segments st
      /\ full_path_indices st'
         = [PathfindingUtils.toIndex (gp_x p) (gp_y p) (mapgeo.width grid)].
Proof.
  induction n as [| n IH]; intros i st Hp Hfull.
  - cbn [replicate]. rewrite segment_loop_cons.
    destruct (segment_body_one_cell p i st Hp Hfull) as (st1 & Hbody & Hflag & Hpath).
    rewrite Hbody. exists st1. split; [reflexivity | split; assumption].
  - change (replicate (S (S (S n))) p) with (p :: p :: replicate (S n) p).
    rewrite segment_loop_cons.
    destruct (segment_body_one_cell p i st Hp Hfull) as (st1 & Hbody & Hflag & Hpath).
    rewrite Hbody.
    change (p :: replicate (S n) p) with (replicate (S (S n)) p).
    destruct (IH (S i) st1 Hp (or_intror Hpath)) as (st' & Hrun & Hflag' & Hpath').
    exists st'. split; [exact Hrun |]. split; [congruence | exact Hpath'].
Qed.

End UnknownAlgorithm.

(** X12: the algorithm name is looked at only when a segment joins two
    different cells.  With a name that is none of the five served ones and
    all waypoints inside the grid: if two waypoints differ, the run fails
    with "Backend Error: " and the text for an unsupported name (the GPU
    text when the name contains "GPU") and returns no path; if all
    waypoints are one cell, the run succeeds with that cell's index. *)
Theorem unsupported_algorithm_outcome (B : Backend) (params : BackendInputParams)
        (r1 : BackendResult) (prep : Prepared) :
  prepare B params (initial_result params) = (r1, Normal prep) ->
  algorithmName params ∉ cpu_algorithms ->
  all_in_bounds (prep_grid prep) (prep_waypoints prep) ->
  let r := processAndFindPath B params in
  ((exists p q, p ∈ prep_waypoints prep /\ q ∈ prep_waypoints prep /\ p <> q) ->
   success r = false
   /\ errorMessage r = MsgBackendError (unsupported_algorithm (algorithmName params))
   /\ fullPathIndices r = [])
  /\ (forall p, Forall (fun q => q = p) (prep_waypoints prep) ->
      success r = true
      /\ fullPathIndices r
         = [PathfindingUtils.toIndex (gp_x p) (gp_y p) (mapgeo.width (prep_grid prep))]).
Proof.
  intros Hprep Hname Hin r. subst r.
  rewrite (processAndFindPath_prepared _ _ _ _ Hprep).
  pose proof (prepare_waypoints_length B params _ _ _ Hprep) as Hlen.
  cbv beta in Hlen.
  split.
  - intros (p & q & Hp & Hq & Hpq).
    destruct (adjacent_of_distinct q p (prep_waypoints prep) Hq Hp Hpq)
      as (pre & a & b & rest & Hwps & Hab & _).
    rewrite (segment_loop_unsupported B params (prep_grid prep) (prep_field prep)
               (prep_waypoints prep) 0%nat LoopState_init Hname Hin)
      by (exists pre, a, b, rest; split; assumption).
    simpl. repeat split. eapply prepare_path_empty; eauto.
  - intros p Hall.
    assert (Hrep : prep_waypoints prep
                   = replicate (S (S (length (prep_waypoints prep) - 2))) p).
    { replace (S (S (length (prep_waypoints prep) - 2)))
        with (length (prep_waypoints prep)) by lia.
      clear -Hall. induction Hall as [| q l Hq Hl IH]; simpl; [reflexivity |].
      subst q. f_equal. exact IH. }
    assert (Hp : mapgeo.inBounds (prep_grid prep) (gp_x p) (gp_y p) = true).
    { unfold all_in_bounds in Hin. rewrite Hrep in Hin.
      cbn [replicate] in Hin. apply Forall_cons in Hin. tauto. }
    destruct (segment_loop_one_cell B params (prep_grid prep) (prep_field prep) p
                (length (prep_waypoints prep) - 2) 0%nat LoopState_init Hp
                (or_introl eq_refl)) as (st' & Hrun & Hflag & Hpath).
    rewrite <- Hrep in Hrun. rewrite Hrun.
    unfold finalize. rewrite Hflag, Hpath. simpl. split; reflexivity.
Qed.

Lemma unsupported_algorithm_outcome_witness :
  let params := demo_params ∅ "HADS - GPU" in
  let r := processAndFindPath two_point_backend params in
  success r = false
  /\ errorMessage r
     = MsgBackendError "Selected GPU algorithm 'HADS - GPU' is not implemented."
  /\ fullPathIndices r = [].
Proof.
  intros params r.
  destruct (prepare two_point_backend params (initial_result params))
    as [r1 [prep | w]] eqn:Hprep; [| vm_compute in Hprep; discriminate].
  assert (Hw : prep_waypoints prep = [mkGridPoint 0 0; mkGridPoint 3 3]
               /\ prep_grid prep = demo_grid 4 4 ∅).
  { vm_compute in Hprep. inversion Hprep. split; reflexivity. }
  destruct Hw as [Hw Hg].
  apply (unsupported_algorithm_outcome two_point_backend params r1 prep Hprep).
  - vm_compute. intros H. repeat (apply elem_of_cons in H; destruct H as [H | H];
      [discriminate |]). inversion H.
  - unfold all_in_bounds. rewrite Hw, Hg. repeat constructor.
  - exists (mkGridPoint 0 0), (mkGridPoint 3 3). rewrite Hw.
    split; [left |]. split; [right; left | discriminate].
Defined.

(** ** The joined path *)

Lemma back_of_last (v : list Z) (z : Z) : last v = Some z -> back v = z.
Proof.
  unfold back. induction v as [| x v IH]; [discriminate |].
  destruct v as [| y v]; simpl in *.
  - intros H. inversion H. reflexivity.
  - exact IH.
Qed.

Lemma head_app_nonempty {A : Type} (v w : list A) : v <> [] -> head (v ++ w) = head v.
Proof. destruct v; [contradiction | reflexivity]. Qed.

Lemma last_app_nonempty {A : Type} (v w : list A) : w <> [] -> last (v ++ w) = last w.
Proof.
  intros Hw. destruct w as [| x w] using rev_ind; [contradiction |].
  rewrite app_assoc, !last_snoc. reflexivity.
Qed.

Section Joined.

Context (B : Backend) (params : BackendInputParams)
  (grid : mapgeo.Grid_V3) (field : ElevationField).
Context (Hjoin : pathfinders_join_endpoints B).

Abbreviation idx p := (PathfindingUtils.toIndex (gp_x p) (gp_y p) (mapgeo.width grid)).

Lemma call_selected_pathfinder_joins (a b : GridPoint) (seg : list Z) :
  call_selected_pathfinder B params grid field a b = Normal seg ->
  joins grid a b seg.
Proof.
  destruct (Hjoin grid field a b (heuristicType params)) as (H1 & H2 & H3 & H4 & H5).
  unfold call_selected_pathfinder.
  repeat match goal with
         | |- context [if ?c then _ else _] => destruct c
         end;
    intros H; inversion H; subst; assumption.
Qed.

(** One iteration keeps the running result a path from the first waypoint
    to the waypoint just reached, and emits no mismatch warning. *)
Lemma segment_body_joined (first : GridPoint) (i : nat) (a b : GridPoint)
      (st st' : LoopState) :
  segment_body B params grid field i a b st = Continue st' ->
  no_start_mismatch (log st) ->
  (full_path_indices st = [] /\ first = a)
  \/ (head (full_path_indices st) = Some (idx first)
      /\ last (full_path_indices st) = Some (idx a)) ->
  no_start_mismatch (log st')
  /\ head (full_path_indices st') = Some (idx first)
  /\ last (full_path_indices st') = Some (idx b).
Proof.
  intros Hbody Hlog Hinv. unfold segment_body in Hbody.
  destruct (negb (mapgeo.inBounds grid (gp_x a) (gp_y a))
            || negb (mapgeo.inBounds grid (gp_x b) (gp_y b))); [discriminate |].
  assert (Hlog2 : forall ev ev',
             (forall n, ev <> LogStartMismatch n) ->
             (forall n, ev' <> LogStartMismatch n) ->
             no_start_mismatch ((log st ++ [ev]) ++ [ev'])).
  { intros ev ev' Hev Hev' n Hin.
    apply elem_of_app in Hin. destruct Hin as [Hin | Hin].
    - apply elem_of_app in Hin. destruct Hin as [Hin | Hin]; [exact (Hlog n Hin) |].
      apply list_elem_of_singleton in Hin. exact (Hev n (eq_sym Hin)).
    - apply list_elem_of_singleton in Hin. exact (Hev' n (eq_sym Hin)). }
  destruct (GridPoint_eqb a b) eqn:Hab.
  - apply GridPoint_eqb_eq in Hab. subst b.
    inversion Hbody; subst st'. clear Hbody.
    cbn [full_path_indices add_log].
    destruct Hinv as [[Hfull ->] | [Hhead Hlast]].
    + rewrite Hfull. simpl. split; [| split; reflexivity].
      apply Hlog2; discriminate.
    + rewrite (back_of_last _ _ Hlast), Z.eqb_refl.
      destruct (full_path_indices st) as [| z zs] eqn:Hfull; [discriminate |].
      simpl. rewrite Hfull. split; [| split; assumption].
      apply Hlog2; discriminate.
  - destruct (call_selected_pathfinder B params grid field a b) as [seg | w] eqn:Hcall;
      [| discriminate].
    apply call_selected_pathfinder_joins in Hcall.
    destruct (is_empty seg) eqn:Hseg; [discriminate |].
    destruct Hcall as [-> | [Hsh Hsl]]; [discriminate |].
    cbn [full_path_indices add_log] in Hbody.
    unfold concatenate in Hbody.
    destruct Hinv as [[Hfull ->] | [Hhead Hlast]].
    + rewrite Hfull in Hbody. inversion Hbody; subst st'. simpl.
      split; [| split; assumption]. apply Hlog2; discriminate.
    + destruct (full_path_indices st) as [| z zs] eqn:Hfull; [discriminate |].
      destruct seg as [| front rest]; [discriminate |].
      simpl in Hsh. inversion Hsh as [Hfront].
      rewrite (back_of_last _ _ Hlast), Hfront, Z.eqb_refl in Hbody.
      destruct rest as [| s rest].
      * simpl in Hbody. inversion Hbody; subst st'. simpl.
        split; [apply Hlog2; discriminate |]. split; [exact Hhead |].
        rewrite Hlast. simpl in Hsl. inversion Hsl as [Hfb]. congruence.
      * simpl in Hbody. inversion Hbody; subst st'. simpl.
        split; [apply Hlog2; discriminate |]. split.
        -- simpl in Hhead. exact Hhead.
        -- change (z :: zs ++ s :: rest) with ((z :: zs) ++ s :: rest).
           rewrite last_app_nonempty by discriminate.
           change (front :: s :: rest) with ([front] ++ s :: rest) in Hsl.
           rewrite last_app_nonempty in Hsl by discriminate. exact Hsl.
Qed.

Lemma segment_loop_joined (first : GridPoint) (wps : list GridPoint) :
  forall i a st st',
    segment_loop B params grid field i (a :: wps) st = Normal st' ->
    path_found_for_all_segments st' = true ->
    wps <> [] ->
    no_start_mismatch (log st) ->
    (full_path_indices st = [] /\ first = a)
    \/ (head (full_path_indices st) = Some (idx first)
        /\ last (full_path_indices st) = Some (idx a)) ->
    no_start_mismatch (log st')
    /\ head (full_path_indices st') = Some (idx first)
    /\ exists z, last wps = Some z /\ last (full_path_indices st') = Some (idx z).
Proof.
  induction wps as [| b rest IH]; intros i a st st' Hrun Hflag Hne Hlog Hinv;
    [contradiction |].
  rewrite segment_loop_cons in Hrun.
  destruct (segment_body B params grid field i a b st) as [st1 | st1 | w] eqn:Hbody.
  - destruct (segment_body_joined first i a b st st1 Hbody Hlog Hinv)
      as (Hlog1 & Hhead1 & Hlast1).
    destruct rest as [| c rest].
    + simpl in Hrun. inversion Hrun; subst st'.
      split; [exact Hlog1 |]. split; [exact Hhead1 |].
      exists b. split; [reflexivity | exact Hlast1].
    + destruct (IH (S i) b st1 st' Hrun Hflag ltac:(discriminate) Hlog1
                  (or_intror (conj Hhead1 Hlast1))) as (Hl & Hh & z & Hz & Hlz).
      split; [exact Hl |]. split; [exact Hh |].
      exists z. split; [| exact Hlz].
      change (b :: c :: rest) with ([b] ++ c :: rest).
      rewrite last_app_nonempty by discriminate. exact Hz.
  - inversion Hrun; subst. apply segment_body_break in Hbody.
    destruct Hbody as [Hf _]. congruence.
  - discriminate.
Qed.

End Joined.

(** X13: with pathfinders that return paths from the index of their start
    cell to the index of their end cell, the path of a successful run
    starts at the index of the first waypoint and ends at the index of the
    last one, and the loop never warns that a segment does not start where
    the previous one ended. *)
Theorem full_path_joins_waypoints (B : Backend) (params : BackendInputParams)
        (r1 : BackendResult) (prep : Prepared) :
  pathfinders_join_endpoints B ->
  prepare B params (initial_result params) = (r1, Normal prep) ->
  success (processAndFindPath B params) = true ->
  exists (first final : GridPoint) (st : LoopState),
    head (prep_waypoints prep) = Some first
    /\ last (prep_waypoints prep) = Some final
    /\ segment_loop B params (prep_grid prep) (prep_field prep) 0
         (prep_waypoints prep) LoopState_init = Normal st
    /\ no_start_mismatch (log st)
    /\ fullPathIndices (processAndFindPath B params) = full_path_indices st
    /\ joins (prep_grid prep) first final (fullPathIndices (processAndFindPath B params))
    /\ fullPathIndices (processAndFindPath B params) <> [].
Proof.
  intros Hjoin Hprep Hsucc.
  pose proof (prepare_waypoints_length B params _ _ _ Hprep) as Hlen.
  cbv beta in Hlen.
  rewrite (processAndFindPath_prepared _ _ _ _ Hprep) in Hsucc |- *.
  destruct (segment_loop B params (prep_grid prep) (prep_field prep) 0
              (prep_waypoints prep) LoopState_init) as [st | w] eqn:Hloop;
    [| discriminate].
  destruct (path_found_for_all_segments st) eqn:Hflag;
    [| unfold finalize in Hsucc; rewrite Hflag in Hsucc; discriminate].
  destruct (prep_waypoints prep) as [| first wps] eqn:Hwps; [simpl in Hlen; lia |].
  assert (Hne : wps <> []) by (destruct wps; [simpl in Hlen; lia | discriminate]).
  destruct (segment_loop_joined B params (prep_grid prep) (prep_field prep) Hjoin
              first wps 0%nat first LoopState_init st Hloop Hflag Hne)
    as (Hlog & Hhead & final & Hfinal & Hlast).
  { intros n Hin. inversion Hin. }
  { left. split; reflexivity. }
  assert (Hfull : full_path_indices st <> []).
  { destruct (full_path_indices st); [discriminate | discriminate]. }
  assert (Hres : fullPathIndices (finalize (first :: wps) st r1).1 = full_path_indices st).
  { unfold finalize. rewrite Hflag.
    destruct (full_path_indices st) as [| z zs]; [contradiction | reflexivity]. }
  exists first, final, st.
  split; [reflexivity |]. split.
  { destruct wps as [| b wps]; [contradiction |].
    change (first :: b :: wps) with ([first] ++ b :: wps).
    rewrite last_app_nonempty by discriminate. exact Hfinal. }
  split; [reflexivity |]. split; [exact Hlog |]. split; [exact Hres |].
  rewrite Hres. split; [right; split; assumption | exact Hfull].
Qed.

Lemma demo_backend_joins (scan : mapscan.ScanResult) (wps : list GridPoint)
      (fetched : ElevationFetcher.ElevationData) (converts : bool) :
  pathfinders_join_endpoints (demo_backend scan wps fetched converts).
Proof.
  assert (H : forall g a b, joins g a b (demo_find_path g a b)).
  { intros g a b. unfold demo_find_path, joins.
    destruct (_ || _); [left; reflexivity |].
    destruct (GridPoint_eqb a b) eqn:Hab; right.
    - apply GridPoint_eqb_eq in Hab. subst b. split; reflexivity.
    - split; reflexivity. }
  intros g f a b h. simpl. repeat split; apply H.
Qed.

Lemma full_path_joins_waypoints_witness :
  let params := demo_params ∅ "Dijkstra" in
  exists (first final : GridPoint) (st : LoopState) (prep : Prepared),
    head (prep_waypoints prep) = Some first
    /\ last (prep_waypoints prep) = Some final
    /\ segment_loop two_point_backend params (prep_grid prep) (prep_field prep) 0
         (prep_waypoints prep) LoopState_init = Normal st
    /\ no_start_mismatch (log st)
    /\ fullPathIndices (processAndFindPath two_point_backend params)
       = full_path_indices st
    /\ joins (prep_grid prep) first final
         (fullPathIndices (processAndFindPath two_point_backend params))
    /\ fullPathIndices (processAndFindPath two_point_backend params) <> [].
Proof.
  intros params.
  destruct (prepare two_point_backend params (initial_result params))
    as [r1 [prep | w]] eqn:Hprep; [| vm_compute in Hprep; discriminate].
  destruct (full_path_joins_waypoints two_point_backend params r1 prep
              (demo_backend_joins _ _ _ _) Hprep)
    as (first & final & st & H).
  - vm_compute. reflexivity.
  - exists first, final, st, prep. exact H.
Defined.

(** ** Stepping through the preparation *)

Lemma bind_normal {A C : Type} (m : M A) (k : A -> M C) (r r1 : BackendResult) (a : A) :
  m r = (r1, Normal a) -> (m ≫= k) r = k a r1.
Proof. intros H. unfold mbind, M_bind. rewrite H. reflexivity. Qed.

Lemma bind_raised {A C : Type} (m : M A) (k : A -> M C) (r r1 : BackendResult)
      (w : string) :
  m r = (r1, Raised w) -> (m ≫= k) r = (r1, Raised w).
Proof. intros H. unfold mbind, M_bind. rewrite H. reflexivity. Qed.

Lemma processAndFindPath_raised (B : Backend) (params : BackendInputParams)
      (r1 : BackendResult) (w : string) :
  prepare B params (initial_result params) = (r1, Raised w) ->
  processAndFindPath B params = catch_exception w r1.
Proof.
  intros Hprep. unfold processAndFindPath, try_block.
  rewrite (bind_raised _ _ _ _ _ Hprep). reflexivity.
Qed.

Section ScanMap.

Context (B : Backend) (params : BackendInputParams).

Lemma scan_map_bounds_found :
  bounds_found (scanXmlForGeoRefAndBounds B (mapFilePath params) ["barrier"; "course"])
  = true ->
  exists canFetchElevation mapScaleFromXml,
    forall r,
      scan_map B params r
      = (r, Normal (scanXmlForGeoRefAndBounds B (mapFilePath params) ["barrier"; "course"],
                    canFetchElevation, mapScaleFromXml)).
Proof.
  unfold bounds_found, scan_map. cbv zeta. intros Hb. rewrite Hb.
  destruct (mapscan.georeferencingFound _ && has_value _ && true && has_value _) eqn:Hc.
  - destruct (mapscan.mapScale _) as [s |] eqn:Hs.
    + exists true, s. intros r. reflexivity.
    + rewrite andb_false_r in Hc. discriminate.
  - exists false, (F64.of_int 10000). intros r. reflexivity.
Qed.

Lemma scan_map_no_bounds (r : BackendResult) :
  bounds_found (scanXmlForGeoRefAndBounds B (mapFilePath params) ["barrier"; "course"])
  = false ->
  scan_map B params r
  = (r, Raised "Could not determine coordinate bounds from map file.").
Proof.
  unfold bounds_found, scan_map. cbv zeta. intros Hb. rewrite Hb.
  rewrite andb_false_r. reflexivity.
Qed.

End ScanMap.

(** X14: a map file in which no initialised coordinate bounds are found
    ends the run at once: the result is the initial one with the "Backend
    Error" message, so it carries no grid, no normalisation record and no
    path, and neither the map processor nor the waypoint extractor has any
    influence on it. *)
Theorem map_without_bounds_fails (B : Backend) (params : BackendInputParams) :
  bounds_found (scanXmlForGeoRefAndBounds B (mapFilePath params) ["barrier"; "course"])
  = false ->
  processAndFindPath B params
  = set_errorMessage
      (MsgBackendError "Could not determine coordinate bounds from map file.")
      (initial_result params).
Proof.
  intros Hb.
  rewrite (processAndFindPath_raised B params (initial_result params)
             "Could not determine coordinate bounds from map file.").
  - reflexivity.
  - unfold prepare. apply bind_raised. apply scan_map_no_bounds. exact Hb.
Qed.

Lemma map_without_bounds_fails_witness :
  let B := demo_backend
             {| mapscan.georeferencingFound := true; mapscan.refLatLon := None;
                mapscan.rawBoundsUM := None; mapscan.mapScale := None |}
             [mkGridPoint 0 0; mkGridPoint 3 3] demo_elevation_default true in
  processAndFindPath B (demo_params ∅ "Dijkstra")
  = set_errorMessage
      (MsgBackendError "Could not determine coordinate bounds from map file.")
      (initial_result (demo_params ∅ "Dijkstra")).
Proof.
  intros B. apply (map_without_bounds_fails B (demo_params ∅ "Dijkstra")).
  reflexivity.
Defined.

(** *** After the grid has been stored *)

Lemma prepare_elevation_keeps_grid (B : Backend) (params : BackendInputParams)
      scan norm mx :
  keeps stored_grid (prepare_elevation B params scan norm mx).
Proof.
  unfold prepare_elevation. destruct scan as [[scanResult canFetch] scale].
  cbv zeta. repeat keeps_component.
Qed.

Lemma finalize_keeps_grid (wps : list GridPoint) (st : LoopState) :
  keeps stored_grid (finalize wps st).
Proof. unfold finalize. repeat keeps_component. Qed.

(** Once steps 1 has produced a grid and a normalisation record, they are
    in [result] however the run goes on. *)
Lemma prepare_stores_grid (B : Backend) (params : BackendInputParams)
      (r0 ra rb r1 : BackendResult) scan g n (o : outcome Prepared) :
  scan_map B params r0 = (ra, Normal scan) ->
  process_grid B params ra = (rb, Normal (Some g, Some n)) ->
  prepare B params r0 = (r1, o) ->
  stored_grid r1 = (Some g, Some n).
Proof.
  intros Hscan Hgrid Hprep. unfold prepare in Hprep.
  rewrite (bind_normal _ _ _ _ _ Hscan) in Hprep.
  rewrite (bind_normal _ _ _ _ _ Hgrid) in Hprep.
  cbv beta iota zeta in Hprep.
  cbn [has_value negb orb] in Hprep.
  rewrite (bind_normal _ _ _ rb tt eq_refl) in Hprep.
  rewrite (bind_normal _ _ _ (set_processedGrid (Some g) rb) tt eq_refl) in Hprep.
  rewrite (bind_normal _ _ _
             (set_normalizationInfo (Some n) (set_processedGrid (Some g) rb)) tt eq_refl)
    in Hprep.
  rewrite (bind_normal _ _ _
             (set_normalizationInfo (Some n) (set_processedGrid (Some g) rb)) n eq_refl)
    in Hprep.
  cbv zeta in Hprep.
  match type of Hprep with
  | ?m ?r = _ =>
    assert (Hk : keeps stored_grid m);
      [| pose proof (Hk r) as Hkr; rewrite Hprep in Hkr; exact Hkr]
  end.
  repeat first [ apply prepare_elevation_keeps_grid | keeps_component ].
Qed.

Lemma processAndFindPath_stored_grid (B : Backend) (params : BackendInputParams)
      (r1 : BackendResult) (o : outcome Prepared) :
  prepare B params (initial_result params) = (r1, o) ->
  stored_grid (processAndFindPath B params) = stored_grid r1.
Proof.
  intros Hprep. destruct o as [prep | w].
  - rewrite (processAndFindPath_prepared _ _ _ _ Hprep).
    destruct (segment_loop _ _ _ _ _ _ _) as [st | w]; [| reflexivity].
    apply finalize_keeps_grid.
  - rewrite (processAndFindPath_raised _ _ _ _ Hprep). reflexivity.
Qed.

(** X15: when the request asks for reuse and carries a grid and its
    normalisation record, and the map scan finds bounds, the result returns
    exactly that grid and record, whether the rest of the run succeeds,
    fails or throws. *)
Theorem reused_grid_is_returned (B : Backend) (params : BackendInputParams)
        (g : mapgeo.Grid_V3) (n : mapgeo.NormalizationResult) :
  reuseGridIfPossible params = true ->
  existingGrid params = Some g ->
  existingNormInfo params = Some n ->
  bounds_found (scanXmlForGeoRefAndBounds B (mapFilePath params) ["barrier"; "course"])
  = true ->
  processedGrid (processAndFindPath B params) = Some g
  /\ normalizationInfo (processAndFindPath B params) = Some n.
Proof.
  intros Hreuse Hg Hn Hb.
  destruct (scan_map_bounds_found B params Hb) as (can & scale & Hscan).
  assert (Hgrid : process_grid B params (initial_result params)
                  = (initial_result params, Normal (Some g, Some n))).
  { unfold process_grid. rewrite Hreuse, Hg, Hn. reflexivity. }
  destruct (prepare B params (initial_result params)) as [r1 o] eqn:Hprep.
  pose proof (prepare_stores_grid B params _ _ _ _ _ g n o
                (Hscan (initial_result params)) Hgrid Hprep) as Hstored.
  pose proof (processAndFindPath_stored_grid B params r1 o Hprep) as Hfinal.
  rewrite Hstored in Hfinal. unfold stored_grid in Hfinal.
  inversion Hfinal. split; reflexivity.
Qed.

Lemma reused_grid_is_returned_witness :
  let g := demo_grid 4 4 ∅ in
  let B := demo_backend demo_scan_no_scale [mkGridPoint 0 0] demo_elevation_default true in
  processedGrid (processAndFindPath B (demo_reuse_params g demo_norm)) = Some g
  /\ normalizationInfo (processAndFindPath B (demo_reuse_params g demo_norm))
     = Some demo_norm.
Proof.
  intros g B.
  apply (reused_grid_is_returned B (demo_reuse_params g demo_norm) g demo_norm);
    reflexivity.
Defined.

(** ** Too few waypoints *)

(** X16: when the controls file yields no waypoint sequence, or one of
    fewer than two points, the run fails with "Backend Error: Failed to
    extract valid Start/Control/End sequence from controls file: " followed
    by the controls path; no elevation data has been asked for, no path is
    returned, and the grid of step 1 is still in the result. *)
Theorem too_few_waypoints_fail (B : Backend) (params : BackendInputParams)
        (ra rb : BackendResult) scan (g : mapgeo.Grid_V3)
        (n : mapgeo.NormalizationResult) :
  scan_map B params (initial_result params) = (ra, Normal scan) ->
  process_grid B params ra = (rb, Normal (Some g, Some n)) ->
  match extracted_waypoints B params n with
  | Some w => (length w < 2)%nat
  | None => True
  end ->
  let r := processAndFindPath B params in
  success r = false
  /\ errorMessage r
     = MsgBackendError
         ("Failed to extract valid Start/Control/End sequence from controls file: "
          +:+ controlsFilePath params)
  /\ processedGrid r = Some g /\ normalizationInfo r = Some n
  /\ elevationDataUsed r = None /\ waypointsFound r = 0%nat
  /\ fullPathIndices r = [].
Proof.
  intros Hscan Hgrid Hfew r. subst r.
  assert (Hra : ra = initial_result params).
  { pose proof (scan_map_pure (fun r => r) B params (initial_result params)) as H.
    rewrite Hscan in H. exact H. }
  assert (Hrb : rb = ra).
  { pose proof (process_grid_pure (fun r => r) B params ra) as H.
    rewrite Hgrid in H. exact H. }
  subst ra rb.
  assert (Hprep : prepare B params (initial_result params)
                  = (set_normalizationInfo (Some n)
                       (set_processedGrid (Some g) (initial_result params)),
                     Raised ("Failed to extract valid Start/Control/End sequence from controls file: "
                             +:+ controlsFilePath params))).
  { unfold prepare.
    rewrite (bind_normal _ _ _ _ _ Hscan).
    rewrite (bind_normal _ _ _ _ _ Hgrid).
    cbv beta iota zeta. cbn [has_value negb orb].
    rewrite (bind_normal _ _ _ (initial_result params) tt eq_refl).
    rewrite (bind_normal _ _ _ (set_processedGrid (Some g) (initial_result params)) tt eq_refl).
    rewrite (bind_normal _ _ _
               (set_normalizationInfo (Some n)
                  (set_processedGrid (Some g) (initial_result params))) tt eq_refl).
    rewrite (bind_normal _ _ _
               (set_normalizationInfo (Some n)
                  (set_processedGrid (Some g) (initial_result params))) n eq_refl).
    cbv zeta. apply bind_raised.
    unfold extracted_waypoints in Hfew. cbv zeta in Hfew.
    destruct (extractWaypointsFromFile B _ _ _ _ _ _ _) as [w |]; [| reflexivity].
    destruct (Nat.ltb_spec (length w) 2) as [_ | Hge]; [reflexivity | lia]. }
  rewrite (processAndFindPath_raised _ _ _ _ Hprep).
  repeat split.
Qed.

Lemma too_few_waypoints_fail_witness :
  let B := demo_backend demo_scan_no_scale [mkGridPoint 2 2] demo_elevation_default true in
  let params := demo_params ∅ "Dijkstra" in
  let r := processAndFindPath B params in
  success r = false
  /\ errorMessage r
     = MsgBackendError
         ("Failed to extract valid Start/Control/End sequence from controls file: "
          +:+ controlsFilePath params)
  /\ processedGrid r = Some (demo_grid 4 4 ∅) /\ normalizationInfo r = Some demo_norm
  /\ elevationDataUsed r = None /\ waypointsFound r = 0%nat
  /\ fullPathIndices r = [].
Proof.
  intros B params.
  apply (too_few_waypoints_fail B params (initial_result params) (initial_result params)
           (demo_scan_no_scale, false, F64.of_int 10000) (demo_grid 4 4 ∅) demo_norm).
  - reflexivity.
  - reflexivity.
  - vm_compute. lia.
Defined.

(** ** What the result reports about the elevation data *)

Ltac split_cases H :=
  repeat match type of H with
         | context [if ?c then _ else _] => destruct c eqn:?
         | context [match ?o with Some _ => _ | None => _ end] => destruct o eqn:?
         end.

Lemma prepare_elevation_report (B : Backend) (params : BackendInputParams)
      scan norm mx (r r' : BackendResult) (field : ElevationField) :
  prepare_elevation B params scan norm mx r = (r', Normal field) ->
  report_matches params r' field.
Proof.
  intros H. unfold prepare_elevation in H. destruct scan as [[scanResult canFetch] scale].
  cbv zeta in H.
  unfold mbind, M_bind, mret, M_ret, lift, assign, throw, value in H.
  split_cases H; try discriminate;
    inversion H; subst; clear H; unfold report_matches; cbn;
    repeat split; try assumption; try discriminate;
    try (vm_compute; reflexivity);
    try (intros _; eexists; repeat split; reflexivity).
Qed.

Lemma prepare_field (B : Backend) (params : BackendInputParams)
      (r0 r1 : BackendResult) (prep : Prepared) :
  prepare B params r0 = (r1, Normal prep) ->
  exists scan norm mx ra,
    prepare_elevation B params scan norm mx ra = (r1, Normal (prep_field prep)).
Proof.
  intros H. unfold prepare in H. unfold mbind at 1, M_bind at 1 in H.
  destruct (scan_map B params r0) as [ra [scan | w]]; [| discriminate].
  unfold mbind at 1, M_bind at 1 in H.
  destruct (process_grid B params ra) as [rb [[g n] | w]]; [| discriminate].
  cbv zeta in H.
  unfold mbind at 1, M_bind at 1 in H.
  destruct (negb (has_value g) || negb (has_value n)); [discriminate |].
  cbn [mret M_ret] in H.
  unfold mbind at 1, M_bind at 1, assign at 1 in H.
  unfold mbind at 1, M_bind at 1, assign at 1 in H.
  unfold mbind at 1, M_bind at 1, lift at 1 in H.
  destruct (value n) as [norm | w]; [| discriminate].
  unfold mbind at 1, M_bind at 1 in H.
  match type of H with
  | context [match ?wp ?rr with _ => _ end] =>
    destruct (wp rr) as [rc [wps | w]]; [| discriminate]
  end.
  unfold mbind at 1, M_bind at 1, assign at 1 in H.
  unfold mbind at 1, M_bind at 1 in H.
  match type of H with
  | context [prepare_elevation B params ?s ?nn ?m ?rr] =>
    destruct (prepare_elevation B params s nn m rr) as [rd [fld | w]] eqn:Helev;
      [| discriminate];
      exists s, nn, m, rr
  end.
  unfold mbind at 1, M_bind at 1, lift at 1 in H.
  destruct (value g) as [grid | w]; [| discriminate].
  inversion H; subst. exact Helev.
Qed.

Lemma finalize_keeps_report (wps : list GridPoint) (st : LoopState) :
  keeps elevation_report (finalize wps st).
Proof. unfold finalize. repeat keeps_component. Qed.

Lemma size_t_mul_exact (w h : Z) :
  0 <= w <= Int32.max_int -> 0 <= h <= Int32.max_int -> size_t_mul w h = w * h.
Proof.
  unfold Int32.max_int, size_t_mul. intros Hw Hh.
  rewrite (Z.mod_small w), (Z.mod_small h) by lia.
  apply Z.mod_small. nia.
Qed.

(** A comparison [x <= y] that is false means [y < x], unless one of the
    two is a NaN. *)
Lemma SFcompare_antisym (x y : spec_float) :
  SFcompare y x = option_map CompOpp (SFcompare x y).
Proof.
  destruct x as [sx | sx | | sx mx ex], y as [sy | sy | | sy my ey];
    try destruct sx; try destruct sy; try reflexivity; cbn [SFcompare option_map];
    change (PosDef.Pos.compare_cont Eq my mx) with (Pos.compare my mx);
    change (PosDef.Pos.compare_cont Eq mx my) with (Pos.compare mx my);
    rewrite (Z.compare_antisym ex ey), (Pos.compare_antisym mx my);
    destruct (ex ?= ey); destruct (Pos.compare mx my); reflexivity.
Qed.

Lemma SFleb_false (x y : spec_float) :
  SFleb x y = false -> SFltb y x = true \/ x = S754_nan \/ y = S754_nan.
Proof.
  unfold SFleb, SFltb. rewrite (SFcompare_antisym x y). intros H.
  destruct (SFcompare x y) as [[| |] |] eqn:Hc; try discriminate.
  - left. reflexivity.
  - right. destruct x, y; try (left; reflexivity); try (right; reflexivity);
      discriminate.
Qed.

(** X17: after a preparation that succeeded, whatever the loop does, the
    result reports the elevation data truthfully: its logical resolution
    and origin offsets are those the pathfinders were given; the comparison
    of that resolution with [1e-6f] by [<=] is false, so it is greater than
    [1e-6f] or a NaN; [usedDummyElevation = true] means the pathfinders
    were given the uniform [100.0f] raster of the requested size, one value
    per cell, and [usedDummyElevation = false] means they were given the
    raster stored in [elevationDataUsed]. *)
Theorem elevation_report_is_truthful (B : Backend) (params : BackendInputParams)
        (r1 : BackendResult) (prep : Prepared) :
  prepare B params (initial_result params) = (r1, Normal prep) ->
  report_matches params (processAndFindPath B params) (prep_field prep)
  /\ (usedDummyElevation (processAndFindPath B params) = true ->
      0 <= desiredGridWidth params <= Int32.max_int ->
      0 <= desiredGridHeight params <= Int32.max_int ->
      length (elevation_values (prep_field prep))
      = Z.to_nat (desiredGridWidth params * desiredGridHeight params)
      /\ Forall (fun v => v = F32.of_int 100) (elevation_values (prep_field prep)))
  /\ (F32.ltb (F32.of_ratio 1 1000000)
              (finalLogicalResolutionMeters (processAndFindPath B params)) = true
      \/ finalLogicalResolutionMeters (processAndFindPath B params) = S754_nan).
Proof.
  intros Hprep.
  destruct (prepare_field B params _ _ _ Hprep) as (scan & norm & mx & ra & Helev).
  pose proof (prepare_elevation_report B params scan norm mx ra r1 _ Helev) as Hrep.
  assert (Hsame : elevation_report (processAndFindPath B params) = elevation_report r1).
  { rewrite (processAndFindPath_prepared _ _ _ _ Hprep).
    destruct (segment_loop _ _ _ _ _ _ _) as [st | w]; [| reflexivity].
    apply finalize_keeps_report. }
  unfold elevation_report in Hsame. inversion Hsame as [[He Hd Hres Hx Hy]].
  assert (Hmatch : report_matches params (processAndFindPath B params) (prep_field prep)).
  { unfold report_matches in *. rewrite He, Hd, Hres, Hx, Hy. exact Hrep. }
  split; [exact Hmatch |]. split.
  - intros Hdummy Hw Hh.
    destruct Hmatch as (_ & _ & _ & _ & Hd1 & _).
    destruct (Hd1 Hdummy) as (Hvalues & _).
    rewrite Hvalues, size_t_mul_exact by assumption.
    split; [apply length_replicate | apply Forall_replicate; reflexivity].
  - destruct Hmatch as (Hfield & _ & _ & Hleb & _).
    rewrite Hfield. unfold F32.leb, F32.ltb in *.
    destruct (SFleb_false _ _ Hleb) as [Hlt | [Hnan | Habs]].
    + left. exact Hlt.
    + right. exact Hnan.
    + vm_compute in Habs. discriminate.
Qed.

Lemma elevation_report_is_truthful_witness :
  let params := demo_params ∅ "Dijkstra" in
  exists prep,
    report_matches params (processAndFindPath two_point_backend params) (prep_field prep)
    /\ length (elevation_values (prep_field prep)) = 16%nat
    /\ (F32.ltb (F32.of_ratio 1 1000000)
                (finalLogicalResolutionMeters (processAndFindPath two_point_backend params))
        = true
        \/ finalLogicalResolutionMeters (processAndFindPath two_point_backend params)
           = S754_nan).
Proof.
  intros params.
  destruct (prepare two_point_backend params (initial_result params))
    as [r1 [prep | w]] eqn:Hprep; [| vm_compute in Hprep; discriminate].
  exists prep.
  destruct (elevation_report_is_truthful two_point_backend params r1 prep Hprep)
    as (Hmatch & Hsize & Hres).
  split; [exact Hmatch |]. split; [| exact Hres].
  destruct Hsize as [Hlen _].
  - vm_compute. reflexivity.
  - unfold Int32.max_int. simpl. lia.
  - unfold Int32.max_int. simpl. lia.
  - exact Hlen.
Defined.

(** With a requested grid width of [0] the division by the width gives a
    NaN, which the [<= 1e-6f] fallback lets through. *)
Example zero_width_resolution_nan :
  exists r1 prep,
    prepare two_point_backend demo_zero_width_params (initial_result demo_zero_width_params)
    = (r1, Normal prep)
    /\ finalLogicalResolutionMeters
         (processAndFindPath two_point_backend demo_zero_width_params) = S754_nan.
Proof.
  destruct (prepare two_point_backend demo_zero_width_params
              (initial_result demo_zero_width_params)) as [r1 [prep | w]] eqn:Hprep;
    [| vm_compute in Hprep; discriminate].
  exists r1, prep. split; [reflexivity |]. vm_compute. reflexivity.
Qed.

(** ** The window after a calculation *)

Section Window.

Context (stof : list ascii -> option spec_float) (isFile : string -> bool).

Lemma onCalculatePathClicked_params (m_impl : Impl) (params : BackendInputParams) :
  onCalculatePathClicked stof isFile m_impl = Some params ->
  isCalculating m_impl = false
  /\ mapFilePath params = mapLineEdit (widgets m_impl)
  /\ controlsFilePath params = controlsLineEdit (widgets m_impl)
  /\ desiredGridWidth params = gridWidthSpinBox (widgets m_impl)
  /\ desiredGridHeight params = gridHeightSpinBox (widgets m_impl)
  /\ (reuseGridIfPossible params, existingGrid params, existingNormInfo params)
     = check_grid_reuse m_impl (mapLineEdit (widgets m_impl))
         (gridWidthSpinBox (widgets m_impl)) (gridHeightSpinBox (widgets m_impl)).
Proof.
  unfold onCalculatePathClicked.
  destruct (isCalculating m_impl); [discriminate |].
  destruct (parseObstacleCosts stof _) as [parsed costs].
  destruct (negb parsed); [discriminate |].
  destruct (_ || _); [discriminate |].
  destruct (negb (isFile (mapLineEdit _))); [discriminate |].
  destruct (negb (isFile (controlsLineEdit _))); [discriminate |].
  destruct (check_grid_reuse _ _ _ _) as [[reuse grid] norm].
  intros H. inversion H; subst. simpl. repeat split.
Qed.

(** X18: pressing "Calculate" again after a finished calculation, with the
    map path and the grid dimensions unchanged (anything else, the obstacle
    costs included, may have been edited), requests reuse exactly when the
    finished run returned a grid, and hands that grid and its normalisation
    record to the backend. *)
Theorem second_click_reuses_returned_grid (B : Backend) (m_impl m' : Impl)
        (result : BackendResult) (w' : Widgets) (params' : BackendInputParams) :
  calculate stof isFile B m_impl = (m', Some result) ->
  mapLineEdit w' = mapLineEdit (widgets m_impl) ->
  gridWidthSpinBox w' = gridWidthSpinBox (widgets m_impl) ->
  gridHeightSpinBox w' = gridHeightSpinBox (widgets m_impl) ->
  onCalculatePathClicked stof isFile (edit_widgets w' m') = Some params' ->
  reuseGridIfPossible params' = has_value (processedGrid result)
  /\ existingGrid params' = processedGrid result
  /\ (has_value (processedGrid result) = true ->
      existingNormInfo params' = normalizationInfo result).
Proof.
  intros Hcalc Hmap Hw Hh Hclick. unfold calculate in Hcalc.
  destruct (onCalculatePathClicked stof isFile m_impl) as [params |] eqn:Hfirst;
    [| discriminate].
  inversion Hcalc; subst m' result. clear Hcalc.
  destruct (onCalculatePathClicked_params _ _ Hfirst) as (_ & Hp & _ & Hpw & Hph & _).
  destruct (onCalculatePathClicked_params _ _ Hclick) as (_ & _ & _ & _ & _ & Hreuse).
  destruct (result_echo_fields B params) as (He1 & He2 & He3).
  cbn [edit_widgets widgets] in Hreuse.
  unfold check_grid_reuse in Hreuse.
  cbn [edit_widgets onCalculationFinished lastProcessedGrid currentMapFilePath
       lastGridWidth lastGridHeight lastNormalizationInfo] in Hreuse.
  rewrite He1, He2, He3, Hp, Hpw, Hph, Hmap, Hw, Hh in Hreuse.
  rewrite String.eqb_refl, !Z.eqb_refl, !andb_true_r in Hreuse.
  destruct (processedGrid (processAndFindPath B params)) as [g |];
    simpl in Hreuse; injection Hreuse as H1 H2 H3.
  - repeat split; intros; assumption.
  - repeat split; try assumption. discriminate.
Qed.

End Window.

(** A preparation that succeeds has stored the grid the loop works on. *)
Lemma prepare_grid (B : Backend) (params : BackendInputParams)
      (r0 r1 : BackendResult) (prep : Prepared) :
  prepare B params r0 = (r1, Normal prep) ->
  exists n, stored_grid r1 = (Some (prep_grid prep), Some n).
Proof.
  intros Hprep. pose proof Hprep as H.
  unfold prepare in H. unfold mbind at 1, M_bind at 1 in H.
  destruct (scan_map B params r0) as [ra [scan | w]] eqn:Hscan; [| discriminate].
  unfold mbind at 1, M_bind at 1 in H.
  destruct (process_grid B params ra) as [rb [[g n] | w]] eqn:Hgrid; [| discriminate].
  cbv zeta in H.
  unfold mbind at 1, M_bind at 1 in H.
  destruct g as [g |]; [| discriminate].
  destruct n as [n |]; [| discriminate].
  cbn [has_value negb orb mret M_ret] in H.
  unfold mbind at 1, M_bind at 1, assign at 1 in H.
  unfold mbind at 1, M_bind at 1, assign at 1 in H.
  unfold mbind at 1, M_bind at 1, lift at 1 in H.
  cbn [value] in H.
  unfold mbind at 1, M_bind at 1 in H.
  match type of H with
  | context [match ?wp ?rr with _ => _ end] =>
    destruct (wp rr) as [rc [wps | w]]; [| discriminate]
  end.
  unfold mbind at 1, M_bind at 1, assign at 1 in H.
  unfold mbind at 1, M_bind at 1 in H.
  match type of H with
  | context [prepare_elevation B params ?s ?nn ?m ?rr] =>
    destruct (prepare_elevation B params s nn m rr) as [rd [fld | w]];
      [| discriminate]
  end.
  unfold mbind at 1, M_bind at 1, lift at 1 in H.
  cbn [value] in H. inversion H; subst. cbn [prep_grid].
  exists n. exact (prepare_stores_grid B params _ _ _ _ _ g n _ Hscan Hgrid Hprep).
Qed.

(** X19: after a run, "Export Path" is enabled exactly when the run
    succeeded. *)
Theorem export_button_follows_success (B : Backend) (params : BackendInputParams) :
  onCalculationFinished_exportButton (processAndFindPath B params)
  = success (processAndFindPath B params).
Proof.
  unfold onCalculationFinished_exportButton.
  destruct (processAndFindPath_outcome B params)
    as [(Hs & Hp & _) | [(Hs & _ & _) | (Hs & _ & _)]]; rewrite Hs; [| reflexivity ..].
  destruct (fullPathIndices (processAndFindPath B params)); [contradiction | reflexivity].
Qed.

Section ExportAfterRun.

Context (completeBaseName absolutePath : string -> string)
        (filePath : string -> string -> string)
        (getExistingDirectory : string -> string)
        (savePathToOmap :
           string -> list Z -> mapgeo.Grid_V3 -> mapgeo.NormalizationResult ->
           string -> string -> outcome bool).

(** X20: exporting after a finished run.  After a failed run nothing is
    saved: the slot reports that there is no path, whatever the settings.
    After a successful run with "Auto Export" checked, the saver is called
    with the path and the grid of that run and with the file
    [<directory of the controls file>/<its base name>_path.omap], unless
    the controls path or its directory is empty. *)
Theorem export_after_run (B : Backend) (params : BackendInputParams)
        (m_impl : Impl) (lastExportDir : option string) :
  let result := processAndFindPath B params in
  let m' := onCalculationFinished m_impl result in
  (success result = false ->
   forall autoExport,
     triggerExport completeBaseName absolutePath filePath getExistingDirectory
                   savePathToOmap autoExport lastExportDir m'
     = (ExportNoPath, lastExportDir))
  /\ (success result = true ->
      controlsFilePath params <> "" ->
      absolutePath (controlsFilePath params) <> "" ->
      exists grid norm,
        processedGrid result = Some grid /\ normalizationInfo result = Some norm
        /\ triggerExport completeBaseName absolutePath filePath getExistingDirectory
                         savePathToOmap true lastExportDir m'
           = (save_path savePathToOmap
                (absolutePath (controlsFilePath params) +:+ "/" +:+
                 (completeBaseName (controlsFilePath params) +:+ "_path.omap"))
                (fullPathIndices result) grid norm,
              lastExportDir)).
Proof.
  intros result m'. subst result m'. split.
  - intros Hfail autoExport. unfold triggerExport.
    cbn [onCalculationFinished isCalculating lastCalculatedPathIndices].
    destruct (processAndFindPath_outcome B params)
      as [(Hs & _) | [(_ & Hp & _) | (_ & Hp & _)]]; [congruence | |];
      rewrite Hp; reflexivity.
  - intros Hsucc Hcontrols Hdir.
    destruct (prepare B params (initial_result params)) as [r1 [prep | w]] eqn:Hprep.
    + destruct (prepare_grid B params _ _ _ Hprep) as [n Hstored].
      pose proof (processAndFindPath_stored_grid B params r1 _ Hprep) as Hfinal.
      rewrite Hstored in Hfinal. unfold stored_grid in Hfinal.
      injection Hfinal as Hg Hn.
      exists (prep_grid prep), n. split; [exact Hg |]. split; [exact Hn |].
      unfold triggerExport.
      cbn [onCalculationFinished isCalculating lastCalculatedPathIndices
           lastProcessedGrid lastNormalizationInfo impl_currentControlsFilePath].
      destruct (processAndFindPath_outcome B params)
        as [(_ & Hp & _) | [(Hs & _) | (Hs & _)]]; [| congruence | congruence].
      destruct (fullPathIndices (processAndFindPath B params)) as [| z zs] eqn:Hpath;
        [contradiction |].
      cbn [is_empty]. rewrite Hg, Hn.
      rewrite (result_echoes_controls B params).
      destruct (String.eqb_spec (controlsFilePath params) "") as [Heq | _];
        [contradiction |].
      cbv zeta.
      destruct (String.eqb_spec (absolutePath (controlsFilePath params)) "") as [Heq | _];
        [contradiction |].
      reflexivity.
    + rewrite (processAndFindPath_raised _ _ _ _ Hprep) in Hsucc. discriminate.
Qed.

End ExportAfterRun.

Lemma second_click_reuses_returned_grid_witness :
  exists result params',
    first_run.2 = Some result
    /\ second_click = Some params'
    /\ reuseGridIfPossible params' = has_value (processedGrid result)
    /\ existingGrid params' = processedGrid result
    /\ (has_value (processedGrid result) = true ->
        existingNormInfo params' = normalizationInfo result).
Proof.
  destruct first_run as [m' [result |]] eqn:Hrun; [| vm_compute in Hrun; discriminate].
  destruct (onCalculatePathClicked demo_stof (fun _ => true)
              (edit_widgets (demo_widgets "201: -1") m')) as [params' |] eqn:Hclick.
  - exists result, params'. split; [reflexivity |]. split.
    + unfold second_click. rewrite Hrun. exact Hclick.
    + exact (second_click_reuses_returned_grid demo_stof (fun _ => true)
               two_point_backend (Impl_new (demo_widgets "201: 5")) m' result
               (demo_widgets "201: -1") params' Hrun eq_refl eq_refl eq_refl Hclick).
  - exfalso. assert (Hm : m' = first_run.1) by (rewrite Hrun; reflexivity).
    subst m'. vm_compute in Hclick. discriminate.
Defined.

(** ** The algorithm combo box and the dispatch *)

(** X21: of the eight entries of the algorithm combo box, the five that do
    not show the GPU parameters are the names the backend serves, and the
    three that show them make the backend throw "Selected GPU algorithm
    '...' is not implemented." as soon as a segment reaches the dispatch;
    the heuristic box is enabled for the entries naming an A* or a Theta*
    variant, and for the other entries "Calculate" passes the heuristic
    type [-1]. *)
Theorem combo_box_entries_and_dispatch (name : string) :
  name ∈ algorithm_items ->
  usesGpuParams name = negb (bool_decide (name ∈ cpu_algorithms))
  /\ usesHeuristic name
     = bool_decide (name ∈ ["Optimized A*"; "Theta*"; "Lazy Theta*"; "A* - GPU"])
  /\ (forall (B : Backend) (params : BackendInputParams) (grid : mapgeo.Grid_V3)
             (field : ElevationField) (a b : GridPoint),
         algorithmName params = name ->
         if usesGpuParams name
         then call_selected_pathfinder B params grid field a b
              = Raised ("Selected GPU algorithm '" +:+ name +:+ "' is not implemented.")
         else exists seg, call_selected_pathfinder B params grid field a b = Normal seg)
  /\ (forall (stof : list ascii -> option spec_float) (isFile : string -> bool)
             (w : Widgets) (m_impl : Impl) (params : BackendInputParams),
         algorithmComboBox w = name ->
         onCalculatePathClicked stof isFile (edit_widgets (onAlgorithmChanged w) m_impl)
         = Some params ->
         algorithmName params = name
         /\ heuristicType params = (if usesHeuristic name then heuristicComboBox w else -1)).
Proof.
  intros Hin. split; [| split; [| split]].
  - unfold algorithm_items in Hin.
    repeat (apply elem_of_cons in Hin; destruct Hin as [-> | Hin]);
      [.. | inversion Hin]; vm_compute; reflexivity.
  - unfold algorithm_items in Hin.
    repeat (apply elem_of_cons in Hin; destruct Hin as [-> | Hin]);
      [.. | inversion Hin]; vm_compute; reflexivity.
  - unfold algorithm_items in Hin.
    repeat (apply elem_of_cons in Hin; destruct Hin as [-> | Hin]);
      [.. | inversion Hin];
      (intros B params grid field a b Hname;
       unfold call_selected_pathfinder; rewrite Hname;
       cbv - [findAStarPath_Tobler_Sampled findDijkstraPath_Tobler_Sampled
              findBFSPath_Tobler_Sampled findThetaStarPath_Tobler_Sampled
              findLazyThetaStarPath_Tobler_Sampled heuristicType];
       first [ reflexivity | eexists; reflexivity ]).
  - intros stof isFile w m_impl params Hname Hclick.
    unfold onCalculatePathClicked in Hclick.
    cbn [edit_widgets widgets isCalculating] in Hclick.
    destruct (isCalculating m_impl); [discriminate |].
    destruct (parseObstacleCosts stof _) as [parsed costs].
    destruct (negb parsed); [discriminate |].
    destruct (_ || _); [discriminate |].
    destruct (negb (isFile _)); [discriminate |].
    destruct (negb (isFile _)); [discriminate |].
    destruct (check_grid_reuse _ _ _ _) as [[reuse grid] norm].
    inversion Hclick; subst params. cbn [algorithmName heuristicType].
    cbn [onAlgorithmChanged algorithmComboBox heuristicComboBox_isEnabled
         heuristicComboBox].
    rewrite Hname. split; reflexivity.
Qed.

Lemma combo_box_entries_and_dispatch_witness :
  usesGpuParams "HADS - GPU" = true
  /\ usesHeuristic "HADS - GPU" = false
  /\ forall (B : Backend) (params : BackendInputParams) (grid : mapgeo.Grid_V3)
            (field : ElevationField) (a b : GridPoint),
      algorithmName params = "HADS - GPU" ->
      call_selected_pathfinder B params grid field a b
      = Raised "Selected GPU algorithm 'HADS - GPU' is not implemented.".
Proof.
  destruct (combo_box_entries_and_dispatch "HADS - GPU") as (Hg & Hh & Hcall & _).
  - unfold algorithm_items. do 6 right. left.
  - split; [exact Hg |]. split; [exact Hh |]. exact Hcall.
Defined.

(** ** Trimming *)

Section Trim.

Context (chars : list ascii).

Lemma strip_front_app (s t : list ascii) :
  strip_front chars (s ++ t)
  = match strip_front chars s with
    | [] => strip_front chars t
    | _ :: _ => strip_front chars s ++ t
    end.
Proof.
  induction s as [| c s IH]; simpl; [reflexivity |].
  destruct (cxx.isin c chars); [exact IH | reflexivity].
Qed.

Lemma strip_back_idem (s : list ascii) :
  strip_back chars (strip_back chars s) = strip_back chars s.
Proof.
  destruct (strip_back_split chars s) as (b & _ & _ & Hlast).
  destruct (strip_back chars s) as [| d t _] using rev_ind; [reflexivity |].
  apply strip_back_keep. apply Hlast. apply last_snoc.
Qed.

Lemma trim_blank_around (b1 s b2 : list ascii) :
  blank chars b1 -> blank chars b2 ->
  trim chars (b1 ++ s ++ b2) = trim chars s.
Proof.
  intros Hb1 Hb2. rewrite !trim_strip.
  rewrite strip_front_blank by assumption.
  rewrite strip_front_app.
  destruct (strip_front chars s) as [| c t].
  - rewrite (strip_front_all chars b2 Hb2). reflexivity.
  - apply strip_back_blank. exact Hb2.
Qed.

(** X22: trimming removes exactly the characters of the set at both ends:
    the input is the trimmed text between two runs of such characters, the
    trimmed text neither starts nor ends with one, and trimming again
    changes nothing. *)
Theorem trim_spec (s : list ascii) :
  (exists b1 b2, s = b1 ++ trim chars s ++ b2 /\ blank chars b1 /\ blank chars b2)
  /\ (forall c, head (trim chars s) = Some c -> c ∉ chars)
  /\ (forall c, last (trim chars s) = Some c -> c ∉ chars)
  /\ trim chars (trim chars s) = trim chars s.
Proof.
  rewrite !trim_strip.
  destruct (strip_front_split chars s) as (b1 & Hs & Hb1 & Hhead).
  destruct (strip_back_split chars (strip_front chars s)) as (b2 & Hf & Hb2 & Hlast).
  assert (Hhead' : forall c, head (strip_back chars (strip_front chars s)) = Some c ->
                             c ∉ chars).
  { intros c Hc. destruct (strip_front chars s) as [| d t]; [discriminate |].
    pose proof (Hhead d eq_refl) as Hd.
    rewrite strip_back_cons in Hc by exact Hd. simpl in Hc. congruence. }
  split; [| split; [| split]].
  - exists b1, b2. split; [| split; assumption].
    rewrite <- Hf. exact Hs.
  - exact Hhead'.
  - exact Hlast.
  - destruct (strip_back chars (strip_front chars s)) as [| d t] eqn:Htrim;
      [reflexivity |].
    rewrite strip_front_keep by (apply Hhead'; reflexivity).
    rewrite <- Htrim. apply strip_back_idem.
Qed.

End Trim.

(** ** Lines of the obstacle-cost text *)

(** X23: blank space around a line never changes how the line is read: in
    particular a carriage return left before the newline by a Windows line
    ending is ignored. *)
Theorem parse_line_ignores_surrounding_blanks
        (stof : list ascii -> option spec_float) (b1 line b2 : list ascii) :
  blank line_blanks b1 -> blank line_blanks b2 ->
  parse_line stof (b1 ++ line ++ b2) = parse_line stof line.
Proof.
  intros Hb1 Hb2. unfold parse_line.
  rewrite (trim_blank_around line_blanks b1 line b2 Hb1 Hb2). reflexivity.
Qed.

Lemma parse_line_ignores_surrounding_blanks_witness :
  parse_line demo_stof ([SPACE] ++ list_ascii_of_string "201: 5" ++ [CR])
  = parse_line demo_stof (list_ascii_of_string "201: 5").
Proof.
  apply parse_line_ignores_surrounding_blanks.
  - repeat constructor.
  - constructor; [| constructor]. unfold line_blanks. do 3 right. left.
Defined.

Section FirstRejection.

Context (stof : list ascii -> option spec_float).

Lemma parse_lines_accepted (pre : list (list ascii)) :
  forall m,
    (forall l why, l ∈ pre -> parse_line stof l <> Rejected why) ->
    (parse_lines stof pre m).1 = true.
Proof.
  induction pre as [| l pre IH]; intros m Hok; simpl; [reflexivity |].
  destruct (parse_line stof l) as [| code v | why] eqn:Hl.
  - apply IH. intros l' why Hin. apply Hok. right. exact Hin.
  - apply IH. intros l' why Hin. apply Hok. right. exact Hin.
  - exfalso. apply (Hok l why); [left | exact Hl].
Qed.

Lemma parse_lines_app (pre rest : list (list ascii)) :
  forall m,
    (parse_lines stof pre m).1 = true ->
    parse_lines stof (pre ++ rest) m = parse_lines stof rest (parse_lines stof pre m).2.
Proof.
  induction pre as [| l pre IH]; intros m Hok; simpl in *; [reflexivity |].
  destruct (parse_line stof l) as [| code v | why]; [apply IH | apply IH |]; try exact Hok.
  discriminate.
Qed.

End FirstRejection.

(** X24: parsing stops at the first rejected line: the lines after it are
    not read, the map is left with the entries of the lines before it, and
    "Calculate" returns without starting a calculation. *)
Theorem first_rejected_line_stops_parsing
        (stof : list ascii -> option spec_float) (isFile : string -> bool)
        (text : string) (pre : list (list ascii)) (bad : list ascii)
        (post : list (list ascii)) (why : ParseError) :
  cxx.getlines (list_ascii_of_string text) = pre ++ bad :: post ->
  (forall l w, l ∈ pre -> parse_line stof l <> Rejected w) ->
  parse_line stof bad = Rejected why ->
  parseObstacleCosts stof (Some text) = (false, (parse_lines stof pre ∅).2)
  /\ (parse_lines stof pre ∅).1 = true
  /\ forall m_impl,
      obstacleCostsTextEdit (widgets m_impl) = Some text ->
      onCalculatePathClicked stof isFile m_impl = None.
Proof.
  intros Hlines Hpre Hbad.
  pose proof (parse_lines_accepted stof pre ∅ Hpre) as Hok.
  assert (Hparse : parseObstacleCosts stof (Some text)
                   = (false, (parse_lines stof pre ∅).2)).
  { unfold parseObstacleCosts. rewrite Hlines.
    rewrite parse_lines_app by exact Hok. simpl. rewrite Hbad. reflexivity. }
  split; [exact Hparse |]. split; [exact Hok |].
  intros m_impl Htext. unfold onCalculatePathClicked.
  destruct (isCalculating m_impl); [reflexivity |].
  rewrite Htext, Hparse. reflexivity.
Qed.

Lemma first_rejected_line_stops_parsing_witness :
  let text := String.append "201: 5" (String LF (String.append "oops" (String LF "302: 7"))) in
  parseObstacleCosts demo_stof (Some text)
  = (false, (parse_lines demo_stof [list_ascii_of_string "201: 5"] ∅).2)
  /\ (parse_lines demo_stof [list_ascii_of_string "201: 5"] ∅).1 = true
  /\ forall m_impl,
      obstacleCostsTextEdit (widgets m_impl) = Some text ->
      onCalculatePathClicked demo_stof (fun _ => true) m_impl = None.
Proof.
  intros text.
  apply (first_rejected_line_stops_parsing demo_stof (fun _ => true) text
           [list_ascii_of_string "201: 5"] (list_ascii_of_string "oops")
           [list_ascii_of_string "302: 7"] MissingColon).
  - reflexivity.
  - intros l w Hin. apply list_elem_of_singleton in Hin. subst l.
    vm_compute. discriminate.
  - reflexivity.
Defined.

(** ** [std::getline] *)

(** X25: [std::getline] splits the text at its newline characters and
    nowhere else: no line it returns contains a newline; a text made of
    lines each followed by a newline is split back into those lines, with
    no empty line after the last newline; and so is a text whose last line,
    not empty, lacks the newline. *)
Theorem getlines_splits_at_newlines (lines : list (list ascii)) (final : list ascii) :
  Forall (fun l => LF ∉ l) lines -> LF ∉ final ->
  cxx.getlines (concat (map (fun l => l ++ [LF]) lines)) = lines
  /\ (final <> [] ->
      cxx.getlines (concat (map (fun l => l ++ [LF]) lines) ++ final)
      = lines ++ [final])
  /\ forall s, Forall (fun l => LF ∉ l) (cxx.getlines s).
Proof.
  intros Hlines Hfinal. split; [| split].
  - induction Hlines as [| l lines Hl _ IH]; [reflexivity |].
    simpl. rewrite <- app_assoc. simpl.
    rewrite getlines_line by exact Hl. rewrite IH. reflexivity.
  - intros Hne. induction Hlines as [| l lines Hl _ IH].
    + simpl. unfold cxx.getlines. rewrite getlines_from_no_newline by exact Hfinal.
      simpl. destruct final; [contradiction | reflexivity].
    + simpl. rewrite <- !app_assoc. simpl.
      rewrite getlines_line by exact Hl. rewrite IH. reflexivity.
  - intros s. apply getlines_from_lines. apply not_elem_of_nil.
Qed.

Lemma getlines_splits_at_newlines_witness :
  cxx.getlines (concat (map (fun l => l ++ [LF])
                          [list_ascii_of_string "201: 5"; []; list_ascii_of_string "# x"]))
  = [list_ascii_of_string "201: 5"; []; list_ascii_of_string "# x"].
Proof.
  apply (getlines_splits_at_newlines
           [list_ascii_of_string "201: 5"; []; list_ascii_of_string "# x"] []).
  - repeat constructor; vm_compute; intros H;
      repeat (apply elem_of_cons in H; destruct H as [H | H]; [discriminate |]);
      inversion H.
  - apply not_elem_of_nil.
Defined.

(** ** Failures of the map processor *)

(** X26: when the grid is not reused (reuse not requested, or no grid or no
    normalisation record handed in) and the scan found bounds, each failure
    of the map processor ends the run with its own "Backend Error" message
    and a result that is otherwise the initial one; in particular a grid
    generated without a valid normalisation record is not returned. *)
Theorem map_processor_failures (B : Backend) (params : BackendInputParams) :
  bounds_found (scanXmlForGeoRefAndBounds B (mapFilePath params) ["barrier"; "course"])
  = true ->
  reuseGridIfPossible params && has_value (existingGrid params)
  && has_value (existingNormInfo params) = false ->
  let procConfig :=
    {| mapgeo.grid_width := desiredGridWidth params;
       mapgeo.grid_height := desiredGridHeight params;
       mapgeo.layers_to_process := ["barrier"; "course"] |} in
  let loaded := loadMap B (MapProcessor_new B procConfig) (mapFilePath params) in
  let generated := generateGrid B loaded.2 (obstacleCosts params) in
  let failed msg :=
    processAndFindPath B params
    = set_errorMessage (MsgBackendError msg) (initial_result params) in
  (loaded.1 = false -> failed ("Map load failed: " +:+ mapFilePath params))
  /\ (loaded.1 = true -> generated.1 = None -> failed "Grid generation failed")
  /\ (loaded.1 = true -> generated.1 <> None ->
      match getNormalizationResult B generated.2 with
      | Some n => mapgeo.valid n = false
      | None => True
      end ->
      failed "Normalization results invalid after grid generation.").
Proof.
  intros Hb Hreuse procConfig loaded generated failed.
  destruct (scan_map_bounds_found B params Hb) as (can & scale & Hscan).
  assert (Hfail : forall msg,
             regenerate_grid B params (initial_result params)
             = (initial_result params, Raised msg) ->
             failed msg).
  { intros msg Hregen. unfold failed.
    rewrite (processAndFindPath_raised B params (initial_result params) msg);
      [reflexivity |].
    unfold prepare. rewrite (bind_normal _ _ _ _ _ (Hscan (initial_result params))).
    apply bind_raised. unfold process_grid. rewrite Hreuse. exact Hregen. }
  subst loaded generated. cbv zeta in *.
  split; [| split].
  - intros Hload. apply Hfail. unfold regenerate_grid. cbv zeta. fold procConfig.
    destruct (loadMap B (MapProcessor_new B procConfig) (mapFilePath params))
      as [l p1]. simpl in Hload. subst l. reflexivity.
  - intros Hload Hgen. apply Hfail. unfold regenerate_grid. cbv zeta. fold procConfig.
    destruct (loadMap B (MapProcessor_new B procConfig) (mapFilePath params))
      as [l p1]. simpl in Hload, Hgen. subst l. cbn [negb].
    destruct (generateGrid B p1 (obstacleCosts params)) as [g p2].
    simpl in Hgen. subst g. reflexivity.
  - intros Hload Hgen Hnorm. apply Hfail. unfold regenerate_grid. cbv zeta.
    fold procConfig.
    destruct (loadMap B (MapProcessor_new B procConfig) (mapFilePath params))
      as [l p1]. simpl in Hload, Hgen, Hnorm. subst l. cbn [negb].
    destruct (generateGrid B p1 (obstacleCosts params)) as [g p2].
    simpl in Hgen, Hnorm. destruct g as [g |]; [| contradiction].
    cbn [has_value negb].
    destruct (getNormalizationResult B p2) as [n |]; [| reflexivity].
    rewrite Hnorm. reflexivity.
Qed.

Lemma map_processor_failures_witness :
  processAndFindPath (demo_processor_backend false None None) (demo_params ∅ "Dijkstra")
  = set_errorMessage (MsgBackendError ("Map load failed: " +:+ "map.omap"))
      (initial_result (demo_params ∅ "Dijkstra"))
  /\ processAndFindPath (demo_processor_backend true (Some (demo_grid 4 4 ∅)) None)
       (demo_params ∅ "Dijkstra")
     = set_errorMessage
         (MsgBackendError "Normalization results invalid after grid generation.")
         (initial_result (demo_params ∅ "Dijkstra")).
Proof.
  split.
  - apply (map_processor_failures (demo_processor_backend false None None)
             (demo_params ∅ "Dijkstra") eq_refl eq_refl). reflexivity.
  - apply (map_processor_failures
             (demo_processor_backend true (Some (demo_grid 4 4 ∅)) None)
             (demo_params ∅ "Dijkstra") eq_refl eq_refl);
      [reflexivity | discriminate | exact I].
Defined.

(** ** What a run that reaches the loop reports *)

Lemma prepare_elevation_keeps_count (B : Backend) (params : BackendInputParams)
      scan norm mx :
  keeps waypointsFound (prepare_elevation B params scan norm mx).
Proof.
  unfold prepare_elevation. destruct scan as [[scanResult canFetch] scale].
  cbv zeta. repeat keeps_component.
Qed.

Lemma prepare_waypoints_found (B : Backend) (params : BackendInputParams)
      (r0 r1 : BackendResult) (prep : Prepared) :
  prepare B params r0 = (r1, Normal prep) ->
  waypointsFound r1 = length (prep_waypoints prep).
Proof.
  intros H.
  unfold prepare in H. unfold mbind at 1, M_bind at 1 in H.
  destruct (scan_map B params r0) as [ra [scan | w]]; [| discriminate].
  unfold mbind at 1, M_bind at 1 in H.
  destruct (process_grid B params ra) as [rb [[g n] | w]]; [| discriminate].
  cbv zeta in H.
  unfold mbind at 1, M_bind at 1 in H.
  destruct (negb (has_value g) || negb (has_value n)); [discriminate |].
  cbn [mret M_ret] in H.
  unfold mbind at 1, M_bind at 1, assign at 1 in H.
  unfold mbind at 1, M_bind at 1, assign at 1 in H.
  unfold mbind at 1, M_bind at 1, lift at 1 in H.
  destruct (value n) as [norm | w]; [| discriminate].
  unfold mbind at 1, M_bind at 1 in H.
  match type of H with
  | context [match ?wp ?rr with _ => _ end] =>
    destruct (wp rr) as [rc [wps | w]]; [| discriminate]
  end.
  unfold mbind at 1, M_bind at 1, assign at 1 in H.
  unfold mbind at 1, M_bind at 1 in H.
  match type of H with
  | context [prepare_elevation B params ?s ?nn ?m ?rr] =>
    pose proof (prepare_elevation_keeps_count B params s nn m rr) as Hk;
    destruct (prepare_elevation B params s nn m rr) as [rd [fld | w]];
      [| discriminate]
  end.
  unfold mbind at 1, M_bind at 1, lift at 1 in H.
  destruct (value g) as [grid | w]; [| discriminate].
  inversion H; subst. cbn [prep_waypoints]. simpl in Hk. exact Hk.
Qed.

Lemma finalize_keeps_count (wps : list GridPoint) (st : LoopState) :
  keeps waypointsFound (finalize wps st).
Proof. unfold finalize. repeat keeps_component. Qed.

(** X27: a run whose preparation succeeded reports the number of waypoints
    it worked on, at least two, and returns the grid the loop searched,
    whether the loop then succeeds, fails or throws. *)
Theorem prepared_run_reports (B : Backend) (params : BackendInputParams)
        (r1 : BackendResult) (prep : Prepared) :
  prepare B params (initial_result params) = (r1, Normal prep) ->
  let r := processAndFindPath B params in
  waypointsFound r = length (prep_waypoints prep)
  /\ (2 <= waypointsFound r)%nat
  /\ processedGrid r = Some (prep_grid prep)
  /\ exists n, normalizationInfo r = Some n.
Proof.
  intros Hprep r. subst r.
  pose proof (prepare_waypoints_length B params _ _ _ Hprep) as Hlen.
  cbv beta in Hlen.
  pose proof (prepare_waypoints_found B params _ _ _ Hprep) as Hcount.
  assert (Hsame : waypointsFound (processAndFindPath B params) = waypointsFound r1).
  { rewrite (processAndFindPath_prepared _ _ _ _ Hprep).
    destruct (segment_loop _ _ _ _ _ _ _) as [st | w]; [| reflexivity].
    apply finalize_keeps_count. }
  destruct (prepare_grid B params _ _ _ Hprep) as [n Hstored].
  pose proof (processAndFindPath_stored_grid B params r1 _ Hprep) as Hfinal.
  rewrite Hstored in Hfinal. unfold stored_grid in Hfinal.
  injection Hfinal as Hg Hn.
  rewrite Hsame, Hcount. repeat split; [exact Hlen | exact Hg |].
  exists n. exact Hn.
Qed.

Lemma prepared_run_reports_witness :
  let params := demo_params ∅ "no such algorithm" in
  exists prep,
    waypointsFound (processAndFindPath two_point_backend params)
    = length (prep_waypoints prep)
    /\ (2 <= waypointsFound (processAndFindPath two_point_backend params))%nat
    /\ processedGrid (processAndFindPath two_point_backend params) = Some (prep_grid prep)
    /\ exists n, normalizationInfo (processAndFindPath two_point_backend params) = Some n.
Proof.
  intros params.
  destruct (prepare two_point_backend params (initial_result params))
    as [r1 [prep | w]] eqn:Hprep; [| vm_compute in Hprep; discriminate].
  exists prep. exact (prepared_run_reports two_point_backend params r1 prep Hprep).
Defined.

(** ** What the pathfinders are asked *)

Section Asked.

Context (B : Backend)
        (astar : mapgeo.Grid_V3 -> ElevationField -> GridPoint -> GridPoint -> Z -> list Z)
        (dijkstra bfs : mapgeo.Grid_V3 -> ElevationField -> GridPoint -> GridPoint -> list Z)
        (theta lazy : mapgeo.Grid_V3 -> ElevationField -> GridPoint -> GridPoint -> Z -> list Z).
Context (Hagree : agree_on_segments B (with_pathfinders B astar dijkstra bfs theta lazy)).
Context (params : BackendInputParams) (grid : mapgeo.Grid_V3) (field : ElevationField).

Lemma segment_body_asked (i : nat) (a b : GridPoint) (st : LoopState) :
  segment_body (with_pathfinders B astar dijkstra bfs theta lazy) params grid field i a b st
  = segment_body B params grid field i a b st.
Proof.
  unfold segment_body.
  destruct (mapgeo.inBounds grid (gp_x a) (gp_y a)) eqn:Ha; [| reflexivity].
  destruct (mapgeo.inBounds grid (gp_x b) (gp_y b)) eqn:Hb; [| reflexivity].
  cbn [negb orb].
  destruct (GridPoint_eqb a b) eqn:Hab; [reflexivity |].
  assert (Hne : a <> b).
  { intros Heq. apply GridPoint_eqb_eq in Heq. congruence. }
  destruct (Hagree grid field a b (heuristicType params) Ha Hb Hne)
    as (H1 & H2 & H3 & H4 & H5).
  assert (Hcall : call_selected_pathfinder (with_pathfinders B astar dijkstra bfs theta lazy)
                    params grid field a b
                  = call_selected_pathfinder B params grid field a b).
  { unfold call_selected_pathfinder.
    repeat match goal with
           | |- context [String.eqb ?s ?t] => destruct (String.eqb s t)
           end; try congruence; reflexivity. }
  rewrite Hcall. reflexivity.
Qed.

Lemma segment_loop_asked (wps : list GridPoint) :
  forall i st,
    segment_loop (with_pathfinders B astar dijkstra bfs theta lazy) params grid field i wps st
    = segment_loop B params grid field i wps st.
Proof.
  induction wps as [| a rest IH]; intros i st; [reflexivity |].
  destruct rest as [| b rest]; [reflexivity |].
  rewrite !segment_loop_cons, segment_body_asked.
  destruct (segment_body B params grid field i a b st); [apply IH | reflexivity ..].
Qed.

End Asked.

(** X28: the pathfinders are asked only for segments between two different
    cells inside the grid: replacing them by others that return the same
    paths for such segments, and anything at all elsewhere, changes nothing
    in the result of a run. *)
Theorem pathfinders_asked_for_valid_segments_only (B : Backend)
        (astar : mapgeo.Grid_V3 -> ElevationField -> GridPoint -> GridPoint -> Z -> list Z)
        (dijkstra bfs : mapgeo.Grid_V3 -> ElevationField -> GridPoint -> GridPoint -> list Z)
        (theta lazy : mapgeo.Grid_V3 -> ElevationField -> GridPoint -> GridPoint -> Z -> list Z)
        (params : BackendInputParams) :
  agree_on_segments B (with_pathfinders B astar dijkstra bfs theta lazy) ->
  processAndFindPath (with_pathfinders B astar dijkstra bfs theta lazy) params
  = processAndFindPath B params.
Proof.
  intros Hagree. unfold processAndFindPath, try_block.
  change (prepare (with_pathfinders B astar dijkstra bfs theta lazy) params)
    with (prepare B params).
  unfold mbind at 1 3, M_bind at 1 3.
  destruct (prepare B params (initial_result params)) as [r1 [prep | w]]; [| reflexivity].
  unfold mbind, M_bind, lift.
  rewrite (segment_loop_asked B astar dijkstra bfs theta lazy Hagree).
  reflexivity.
Qed.

Lemma pathfinders_asked_for_valid_segments_only_witness :
  let B := demo_backend demo_scan_no_scale
             [mkGridPoint 0 0; mkGridPoint 3 3; mkGridPoint 3 3; mkGridPoint 1 2]
             demo_elevation_default false in
  processAndFindPath
    (with_pathfinders B
       (fun g _ a b _ => demo_careless_path g a b) (fun g _ a b => demo_careless_path g a b)
       (fun g _ a b => demo_careless_path g a b) (fun g _ a b _ => demo_careless_path g a b)
       (fun g _ a b _ => demo_careless_path g a b))
    (demo_params ∅ "Theta*")
  = processAndFindPath B (demo_params ∅ "Theta*").
Proof.
  intros B. apply pathfinders_asked_for_valid_segments_only.
  intros g f a b h Ha Hb Hne. simpl.
  assert (H : demo_careless_path g a b = demo_find_path g a b).
  { unfold demo_careless_path. rewrite Ha, Hb.
    destruct (GridPoint_eqb a b) eqn:Hab; [| reflexivity].
    apply GridPoint_eqb_eq in Hab. contradiction. }
  repeat split; exact H.
Defined.

(** ** A text without entries *)

(** X29: a costs text in which every line is blank or a comment (the empty
    text included) is accepted and yields no costs at all, whereas a
    missing editor widget makes the parse fail. *)
Theorem text_without_entries (stof : list ascii -> option spec_float) (text : string) :
  (forall l, l ∈ cxx.getlines (list_ascii_of_string text) -> parse_line stof l = Skipped) ->
  parseObstacleCosts stof (Some text) = (true, ∅)
  /\ parseObstacleCosts stof None = (false, ∅).
Proof.
  intros Hskip. split; [| reflexivity].
  unfold parseObstacleCosts.
  induction (cxx.getlines (list_ascii_of_string text)) as [| l lines IH];
    [reflexivity |].
  simpl. rewrite (Hskip l) by left.
  apply IH. intros l' Hin. apply Hskip. right. exact Hin.
Qed.

Lemma text_without_entries_witness :
  parseObstacleCosts demo_stof (Some "# no costs yet") = (true, ∅)
  /\ parseObstacleCosts demo_stof None = (false, ∅).
Proof.
  apply (text_without_entries demo_stof "# no costs yet").
  intros l Hin.
  change (l ∈ [list_ascii_of_string "# no costs yet"]) in Hin.
  apply list_elem_of_singleton in Hin. subst l. reflexivity.
Defined.
